(** * Validation core of the Eccoin node: a shallow embedding of [src/main.cpp]

    The development follows the layout of the C++ file: lock-time
    finality ([IsFinalTx]), BIP68 relative locks
    ([CalculateSequenceLocks], [EvaluateSequenceLocks]), input checking
    ([Consensus::CheckTxInputs], [CheckInputs]), mempool admission
    ([AcceptToMemoryPoolWorker], [AcceptToMemoryPool]), the state flush
    policy ([FlushStateToDisk]) and the context-free block check
    ([CheckBlock]); then the contextual block check
    ([ContextualCheckBlock], [IsSuperMajority]), the proof-of-stake
    reward, the block file positions ([FindBlockPos]), the warnings and
    the wallet transactions of [src/wallet/wallet.h].  Definitions come
    first, the theorems about them afterwards. *)

From Stdlib Require Import ZArith Lia Bool.
From Stdlib Require DecimalString.
From stdpp Require Import base option list gmap strings.

Local Open Scope Z_scope.

#[local] Set Warnings "-register-all".

(* ===================================================================== *)
(** * Part I. Definitions                                                 *)
(* ===================================================================== *)

(** ** Machine integers

    C++ fixed-width integers are integers of [Z] together with the
    wrap-around of the width, written where the source computes. *)

Definition wrap_unsigned (w x : Z) : Z := x mod 2 ^ w.
Definition wrap_signed (w x : Z) : Z := (x + 2 ^ (w - 1)) mod 2 ^ w - 2 ^ (w - 1).

Definition uint32 (x : Z) : Z := wrap_unsigned 32 x.
Definition int32 (x : Z) : Z := wrap_signed 32 x.
Definition int64 (x : Z) : Z := wrap_signed 64 x.

(** [x & m] in a condition: the bit test of C++. *)
Definition has_flag (x m : Z) : bool := negb (Z.land x m =? 0).

(** ** Primitive data ([primitives/transaction.h], [coins.h], [chain.h])

    The headers are not part of the sources at hand; the records keep
    the fields that [main.cpp] reads, under their C++ names. *)

(** [COutPoint]: transaction id and output index. *)
Abbreviation COutPoint := (Z * Z)%type.

Record CTxIn := mkTxIn {
  prevout : COutPoint;
  scriptSig : list Z;
  nSequence : Z                      (* uint32_t *)
}.

Record CTxOut := mkTxOut {
  nValue : Z;                        (* CAmount, int64_t *)
  scriptPubKey : list Z
}.

Record CTransaction := mkTx {
  nVersion : Z;                      (* int32_t *)
  nTime : Z;                         (* unsigned int *)
  vin : list CTxIn;
  vout : list CTxOut;
  nLockTime : Z;                     (* uint32_t *)
  serviceReferenceHash : Z
}.

(** Modelled from the spec: the unspent output record of [coins.h],
    which is not among the sources.  It holds "the owning transaction's
    output, the block height it was created at, whether its parent
    transaction was a coinbase/coinstake"; [coin_IsCoinBase] is what
    [Coin::IsCoinBase()] returns. *)
Record Coin := mkCoin {
  coin_out : CTxOut;
  coin_nHeight : Z;
  coin_IsCoinBase : bool
}.

(** Modelled from the spec: a block index entry of [chain.h] "holds
    ancestor link, height"; the other fields are not read by the code
    embedded here.  [index_id] stands for the identity of the entry. *)
Inductive CBlockIndex := mkBlockIndex {
  index_id : Z;
  nHeight : Z;                       (* int *)
  pprev : option CBlockIndex
}.

(** Modelled from the spec: [CBlockIndex::GetAncestor] of [chain.cpp]
    follows the ancestor links down to the entry of the given height and
    returns the null pointer for a height above the entry's own or
    below zero. *)
Fixpoint GetAncestor (b : CBlockIndex) (height : Z) : option CBlockIndex :=
  if (nHeight b <? height) || (height <? 0) then None
  else if height =? nHeight b then Some b
  else match pprev b with
       | Some p => GetAncestor p height
       | None => None
       end.

(** ** Validation results ([consensus/validation.h])

    The header is not among the sources.  The specification has every
    rejection carry "a machine-readable reason string and a numeric
    severity", in "a single result type carrying (outcome, reason code,
    severity, debug detail)". *)

(** Modelled from the spec: the reason codes that [main.cpp] passes. *)
Inductive RejectCode :=
| REJECT_NONE                         (* the default, 0 *)
| REJECT_INVALID
| REJECT_NONSTANDARD
| REJECT_INSUFFICIENTFEE
| REJECT_ALREADY_KNOWN
| REJECT_CONFLICT
| REJECT_HIGHFEE.

(** Modelled from the spec: the outcome of a validation. *)
Inductive mode_state := MODE_VALID | MODE_INVALID | MODE_ERROR.

(** Modelled from the spec: [CValidationState], that is outcome,
    severity, reason, reason code and debug detail. *)
Record CValidationState := mkState {
  mode : mode_state;
  nDoS : Z;
  strRejectReason : string;
  chRejectCode : RejectCode;
  corruptionPossible : bool;
  strDebugMessage : string
}.

Definition state_valid : CValidationState :=
  mkState MODE_VALID 0 "" REJECT_NONE false "".

(** Modelled from the spec: [state.DoS(level, ret, code, reason,
    corruption, debug)] records the reason code, the reason and the
    debug detail, adds the level to the severity and marks the state
    invalid (a state in error stays in error); it hands back [ret]. *)
Definition DoS (state : CValidationState) (level : Z) (ret : bool)
           (chRejectCodeIn : RejectCode) (strRejectReasonIn : string)
           (corruptionIn : bool) (strDebugMessageIn : string)
  : bool * CValidationState :=
  match mode state with
  | MODE_ERROR =>
      (ret, mkState MODE_ERROR (nDoS state) strRejectReasonIn chRejectCodeIn
                    corruptionIn strDebugMessageIn)
  | _ =>
      (ret, mkState MODE_INVALID (nDoS state + level) strRejectReasonIn chRejectCodeIn
                    corruptionIn strDebugMessageIn)
  end.

(** Modelled from the spec: [state.Invalid(ret, code, reason, debug)],
    a rejection of severity 0. *)
Definition Invalid (state : CValidationState) (ret : bool)
           (chRejectCodeIn : RejectCode) (strRejectReasonIn strDebugMessageIn : string)
  : bool * CValidationState :=
  DoS state 0 ret chRejectCodeIn strRejectReasonIn false strDebugMessageIn.

(** Modelled from the spec: [state.Error(reason)], the outcome of an
    internal or I/O failure; it hands back false. *)
Definition Error (state : CValidationState) (strRejectReasonIn : string)
  : bool * CValidationState :=
  (false,
   mkState MODE_ERROR (nDoS state)
           (match mode state with
            | MODE_VALID => strRejectReasonIn
            | _ => strRejectReason state
            end)
           (chRejectCode state) (corruptionPossible state) (strDebugMessage state)).

#[global] Arguments DoS : simpl never.
#[global] Arguments Invalid : simpl never.
#[global] Arguments Error : simpl never.

Definition IsInvalid (state : CValidationState) : bool :=
  match mode state with MODE_INVALID => true | _ => false end.

(** What a check of another translation unit hands to [state.DoS]. *)
Record Rejection := mkRejection {
  rej_level : Z;
  rej_code : RejectCode;
  rej_reason : string;
  rej_corruption : bool;
  rej_debug : string
}.

Definition reject_with (state : CValidationState) (r : Rejection)
  : bool * CValidationState :=
  DoS state (rej_level r) false (rej_code r) (rej_reason r)
      (rej_corruption r) (rej_debug r).

(** ** Constants and helpers declared outside [main.cpp]

    Constants of the consensus and policy headers and the member
    functions of transactions and block index entries that [main.cpp]
    calls are parameters of the development: every theorem below holds
    for all their values. *)

Class Consensus := {
  LOCKTIME_THRESHOLD : Z;
  LOCKTIME_VERIFY_SEQUENCE : Z;
  LOCKTIME_MEDIAN_TIME_PAST : Z;
  SEQUENCE_FINAL : Z;
  SEQUENCE_LOCKTIME_DISABLE_FLAG : Z;
  SEQUENCE_LOCKTIME_TYPE_FLAG : Z;
  SEQUENCE_LOCKTIME_MASK : Z;
  SEQUENCE_LOCKTIME_GRANULARITY : Z;
  COINBASE_MATURITY : Z;
  MAX_MONEY : Z;
  DEFAULT_TRANSACTION_MINFEE : Z;
  MAX_BLOCK_SIZE : Z;
  MAX_BLOCK_SIGOPS : Z;
  MEMPOOL_HEIGHT : Z;
  (** [CBlockIndex::GetMedianTimePast()] *)
  GetMedianTimePast : CBlockIndex -> Z;
  (** [CTransaction::IsCoinBase()], [CTransaction::IsCoinStake()] *)
  IsCoinBase : CTransaction -> bool;
  IsCoinStake : CTransaction -> bool;
  (** [CTransaction::GetHash()] *)
  GetHash : CTransaction -> Z;
  (** [CTransaction::GetValueOut()] *)
  GetValueOut : CTransaction -> Z;
  (** [CheckTransaction(tx, state)]: the rejection it records in [state]
      when it fails, nothing when the transaction is structurally valid *)
  CheckTransaction : CTransaction -> option Rejection
}.

(** ** Lock-time finality *)

Section Finality.
Context `{Consensus}.

(** The loop over [tx.vin] of [IsFinalTx]: [false] at the first input
    whose sequence number is not [SEQUENCE_FINAL]. *)
Fixpoint all_inputs_final (ins : list CTxIn) : bool :=
  match ins with
  | [] => true
  | txin :: rest =>
      if negb (nSequence txin =? SEQUENCE_FINAL) then false
      else all_inputs_final rest
  end.

(** [IsFinalTx]; the casts to [int64_t] of the source keep the values
    of [nLockTime] (unsigned, 32 bits) and [nBlockHeight] ([int]). *)
Definition IsFinalTx (tx : CTransaction) (nBlockHeight nBlockTime : Z) : bool :=
  if nLockTime tx =? 0 then true
  else if nLockTime tx <?
            (if nLockTime tx <? LOCKTIME_THRESHOLD then nBlockHeight else nBlockTime)
  then true
  else all_inputs_final (vin tx).

End Finality.

(** ** BIP68 sequence locks *)

Section SequenceLocks.
Context `{Consensus}.

(** State of the loop of [CalculateSequenceLocks]: [nMinHeight],
    [nMinTime] and the vector behind [prevHeights]. *)
Record LockLoop := mkLockLoop {
  nMinHeight : Z;
  nMinTime : Z;
  heights : list Z
}.

(** One iteration, for index [txinIndex].  [None] is a run that does
    not return: an index outside a vector, or the null pointer that
    [GetAncestor] returned being dereferenced. *)
Definition sequence_lock_step (block : CBlockIndex) (ins : list CTxIn)
           (st : LockLoop) (txinIndex : nat) : option LockLoop :=
  txin ← ins !! txinIndex;
  if has_flag (nSequence txin) SEQUENCE_LOCKTIME_DISABLE_FLAG then
    if decide (txinIndex < length (heights st))%nat then
      Some (mkLockLoop (nMinHeight st) (nMinTime st) (<[txinIndex := 0]> (heights st)))
    else None
  else
    nCoinHeight ← heights st !! txinIndex;
    if has_flag (nSequence txin) SEQUENCE_LOCKTIME_TYPE_FLAG then
      ancestor ← GetAncestor block (Z.max (int32 (nCoinHeight - 1)) 0);
      let nCoinTime := GetMedianTimePast ancestor in
      Some (mkLockLoop (nMinHeight st)
              (Z.max (nMinTime st)
                 (int64 (nCoinTime
                         + uint32 (Z.shiftl (Z.land (nSequence txin) SEQUENCE_LOCKTIME_MASK)
                                            SEQUENCE_LOCKTIME_GRANULARITY)
                         - 1)))
              (heights st))
    else
      Some (mkLockLoop
              (Z.max (nMinHeight st)
                 (int32 (nCoinHeight
                         + int32 (Z.land (nSequence txin) SEQUENCE_LOCKTIME_MASK) - 1)))
              (nMinTime st) (heights st)).

Fixpoint sequence_lock_loop (block : CBlockIndex) (ins : list CTxIn)
         (idxs : list nat) (st : LockLoop) : option LockLoop :=
  match idxs with
  | [] => Some st
  | i :: rest =>
      match sequence_lock_step block ins st i with
      | Some st' => sequence_lock_loop block ins rest st'
      | None => None
      end
  end.

Definition fEnforceBIP68 (tx : CTransaction) (flags : Z) : bool :=
  (2 <=? uint32 (nVersion tx)) && has_flag flags LOCKTIME_VERIFY_SEQUENCE.

(** [CalculateSequenceLocks]: the pair (minimum height, minimum time)
    and the vector of input heights as the call leaves it.  [None]
    when the opening assertion fails or the loop does not return. *)
Definition CalculateSequenceLocks (tx : CTransaction) (flags : Z)
           (prevHeights : list Z) (block : CBlockIndex)
  : option ((Z * Z) * list Z) :=
  if negb (length prevHeights =? length (vin tx))%nat then None
  else if negb (fEnforceBIP68 tx flags) then Some ((-1, -1), prevHeights)
  else
    st ← sequence_lock_loop block (vin tx) (seq 0 (length (vin tx)))
                            (mkLockLoop (-1) (-1) prevHeights);
    Some ((nMinHeight st, nMinTime st), heights st).

(** [EvaluateSequenceLocks]; [None] is the failed [assert(block.pprev)]. *)
Definition EvaluateSequenceLocks (block : CBlockIndex) (lockPair : Z * Z)
  : option bool :=
  match pprev block with
  | None => None
  | Some prev =>
      let nBlockTime := GetMedianTimePast prev in
      if (nHeight block <=? lockPair.1) || (nBlockTime <=? lockPair.2)
      then Some false
      else Some true
  end.

Definition SequenceLocks (tx : CTransaction) (flags : Z)
           (prevHeights : list Z) (block : CBlockIndex) : option (bool * list Z) :=
  '(lockPair, hs) ← CalculateSequenceLocks tx flags prevHeights block;
  b ← EvaluateSequenceLocks block lockPair;
  Some (b, hs).

(** *** The relative-lock rule in the words of the specification

    An input whose sequence number has the disable bit set contributes
    no constraint; the type bit selects a time-based or a height-based
    constraint; the result is the element-wise maximum across the
    contributing inputs, over the neutral value -1. *)

Definition clear_disable_flag (txin : CTxIn) : CTxIn :=
  mkTxIn (prevout txin) (scriptSig txin)
         (Z.land (nSequence txin) (Z.lnot SEQUENCE_LOCKTIME_DISABLE_FLAG)).

Definition contributes (txin : CTxIn) : bool :=
  negb (has_flag (nSequence txin) SEQUENCE_LOCKTIME_DISABLE_FLAG).

Definition height_constraint (txin : CTxIn) (nCoinHeight : Z) : Z :=
  int32 (nCoinHeight + int32 (Z.land (nSequence txin) SEQUENCE_LOCKTIME_MASK) - 1).

Definition time_constraint (txin : CTxIn) (nCoinTime : Z) : Z :=
  int64 (nCoinTime
         + uint32 (Z.shiftl (Z.land (nSequence txin) SEQUENCE_LOCKTIME_MASK)
                            SEQUENCE_LOCKTIME_GRANULARITY)
         - 1).

(** Median time past of the block before the one that holds the coin. *)
Definition coin_time (block : CBlockIndex) (nCoinHeight : Z) : option Z :=
  GetMedianTimePast <$> GetAncestor block (Z.max (int32 (nCoinHeight - 1)) 0).

Fixpoint spec_sequence_locks (block : CBlockIndex) (ins : list (CTxIn * Z))
  : Z * Z :=
  match ins with
  | [] => (-1, -1)
  | (txin, h) :: rest =>
      let '(mh, mt) := spec_sequence_locks block rest in
      if contributes txin then
        if has_flag (nSequence txin) SEQUENCE_LOCKTIME_TYPE_FLAG then
          match coin_time block h with
          | Some t => (mh, Z.max mt (time_constraint txin t))
          | None => (mh, mt)
          end
        else (Z.max mh (height_constraint txin h), mt)
      else (mh, mt)
  end.

(** The loop of [CalculateSequenceLocks] read as a left fold over the
    inputs paired with their coin heights. *)
Fixpoint lock_fold (block : CBlockIndex) (l : list (CTxIn * Z)) (mh mt : Z)
  : option (Z * Z) :=
  match l with
  | [] => Some (mh, mt)
  | (txin, h) :: rest =>
      if contributes txin then
        if has_flag (nSequence txin) SEQUENCE_LOCKTIME_TYPE_FLAG then
          match coin_time block h with
          | Some t => lock_fold block rest mh (Z.max mt (time_constraint txin t))
          | None => None
          end
        else lock_fold block rest (Z.max mh (height_constraint txin h)) mt
      else lock_fold block rest mh mt
  end.

(** Every time-based contributing input has the ancestor it reads. *)
Fixpoint lock_defined (block : CBlockIndex) (l : list (CTxIn * Z)) : Prop :=
  match l with
  | [] => True
  | (txin, h) :: rest =>
      (contributes txin = true ->
       has_flag (nSequence txin) SEQUENCE_LOCKTIME_TYPE_FLAG = true ->
       is_Some (coin_time block h))
      /\ lock_defined block rest
  end.

(** The transaction with the disable bit of input [k] cleared. *)
Definition enable_input (k : nat) (tx : CTransaction) : CTransaction :=
  mkTx (nVersion tx) (nTime tx)
       (alter clear_disable_flag k (vin tx))
       (vout tx) (nLockTime tx) (serviceReferenceHash tx).
End SequenceLocks.

(** ** The coins a check reads ([CCoinsViewCache])

    Modelled from the spec: the coin view "exposes get/set/spend/flush
    of unspent-output records keyed by (transaction id, output index)"
    and [GetBestBlock() -> blockHash].  [AccessCoin] yields no coin for
    an outpoint that is absent or spent. *)
Record CCoinsViewCache := mkView {
  cacheCoins : gmap COutPoint Coin;
  hashBlock : Z
}.

(** Modelled from the spec: [AccessCoin], the coin of an outpoint, none
    when it is absent or spent. *)
Definition AccessCoin (inputs : CCoinsViewCache) (o : COutPoint) : option Coin :=
  cacheCoins inputs !! o.

(** Modelled from the spec: [HaveCoin(outpoint) -> bool]. *)
Definition HaveCoin (inputs : CCoinsViewCache) (o : COutPoint) : bool :=
  bool_decide (is_Some (cacheCoins inputs !! o)).

(** Modelled from the spec: [MoneyRange] of [amount.h], a value that is
    "non-negative and bounded by a global maximum". *)
Definition MoneyRange `{Consensus} (v : Z) : bool := (0 <=? v) && (v <=? MAX_MONEY).

(** ** The node around the checks

    Globals of the node and functions of other translation units that
    the input checks consult. *)
Class Node := {
  (** [mapBlockIndex] of the active chain manager, keyed by block hash *)
  mapBlockIndex : gmap Z CBlockIndex;
  (** [chainActive.Tip()], null on an empty chain *)
  chainActive_Tip : option CBlockIndex;
  (** [tx.GetCoinAge(nCoinAge)]: the coin age when it can be computed *)
  GetCoinAge : CTransaction -> option Z;
  (** [tx.GetCoinAge(nCoinAge, true)] *)
  GetCoinAgeByValue : CTransaction -> Z -> Z;
  GetProofOfStakeReward : Z -> Z -> Z;
  (** [VerifyScript] behind [CScriptCheck::operator()], for input [nIn]
      of the transaction spending the given coin under the given flags *)
  VerifyScript : CTransaction -> nat -> Coin -> Z -> bool;
  ScriptErrorString : CTransaction -> nat -> Coin -> Z -> string;
  MANDATORY_SCRIPT_VERIFY_FLAGS : Z;
  STANDARD_SCRIPT_VERIFY_FLAGS : Z;
  STANDARD_NOT_MANDATORY_VERIFY_FLAGS : Z
}.

Section InputChecks.
Context `{Consensus} `{Node}.

(** Modelled from the spec: [CCoinsViewCache::HaveInputs], "verify
    the referenced coin is unspent" for each input of a transaction
    that is not a coinbase. *)
Definition HaveInputs (inputs : CCoinsViewCache) (tx : CTransaction) : bool :=
  if negb (IsCoinBase tx)
  then forallb (fun txin => HaveCoin inputs (prevout txin)) (vin tx)
  else true.

(** [GetSpendHeight]; [None] when the best block of the view is not in
    [mapBlockIndex] and the end iterator is dereferenced. *)
Definition GetSpendHeight (inputs : CCoinsViewCache) : option Z :=
  pindexPrev ← mapBlockIndex !! hashBlock inputs;
  Some (int32 (nHeight pindexPrev + 1)).

(** Outcome of one pass over an input in [CheckTxInputs]. *)
Inductive InputStep :=
| InputRejected (res : bool * CValidationState)
| InputPassed (nSpendHeight nValueIn : Z).

Definition premature_spend (state : CValidationState)
  : bool * CValidationState :=
  Invalid state false REJECT_INVALID "bad-txns-premature-spend-of-coinbase"
          "tried to spend coinbase at depth".

(** The body of the loop of [CheckTxInputs] for one input.  [None]:
    the run does not return (failed assertion, null or end iterator
    dereferenced). *)
Definition check_tx_input (tx : CTransaction) (state : CValidationState)
           (inputs : CCoinsViewCache) (txin : CTxIn)
           (nSpendHeight nValueIn : Z) : option InputStep :=
  coin ← AccessCoin inputs (prevout txin);
  matured ←
    (if coin_IsCoinBase coin || IsCoinStake tx then
       nSpendHeight' ← (if nSpendHeight =? -1 then GetSpendHeight inputs
                        else Some nSpendHeight);
       if int64 (nSpendHeight' - coin_nHeight coin) <? COINBASE_MATURITY then
         tip ← chainActive_Tip;
         if 1600000 <? nHeight tip
         then Some (inl (premature_spend state))
         else Some (inr nSpendHeight')
       else Some (inr nSpendHeight')
     else Some (inr nSpendHeight));
  match matured with
  | inl res => Some (InputRejected res)
  | inr nSpendHeight' =>
      let nValueIn' := int64 (nValueIn + nValue (coin_out coin)) in
      if negb (MoneyRange (nValue (coin_out coin))) || negb (MoneyRange nValueIn')
      then Some (InputRejected
                   (DoS state 100 false REJECT_INVALID
                        "bad-txns-inputvalues-outofrange" false ""))
      else Some (InputPassed nSpendHeight' nValueIn')
  end.

Fixpoint check_tx_inputs_loop (tx : CTransaction) (state : CValidationState)
         (inputs : CCoinsViewCache) (ins : list CTxIn)
         (nSpendHeight nValueIn : Z) : option InputStep :=
  match ins with
  | [] => Some (InputPassed nSpendHeight nValueIn)
  | txin :: rest =>
      match check_tx_input tx state inputs txin nSpendHeight nValueIn with
      | None => None
      | Some (InputRejected res) => Some (InputRejected res)
      | Some (InputPassed nSpendHeight' nValueIn') =>
          check_tx_inputs_loop tx state inputs rest nSpendHeight' nValueIn'
      end
  end.

(** [Consensus::CheckTxInputs].  The parameter [nSpendHeight] is
    overwritten with -1 before it is read.  The log line under [fDebug]
    is left out. *)
Definition CheckTxInputs (tx : CTransaction) (state : CValidationState)
           (inputs : CCoinsViewCache) (nSpendHeight : Z)
  : option (bool * CValidationState) :=
  if negb (HaveInputs inputs tx)
  then Some (Invalid state false REJECT_NONE "" "Inputs unavailable")
  else
    let nSpendHeight := -1 in
    step ← check_tx_inputs_loop tx state inputs (vin tx) nSpendHeight 0;
    match step with
    | InputRejected res => Some res
    | InputPassed nSpendHeight nValueIn =>
        if negb (IsCoinStake tx) then
          if nValueIn <? GetValueOut tx then
            Some (DoS state 100 false REJECT_INVALID "bad-txns-in-belowout" false
                      "value in < value out")
          else
            let nTxFee := int64 (nValueIn - GetValueOut tx) in
            if nTxFee <? 0 then
              Some (DoS state 100 false REJECT_INVALID "bad-txns-fee-negative" false "")
            else
              let nFees := int64 (0 + nTxFee) in
              if negb (MoneyRange nFees) then
                Some (DoS state 100 false REJECT_INVALID "bad-txns-fee-outofrange"
                          false "")
              else Some (true, state)
        else
          match GetCoinAge tx with
          | None =>
              Some (DoS state 100 false REJECT_INVALID "bad-txns-cant-get-coin-age"
                        false "unable to get coin age for coinstake")
          | Some nCoinAge =>
              let nStakeReward := int64 (GetValueOut tx - nValueIn) in
              if int64 (GetProofOfStakeReward (GetCoinAgeByValue tx nCoinAge)
                                              nSpendHeight
                        + DEFAULT_TRANSACTION_MINFEE) <? nStakeReward
              then Some (DoS state 100 false REJECT_INVALID
                             "bad-txns-stake-reward-too-high" false
                             "stake reward exceeded")
              else Some (true, state)
          end
    end.

(** The script check of one input in [CheckInputs], run at once
    ([pvChecks] null).  [inl]: the rejection returned. *)
Definition check_input_script (tx : CTransaction) (state : CValidationState)
           (inputs : CCoinsViewCache) (flags : Z) (i : nat) (txin : CTxIn)
  : option (option (bool * CValidationState)) :=
  coin ← AccessCoin inputs (prevout txin);
  if negb (VerifyScript tx i coin flags) then
    if has_flag flags STANDARD_NOT_MANDATORY_VERIFY_FLAGS
       && VerifyScript tx i coin
            (Z.land flags (Z.lnot STANDARD_NOT_MANDATORY_VERIFY_FLAGS))
    then Some (Some (Invalid state false REJECT_NONSTANDARD
                             ("non-mandatory-script-verify-flag ("
                                +:+ ScriptErrorString tx i coin flags +:+ ")") ""))
    else Some (Some (DoS state 100 false REJECT_INVALID
                         ("mandatory-script-verify-flag-failed ("
                            +:+ ScriptErrorString tx i coin flags +:+ ")") false ""))
  else Some None.

Fixpoint check_scripts_loop (tx : CTransaction) (state : CValidationState)
         (inputs : CCoinsViewCache) (flags : Z) (pvChecks : bool)
         (i : nat) (ins : list CTxIn) : option (bool * CValidationState) :=
  match ins with
  | [] => Some (true, state)
  | txin :: rest =>
      if pvChecks then
        (* the check is queued for the caller, not run *)
        _ ← AccessCoin inputs (prevout txin);
        check_scripts_loop tx state inputs flags pvChecks (S i) rest
      else
        match check_input_script tx state inputs flags i txin with
        | None => None
        | Some (Some res) => Some res
        | Some None => check_scripts_loop tx state inputs flags pvChecks (S i) rest
        end
  end.

(** [CheckInputs]; [pvChecks] tells whether the vector pointer is
    non-null (the checks are then handed to the caller). *)
Definition CheckInputs (tx : CTransaction) (state : CValidationState)
           (inputs : CCoinsViewCache) (fScriptChecks : bool) (flags : Z)
           (cacheStore : bool) (pvChecks : bool)
  : option (bool * CValidationState) :=
  if negb (IsCoinBase tx) then
    nSpendHeight ← GetSpendHeight inputs;
    res ← CheckTxInputs tx state inputs nSpendHeight;
    if negb res.1 then Some (false, res.2)
    else if fScriptChecks
         then check_scripts_loop tx state inputs flags pvChecks 0 (vin tx)
         else Some (true, state)
  else Some (true, state).
End InputChecks.

(** ** Effects that leave the validation core

    Log lines, requests to peers and notifications are recorded as a
    trace, in the order the code issues them. *)
Inductive Event :=
| EvLog (msg : string)                 (* LogPrintf / LogPrint *)
| EvError (msg : string)               (* error(...): logs, yields false *)
| EvAskFor (stxHash : Z)               (* every peer is asked for the inventory *)
| EvProcessServiceCommand (stxHash : Z)
| EvTransactionAddedToMempool (txHash : Z).

(** ** Context-free block check *)

Record CBlockHeader := mkHeader {
  block_nVersion : Z;
  hashPrevBlock : Z;
  hashMerkleRoot : Z;
  block_nTime : Z;                    (* unsigned int *)
  nBits : Z;
  nNonce : Z
}.

(** [fChecked] is the memory-only flag that caches a successful check. *)
Record CBlock := mkBlock {
  header : CBlockHeader;
  vtx : list CTransaction;
  vchBlockSig : list Z;
  fChecked : bool
}.

Definition GetBlockTime (block : CBlock) : Z := block_nTime (header block).

Definition set_fChecked (block : CBlock) (b : bool) : CBlock :=
  mkBlock (header block) (vtx block) (vchBlockSig block) b.

(** Checks of other translation units that [CheckBlock] calls; they read
    the header, the transactions and the signature of the block. *)
Class BlockChecks := {
  IsProofOfWork : list CTransaction -> bool;
  IsProofOfStake : list CTransaction -> bool;
  CheckProofOfWork : CBlockHeader -> bool;
  (** [CheckBlockHeader(block, state, fCheckPOW)]: the rejection it
      records in [state] when it fails *)
  CheckBlockHeader : CBlockHeader -> bool -> option Rejection;
  (** [BlockMerkleRoot(block, &mutated)] *)
  BlockMerkleRoot : list CTransaction -> Z * bool;
  GetSerializeSize : CBlockHeader -> list CTransaction -> Z;
  (** [CScript::GetSigOpCount(false)] *)
  GetSigOpCount : list Z -> Z;
  (** [CTxOut::IsEmpty()] *)
  IsEmpty : CTxOut -> bool;
  CheckBlockSignature : CBlockHeader -> list CTransaction -> list Z -> bool
}.

(** The service-transaction side channel: the service mempool
    [g_stxmempool] and the checks of the service layer. *)
Record ServiceChannel := mkService {
  CServiceTransaction : Type;
  stx_lookup : Z -> option CServiceTransaction;
  CheckServiceTransaction :
    CServiceTransaction -> CTransaction -> CValidationState -> bool * CValidationState;
  ProcessServiceCommand :
    CServiceTransaction -> CTransaction -> CValidationState ->
    CBlockHeader -> list CTransaction -> CValidationState
}.

Record CheckBlockResult := mkCheckBlockResult {
  cb_result : bool;
  cb_state : CValidationState;
  cb_block : CBlock;
  cb_events : list Event
}.

Section BlockCheck.
Context `{Consensus} `{BlockChecks}.

Definition GetLegacySigOpCount (tx : CTransaction) : Z :=
  let nSigOps :=
    fold_left (fun n txin => uint32 (n + GetSigOpCount (scriptSig txin))) (vin tx) 0 in
  fold_left (fun n txout => uint32 (n + GetSigOpCount (scriptPubKey txout)))
            (vout tx) nSigOps.

(** The branch of the transaction loop for [tx->nVersion == 2]: the
    state and the trace it leaves.  No path through it returns from
    [CheckBlock]. *)
Definition check_service_reference (S : ServiceChannel) (block : CBlock)
           (tx : CTransaction) (state : CValidationState) (events : list Event)
  : CValidationState * list Event :=
  match stx_lookup S (serviceReferenceHash tx) with
  | None =>
      (state,
       events ++ [EvLog "tx pays for service transaction but none can be found";
                  EvLog "Requesting stx";
                  EvAskFor (serviceReferenceHash tx)])
  | Some stx =>
      let '(ok, state') := CheckServiceTransaction S stx tx state in
      if negb ok then
        (state',
         events ++ [EvLog "CheckBlock(): CheckServiceTransaction failed. This is a non fatal error"])
      else
        (ProcessServiceCommand S stx tx state' (header block) (vtx block),
         events ++ [EvProcessServiceCommand (serviceReferenceHash tx)])
  end.

(** The loop "Check transactions": [inl] is the value returned from
    inside the loop, [inr] the state and trace after the last
    transaction. *)
Fixpoint check_block_transactions (S : ServiceChannel) (block : CBlock)
         (txs : list CTransaction) (state : CValidationState) (events : list Event)
  : (bool * CValidationState * list Event) + (CValidationState * list Event) :=
  match txs with
  | [] => inr (state, events)
  | tx :: rest =>
      match CheckTransaction tx with
      | Some r =>
          let state1 := (reject_with state r).2 in
          let res := Invalid state1 false (chRejectCode state1) (strRejectReason state1)
                       ("Transaction check failed " +:+ strDebugMessage state1) in
          inl (res.1, res.2, events)
      | None =>
          let '(state2, events2) :=
            if nVersion tx =? 2
            then check_service_reference S block tx state events
            else (state, events) in
          if GetBlockTime block <? nTime tx then
            let res := DoS state2 50 false REJECT_NONE "" false "" in
            inl (res.1, res.2,
                 events2 ++ [EvError "CheckBlock() : block timestamp earlier than transaction timestamp"])
          else check_block_transactions S block rest state2 events2
      end
  end.

Definition block_sigops (txs : list CTransaction) : Z :=
  fold_left (fun n tx => uint32 (n + GetLegacySigOpCount tx)) txs 0.

Definition rejected (block : CBlock) (res : bool * CValidationState)
           (events : list Event) : CheckBlockResult :=
  mkCheckBlockResult res.1 res.2 block events.

Definition CheckBlock (S : ServiceChannel) (block : CBlock)
           (state : CValidationState) (fCheckPOW fCheckMerkleRoot : bool)
  : CheckBlockResult :=
  if fChecked block then mkCheckBlockResult true state block []
  else if IsProofOfWork (vtx block) && fCheckPOW
          && negb (CheckProofOfWork (header block)) then
    rejected block (DoS state 50 false REJECT_INVALID "high-hash" false "")
             [EvError "CheckBlockHeader(): proof of work failed"]
  else match CheckBlockHeader (header block) fCheckPOW with
  | Some r => rejected block (false, (reject_with state r).2) []
  | None =>
  if fCheckMerkleRoot
     && negb (hashMerkleRoot (header block) =? (BlockMerkleRoot (vtx block)).1) then
    rejected block (DoS state 100 false REJECT_INVALID "bad-txnmrklroot" true "")
             [EvError "CheckBlock(): hashMerkleRoot mismatch"]
  else if fCheckMerkleRoot && (BlockMerkleRoot (vtx block)).2 then
    rejected block (DoS state 100 false REJECT_INVALID "bad-txns-duplicate" true "")
             [EvError "CheckBlock(): duplicate transaction"]
  else if bool_decide (vtx block = [])
          || (MAX_BLOCK_SIZE <? Z.of_nat (length (vtx block)))
          || (MAX_BLOCK_SIZE <? GetSerializeSize (header block) (vtx block)) then
    rejected block (DoS state 100 false REJECT_INVALID "bad-blk-length" false "")
             [EvError "CheckBlock(): size limits failed"]
  else if match vtx block with
          | [] => true
          | tx0 :: _ => negb (IsCoinBase tx0)
          end then
    rejected block (DoS state 100 false REJECT_INVALID "bad-cb-missing" false "")
             [EvError "CheckBlock(): first tx is not coinbase"]
  else if existsb IsCoinBase (drop 1 (vtx block)) then
    rejected block (DoS state 100 false REJECT_INVALID "bad-cb-multiple" false "")
             [EvError "CheckBlock(): more than one coinbase"]
  else if existsb IsCoinStake (drop 2 (vtx block)) then
    rejected block (DoS state 100 false REJECT_NONE "" false "")
             [EvError "CheckBlock() : coinstake in wrong position"]
  else if IsProofOfStake (vtx block)
          && match vtx block with
             | tx0 :: _ =>
                 match vout tx0 with
                 | [out0] => negb (IsEmpty out0)
                 | _ => true
                 end
             | [] => true
             end then
    rejected block (DoS state 0 false REJECT_NONE "" false "")
             [EvError "CheckBlock() : coinbase output not empty for proof-of-stake block"]
  else match check_block_transactions S block (vtx block) state [] with
  | inl (ret, state', events) => mkCheckBlockResult ret state' block events
  | inr (state', events) =>
  if MAX_BLOCK_SIGOPS <? block_sigops (vtx block) then
    rejected block (DoS state' 100 false REJECT_INVALID "bad-blk-sigops" false "")
             (events ++ [EvError "CheckBlock(): out-of-bounds SigOpCount"])
  else if negb (CheckBlockSignature (header block) (vtx block) (vchBlockSig block)) then
    rejected block (DoS state' 100 false REJECT_INVALID "bad-block-sig" false "")
             (events ++ [EvError "CheckBlock() : bad block signature"])
  else
    mkCheckBlockResult true state'
      (if fCheckPOW && fCheckMerkleRoot then set_fChecked block true else block)
      events
  end end.

(** What the transaction loop decides: the value returned from inside
    the loop, if any. *)
Definition loop_verdict
           (r : (bool * CValidationState * list Event) + (CValidationState * list Event))
  : option bool :=
  match r with
  | inl (ret, _, _) => Some ret
  | inr _ => None
  end.

(** The trace the transaction loop has left, whether it returned from
    inside or ended. *)
Definition loop_events
           (r : (bool * CValidationState * list Event) + (CValidationState * list Event))
  : list Event :=
  match r with
  | inl (_, _, events) => events
  | inr (_, events) => events
  end.

(** The conclusion of the coinbase rule for the transactions of a block. *)
Definition coinbase_shape (txs : list CTransaction) : Prop :=
  (exists tx0, txs !! 0%nat = Some tx0 /\ IsCoinBase tx0 = true)
  /\ (forall i tx, (1 <= i)%nat -> txs !! i = Some tx -> IsCoinBase tx = false)
  /\ (forall i tx, (2 <= i)%nat -> txs !! i = Some tx -> IsCoinStake tx = false).

(** The checks of [CheckBlock] that come before the coinbase rule:
    proof of work, header, merkle root, and size limits all pass. *)
Definition reaches_coinbase_rule (block : CBlock)
           (fCheckPOW fCheckMerkleRoot : bool) : bool :=
  negb (fChecked block)
  && negb (IsProofOfWork (vtx block) && fCheckPOW
           && negb (CheckProofOfWork (header block)))
  && bool_decide (CheckBlockHeader (header block) fCheckPOW = None)
  && negb (fCheckMerkleRoot
           && negb (hashMerkleRoot (header block) =? (BlockMerkleRoot (vtx block)).1))
  && negb (fCheckMerkleRoot && (BlockMerkleRoot (vtx block)).2)
  && negb (bool_decide (vtx block = [])
           || (MAX_BLOCK_SIZE <? Z.of_nat (length (vtx block)))
           || (MAX_BLOCK_SIZE <? GetSerializeSize (header block) (vtx block))).

(** The checks of [CheckBlock] that come before the loop over the
    transactions all pass: those before the coinbase rule, the coinbase
    rule, the position of a coinstake and the empty coinbase output of
    a proof-of-stake block. *)
Definition reaches_transaction_loop (block : CBlock)
           (fCheckPOW fCheckMerkleRoot : bool) : bool :=
  reaches_coinbase_rule block fCheckPOW fCheckMerkleRoot
  && negb match vtx block with
          | [] => true
          | tx0 :: _ => negb (IsCoinBase tx0)
          end
  && negb (existsb IsCoinBase (drop 1 (vtx block)))
  && negb (existsb IsCoinStake (drop 2 (vtx block)))
  && negb (IsProofOfStake (vtx block)
           && match vtx block with
              | tx0 :: _ =>
                  match vout tx0 with
                  | [out0] => negb (IsEmpty out0)
                  | _ => true
                  end
              | [] => true
              end).

(** The cached flag is sound when it is set only on a block that
    passes the full check; [CheckBlock] sets it nowhere else. *)
Definition fChecked_sound (block : CBlock) : Prop :=
  fChecked block = true ->
  forall S state,
    cb_result (CheckBlock S (set_fChecked block false) state true true) = true.
End BlockCheck.

(** ** Flushing the chain state to disk *)

Inductive FlushStateMode :=
| FLUSH_STATE_NONE
| FLUSH_STATE_IF_NEEDED
| FLUSH_STATE_PERIODIC
| FLUSH_STATE_ALWAYS.

Definition FlushStateMode_eqb (a b : FlushStateMode) : bool :=
  match a, b with
  | FLUSH_STATE_NONE, FLUSH_STATE_NONE
  | FLUSH_STATE_IF_NEEDED, FLUSH_STATE_IF_NEEDED
  | FLUSH_STATE_PERIODIC, FLUSH_STATE_PERIODIC
  | FLUSH_STATE_ALWAYS, FLUSH_STATE_ALWAYS => true
  | _, _ => false
  end.

(** How a call into the storage layer ends: it returns true, returns
    false, or throws a [std::runtime_error]. *)
Inductive IoOutcome := IoOk | IoFailed | IoThrows (what : string).

(** The globals and function-local statics of [FlushStateToDisk]. *)
Record FlushGlobals := mkFlushGlobals {
  nLastWrite : Z;
  nLastFlush : Z;
  nLastSetChain : Z;
  setDirtyBlockIndex : gset Z;
  setDirtyFileInfo : gset Z;
  nLastBlockFile : Z;
  nCoinCacheUsage : Z
}.

(** What the clock, the coin cache and the storage layer answer during
    one call. *)
Class FlushEnv := {
  DATABASE_WRITE_INTERVAL : Z;
  DATABASE_FLUSH_INTERVAL : Z;
  GetTimeMicros : Z;
  (** [pcoinsTip->DynamicMemoryUsage()], [pcoinsTip->GetCacheSize()] *)
  DynamicMemoryUsage : Z;
  GetCacheSize : Z;
  (** the test [cacheSize * (10.0 / 9) > nCoinCacheUsage], which the
      source computes in double precision *)
  projected_over : Z -> Z -> bool;
  (** the test of [CheckDiskSpace(nAdditionalBytes)], whether the free
      space covers [nMinDiskSpace] and the bytes asked for; what the
      function does when it does not is [out_of_disk_space] below *)
  CheckDiskSpace : Z -> IoOutcome;
  (** [pblocktree->WriteBatchSync(vFiles, nLastBlockFile, vBlocks)] *)
  WriteBatchSync : list Z -> Z -> list Z -> IoOutcome;
  (** [pcoinsTip->Flush()] *)
  CoinsFlush : IoOutcome
}.

Inductive FlushEvent :=
| EvFlushBlockFile
| EvWriteBatchSync (vFiles : list Z) (nLastBlockFile : Z) (vBlocks : list Z) (ok : bool)
| EvCoinsFlush (ok : bool)
| EvSetBestChain
| EvAbortNode (strMessage : string).

Record FlushResult := mkFlushResult {
  fl_result : bool;
  fl_state : CValidationState;
  fl_globals : FlushGlobals;
  fl_events : list FlushEvent
}.

Section Flush.
Context `{FlushEnv}.

(** [AbortNode(state, strMessage)]: [AbortNode(strMessage, ...)] sets
    the warning, shows the message and starts the shutdown, which the
    trace records as [EvAbortNode strMessage], and the state records
    the error. *)
Definition AbortNode (state : CValidationState) (g : FlushGlobals)
           (events : list FlushEvent) (strMessage : string) : FlushResult :=
  mkFlushResult (Error state strMessage).1 (Error state strMessage).2 g
                (events ++ [EvAbortNode strMessage]).

Definition system_error (state : CValidationState) (g : FlushGlobals)
           (events : list FlushEvent) (what : string) : FlushResult :=
  AbortNode state g events ("System error while flushing: " +:+ what).

(** A failed [CheckDiskSpace]: the function itself aborts the node
    with [AbortNode("Disk space is low!", ...)], which sets the
    warning, shows the message and starts the shutdown, and returns
    false; [FlushStateToDisk] then returns
    [state.Error("out of disk space")]. *)
Definition out_of_disk_space (state : CValidationState) (g : FlushGlobals)
           (events : list FlushEvent) : FlushResult :=
  mkFlushResult (Error state "out of disk space").1
                (Error state "out of disk space").2 g
                (events ++ [EvAbortNode "Disk space is low!"]).

(** The four conditions of the source, over the statics as the first
    lines of the function leave them. *)
Definition fCacheLarge (g : FlushGlobals) (mode : FlushStateMode) : bool :=
  FlushStateMode_eqb mode FLUSH_STATE_PERIODIC
  && projected_over DynamicMemoryUsage (nCoinCacheUsage g).

Definition fCacheCritical (g : FlushGlobals) (mode : FlushStateMode) : bool :=
  FlushStateMode_eqb mode FLUSH_STATE_IF_NEEDED
  && (nCoinCacheUsage g <? DynamicMemoryUsage).

Definition fPeriodicWrite (g : FlushGlobals) (mode : FlushStateMode) : bool :=
  FlushStateMode_eqb mode FLUSH_STATE_PERIODIC
  && (int64 (nLastWrite g + int64 (DATABASE_WRITE_INTERVAL * 1000000)) <? GetTimeMicros).

Definition fPeriodicFlush (g : FlushGlobals) (mode : FlushStateMode) : bool :=
  FlushStateMode_eqb mode FLUSH_STATE_PERIODIC
  && (int64 (nLastFlush g + int64 (DATABASE_FLUSH_INTERVAL * 1000000)) <? GetTimeMicros).

Definition fDoFullFlush (g : FlushGlobals) (mode : FlushStateMode) : bool :=
  FlushStateMode_eqb mode FLUSH_STATE_ALWAYS
  || fCacheLarge g mode || fCacheCritical g mode || fPeriodicFlush g mode.

(** "Avoid writing/flushing immediately after startup." *)
Definition init_statics (g : FlushGlobals) : FlushGlobals :=
  let nNow := GetTimeMicros in
  mkFlushGlobals (if nLastWrite g =? 0 then nNow else nLastWrite g)
                 (if nLastFlush g =? 0 then nNow else nLastFlush g)
                 (if nLastSetChain g =? 0 then nNow else nLastSetChain g)
                 (setDirtyBlockIndex g) (setDirtyFileInfo g)
                 (nLastBlockFile g) (nCoinCacheUsage g).

(** "Update best block in wallet", the last step. *)
Definition set_best_chain (state : CValidationState) (g : FlushGlobals)
           (events : list FlushEvent) (mode : FlushStateMode) (full : bool)
  : FlushResult :=
  let nNow := GetTimeMicros in
  if full
     || ((FlushStateMode_eqb mode FLUSH_STATE_ALWAYS
          || FlushStateMode_eqb mode FLUSH_STATE_PERIODIC)
         && (int64 (nLastSetChain g + int64 (DATABASE_WRITE_INTERVAL * 1000000)) <? nNow))
  then mkFlushResult true state
         (mkFlushGlobals (nLastWrite g) (nLastFlush g) nNow
                         (setDirtyBlockIndex g) (setDirtyFileInfo g)
                         (nLastBlockFile g) (nCoinCacheUsage g))
         (events ++ [EvSetBestChain])
  else mkFlushResult true state g events.

(** "Flush best chain related state." *)
Definition flush_chainstate (state : CValidationState) (g : FlushGlobals)
           (events : list FlushEvent) (mode : FlushStateMode) (full : bool)
  : FlushResult :=
  let nNow := GetTimeMicros in
  if full then
    match CheckDiskSpace (128 * 2 * 2 * GetCacheSize) with
    | IoThrows what => system_error state g events what
    | IoFailed => out_of_disk_space state g events
    | IoOk =>
        match CoinsFlush with
        | IoThrows what => system_error state g events what
        | IoFailed =>
            AbortNode state g (events ++ [EvCoinsFlush false])
                      "Failed to write to coin database"
        | IoOk =>
            set_best_chain state
              (mkFlushGlobals (nLastWrite g) nNow (nLastSetChain g)
                              (setDirtyBlockIndex g) (setDirtyFileInfo g)
                              (nLastBlockFile g) (nCoinCacheUsage g))
              (events ++ [EvCoinsFlush true]) mode full
        end
    end
  else set_best_chain state g events mode full.

(** [FlushStateToDisk(state, mode)]. *)
Definition FlushStateToDisk (g0 : FlushGlobals) (state : CValidationState)
           (mode : FlushStateMode) : FlushResult :=
  let nNow := GetTimeMicros in
  let g := init_statics g0 in
  let full := fDoFullFlush g mode in
  if full || fPeriodicWrite g mode then
    match CheckDiskSpace 0 with
    | IoThrows what => system_error state g [] what
    | IoFailed => out_of_disk_space state g []
    | IoOk =>
        let vFiles := elements (setDirtyFileInfo g) in
        let vBlocks := elements (setDirtyBlockIndex g) in
        let g1 := mkFlushGlobals (nLastWrite g) (nLastFlush g) (nLastSetChain g)
                                 ∅ ∅ (nLastBlockFile g) (nCoinCacheUsage g) in
        match WriteBatchSync vFiles (nLastBlockFile g) vBlocks with
        | IoThrows what => system_error state g1 [EvFlushBlockFile] what
        | IoFailed =>
            AbortNode state g1
              [EvFlushBlockFile; EvWriteBatchSync vFiles (nLastBlockFile g) vBlocks false]
              "Files to write to block index database"
        | IoOk =>
            flush_chainstate state
              (mkFlushGlobals nNow (nLastFlush g1) (nLastSetChain g1)
                              ∅ ∅ (nLastBlockFile g1) (nCoinCacheUsage g1))
              [EvFlushBlockFile; EvWriteBatchSync vFiles (nLastBlockFile g) vBlocks true]
              mode full
        end
    end
  else flush_chainstate state g [] mode full.

(** The UTXO cache reached the persistent store during the call. *)
Definition cache_flushed (r : FlushResult) : Prop :=
  EvCoinsFlush true ∈ fl_events r.


Definition node_aborted (r : FlushResult) : Prop :=
  exists msg, EvAbortNode msg ∈ fl_events r.



End Flush.

(** ** The memory pool and the coin views of admission

    [txmempool.cpp] and [coins.cpp] are not among the sources; the
    definitions of this section follow the specification. *)

(** Modelled from the spec: the mempool, "an in-memory index of
    not-yet-confirmed, mutually valid transactions"; [mapNextTx] maps an
    outpoint to the pool transaction that spends it. *)
Record CTxMemPool := mkPool {
  mapTx : gmap Z CTransaction;
  mapNextTx : gmap COutPoint Z
}.

(** Modelled from the spec: [pool.exists(hash)]. *)
Definition pool_exists (pool : CTxMemPool) (hash : Z) : bool :=
  bool_decide (is_Some (mapTx pool !! hash)).

(** Modelled from the spec: the output of a pool transaction that an
    outpoint names, if any. *)
Definition pool_output (pool : CTxMemPool) (o : COutPoint) : option CTxOut :=
  ptx ← mapTx pool !! o.1; vout ptx !! Z.to_nat o.2.

(** Modelled from the spec: the coin view is "an overlay/cache
    abstraction over a persistent UTXO set".  [pcoinsTip] is the
    persistent store [tip_base] under a cache; a cache entry holds the
    coin, or nothing once the coin is spent, and whether it differs from
    the store. *)
Record CacheEntry := mkEntry {
  entry_coin : option Coin;
  entry_dirty : bool
}.

Record CoinsTip := mkTip {
  tip_base : gmap COutPoint Coin;
  tip_cache : gmap COutPoint CacheEntry;
  tip_hashBlock : Z
}.

(** Modelled from the spec: the unspent output the view holds for an
    outpoint, that is the UTXO set that the cache and the store
    represent together. *)
Definition tip_utxo (tip : CoinsTip) (o : COutPoint) : option Coin :=
  match tip_cache tip !! o with
  | Some e => entry_coin e
  | None => tip_base tip !! o
  end.

(** Modelled from the spec: [HaveCoinInCache], an unspent coin that is
    resident in the cache. *)
Definition tip_HaveCoinInCache (tip : CoinsTip) (o : COutPoint) : bool :=
  match tip_cache tip !! o with
  | Some e => bool_decide (is_Some (entry_coin e))
  | None => false
  end.

(** Modelled from the spec: [GetCoin(outpoint) -> Coin?] on
    [pcoinsTip]; a coin found in the store is pulled into the cache. *)
Definition tip_GetCoin (tip : CoinsTip) (o : COutPoint) : option Coin * CoinsTip :=
  match tip_cache tip !! o with
  | Some e => (entry_coin e, tip)
  | None =>
      match tip_base tip !! o with
      | Some c =>
          (Some c,
           mkTip (tip_base tip) (<[o := mkEntry (Some c) false]> (tip_cache tip))
                 (tip_hashBlock tip))
      | None => (None, tip)
      end
  end.

(** Modelled from the spec: [Uncache], which drops a cache entry that
    does not differ from the store. *)
Definition tip_Uncache (tip : CoinsTip) (o : COutPoint) : CoinsTip :=
  match tip_cache tip !! o with
  | Some e =>
      if entry_dirty e then tip
      else mkTip (tip_base tip) (delete o (tip_cache tip)) (tip_hashBlock tip)
  | None => tip
  end.

(** Modelled from the spec: [CCoinsViewMemPool::GetCoin], "the
    persistent UTXO store composed with in-pool outputs": the outputs
    of pool transactions, at [MEMPOOL_HEIGHT], over the coins of
    [pcoinsTip]. *)
Definition mempool_GetCoin `{Consensus} (pool : CTxMemPool) (tip : CoinsTip)
           (o : COutPoint) : option Coin * CoinsTip :=
  match mapTx pool !! o.1 with
  | Some ptx =>
      match vout ptx !! Z.to_nat o.2 with
      | Some out => (Some (mkCoin out MEMPOOL_HEIGHT false), tip)
      | None => (None, tip)
      end
  | None => tip_GetCoin tip o
  end.

(** Modelled from the spec: the lookup of the local [view] of
    admission while its backend is the mempool view; a coin found below
    is kept in the local cache. *)
Definition view_FetchCoin `{Consensus} (pool : CTxMemPool) (tip : CoinsTip)
           (view : CCoinsViewCache) (o : COutPoint)
  : option Coin * CoinsTip * CCoinsViewCache :=
  match cacheCoins view !! o with
  | Some c => (Some c, tip, view)
  | None =>
      match mempool_GetCoin pool tip o with
      | (Some c, tip') =>
          (Some c, tip', mkView (<[o := c]> (cacheCoins view)) (hashBlock view))
      | (None, tip') => (None, tip', view)
      end
  end.

(** Modelled from the spec: [LockPoints], "derived minimum height,
    derived minimum time, and the highest-height ancestor block any
    relative lock depended on". *)
Record LockPoints := mkLockPoints {
  lp_height : Z;
  lp_time : Z;
  maxInputBlock : option CBlockIndex
}.

(** ** Policy and relay state around admission

    Settings, clocks and functions of the policy and mempool units that
    [AcceptToMemoryPoolWorker] consults.  [RelayState] stands for the
    double-precision statics of the free-transaction limiter and for
    [minRelayTxFee]. *)
Class Policy := {
  RelayState : Type;
  fRequireStandard : bool;
  (** [IsStandardTx(tx, reason)]: the reason when it fails *)
  IsStandardTx : CTransaction -> option string;
  GetAdjustedTime : Z;
  GetTime : Z;
  STANDARD_LOCKTIME_VERIFY_FLAGS : Z;
  AreInputsStandard : CTransaction -> CCoinsViewCache -> bool;
  IsPayToScriptHash : list Z -> bool;
  (** [scriptPubKey.GetSigOpCount(scriptSig)] *)
  GetP2SHSigOps : list Z -> list Z -> Z;
  MAX_STANDARD_TX_SIGOPS : Z;
  nBytesPerSigOp : Z;
  (** [entry.GetTxSize()] *)
  GetTxSize : CTransaction -> Z;
  (** [view.GetValueIn(tx)] over the coins the view holds *)
  GetValueIn : CCoinsViewCache -> CTransaction -> Z;
  (** [pool.ApplyDeltas]: the fee after prioritisation deltas *)
  ApplyDeltas : CTxMemPool -> Z -> Z -> Z;
  (** [pool.GetMinFee(maxmempool).GetFee(nSize)] *)
  mempoolRejectFee : CTxMemPool -> Z -> Z;
  relaypriority : bool;
  (** [::minRelayTxFee.GetFee(nSize)] *)
  minRelayTxFee_GetFee : RelayState -> Z -> Z;
  (** [AllowFree(entry.GetPriority(height + 1))] *)
  AllowFree : CTransaction -> CCoinsViewCache -> bool;
  GetTotalTxSize : CTxMemPool -> Z;
  (** the recomputation of [feeCutoff], [nFreeLimit] and [minRelayTxFee]
      from the pool size and the clock, in double precision *)
  relay_update : RelayState -> Z -> Z -> RelayState;
  (** the decaying counter [dFreeCount]: whether the limit is reached,
      and the statics after the decay and, when the transaction is let
      through, after it is counted *)
  free_rate_limit : RelayState -> Z -> Z -> bool * RelayState;
  (** [pool._CalculateMemPoolAncestors]: [errString] when a limit is hit *)
  CalculateMemPoolAncestors : CTxMemPool -> CTransaction -> option string;
  maxmempool : Z;
  mempoolexpiry : Z;
  (** [pool.Expire(time, vCoinsToUncache)] with the number of expired
      transactions, [pool.TrimToSize(limit, &v)] *)
  pool_Expire : CTxMemPool -> Z -> CTxMemPool * list COutPoint * Z;
  pool_TrimToSize : CTxMemPool -> Z -> CTxMemPool * list COutPoint
}.

(** ** Mempool admission *)

Section Admission.
Context `{Consensus} `{Node} `{BlockChecks} `{Policy}.

(** What [AcceptToMemoryPoolWorker] reads and writes besides its
    value: the validation state, the pool, [pcoinsTip], the flag
    behind [pfMissingInputs] (nothing for a null pointer),
    [vCoinsToUncache], the relay statics and the trace. *)
Record World := mkWorld {
  w_state : CValidationState;
  w_pool : CTxMemPool;
  w_tip : CoinsTip;
  w_missing : option bool;
  w_uncache : list COutPoint;
  w_relay : RelayState;
  w_events : list Event
}.

Definition set_state (w : World) (st : CValidationState) : World :=
  mkWorld st (w_pool w) (w_tip w) (w_missing w) (w_uncache w) (w_relay w) (w_events w).
Definition set_pool (w : World) (pool : CTxMemPool) : World :=
  mkWorld (w_state w) pool (w_tip w) (w_missing w) (w_uncache w) (w_relay w) (w_events w).
Definition set_tip (w : World) (tip : CoinsTip) : World :=
  mkWorld (w_state w) (w_pool w) tip (w_missing w) (w_uncache w) (w_relay w) (w_events w).
Definition set_missing (w : World) (m : option bool) : World :=
  mkWorld (w_state w) (w_pool w) (w_tip w) m (w_uncache w) (w_relay w) (w_events w).
Definition push_uncache (w : World) (o : COutPoint) : World :=
  mkWorld (w_state w) (w_pool w) (w_tip w) (w_missing w) (w_uncache w ++ [o])
          (w_relay w) (w_events w).
Definition set_relay (w : World) (r : RelayState) : World :=
  mkWorld (w_state w) (w_pool w) (w_tip w) (w_missing w) (w_uncache w) r (w_events w).
Definition set_uncache_empty (w : World) : World :=
  mkWorld (w_state w) (w_pool w) (w_tip w) (w_missing w) [] (w_relay w) (w_events w).
Definition emit (w : World) (e : Event) : World :=
  mkWorld (w_state w) (w_pool w) (w_tip w) (w_missing w) (w_uncache w) (w_relay w)
          (w_events w ++ [e]).

(** A step of the function: it does not return to the caller of the
    node ([None]: failed assertion or null pointer), or it returns
    from [AcceptToMemoryPoolWorker] with a value ([inl]), or it goes
    on with a result ([inr]). *)
Definition Adm (A : Type) : Type := World -> option ((bool + A) * World).

Definition adm_ret {A} (a : A) : Adm A := fun w => Some (inr a, w).

Definition adm_bind {A B} (m : Adm A) (k : A -> Adm B) : Adm B :=
  fun w =>
    match m w with
    | None => None
    | Some (inl b, w') => Some (inl b, w')
    | Some (inr a, w') => k a w'
    end.

Definition adm_return {A} (b : bool) : Adm A := fun w => Some (inl b, w).

(** [return state.DoS(...)] and the like. *)
Definition adm_reject {A} (f : CValidationState -> bool * CValidationState) : Adm A :=
  fun w => Some (inl (f (w_state w)).1, set_state w (f (w_state w)).2).

Definition adm_crash {A} : Adm A := fun _ => None.

Definition adm_get : Adm World := fun w => Some (inr w, w).
Definition adm_modify (f : World -> World) : Adm unit := fun w => Some (inr tt, f w).
Definition adm_state {A} (f : World -> A * World) : Adm A :=
  fun w => Some (inr (f w).1, (f w).2).
Definition adm_when (c : bool) (m : Adm unit) : Adm unit :=
  if c then m else adm_ret tt.

Notation "x <- m ;; k" := (adm_bind m (fun x => k))
  (at level 100, m at next level, right associativity).
Notation "m ;;; k" := (adm_bind m (fun _ => k))
  (at level 100, right associativity).

(** Modelled from the spec: [chainActive.Height()], the height of the
    tip, -1 on an empty chain. *)
Definition chainActive_Height : Z :=
  match chainActive_Tip with
  | Some tip => nHeight tip
  | None => -1
  end.

(** [CheckFinalTx]: finality for the next block, at the height of the
    tip plus one and at the tip's median time past or the adjusted
    clock.  [None]: the null tip of an empty chain is dereferenced. *)
Definition CheckFinalTx (tx : CTransaction) (flags : Z) : option bool :=
  let flags := Z.max flags 0 in
  let nBlockHeight := int32 (chainActive_Height + 1) in
  if has_flag flags LOCKTIME_MEDIAN_TIME_PAST then
    tip ← chainActive_Tip;
    Some (IsFinalTx tx nBlockHeight (GetMedianTimePast tip))
  else Some (IsFinalTx tx nBlockHeight GetAdjustedTime).

(** The loop of [CheckSequenceLocks] that collects the heights of the
    input coins; no list at the first missing input, where the function
    returns. *)
Fixpoint collect_prevheights (pool : CTxMemPool) (tip : CoinsTip)
         (tipHeight : Z) (ins : list CTxIn)
  : CoinsTip * option (list Z) :=
  match ins with
  | [] => (tip, Some [])
  | txin :: rest =>
      match mempool_GetCoin pool tip (prevout txin) with
      | (None, tip') => (tip', None)
      | (Some coin, tip') =>
          let h := if coin_nHeight coin =? MEMPOOL_HEIGHT
                   then int32 (tipHeight + 1) else coin_nHeight coin in
          match collect_prevheights pool tip' tipHeight rest with
          | (tip'', Some hs) => (tip'', Some (h :: hs))
          | (tip'', None) => (tip'', None)
          end
      end
  end.

(** [CheckSequenceLocks(tx, flags, lp, useExistingLockPoints)]; the
    global [mempool] it reads is the pool of the world. *)
Definition CheckSequenceLocks (tx : CTransaction) (flags : Z)
           (lp : option LockPoints) (useExistingLockPoints : bool)
  : Adm (bool * option LockPoints) :=
  match chainActive_Tip with
  | None => adm_crash
  | Some tip =>
      let index := mkBlockIndex 0 (int32 (nHeight tip + 1)) (Some tip) in
      if useExistingLockPoints then
        match lp with
        | None => adm_crash
        | Some l =>
            match EvaluateSequenceLocks index (lp_height l, lp_time l) with
            | None => adm_crash
            | Some b => adm_ret (b, lp)
            end
        end
      else
        w <- adm_get ;;
        match collect_prevheights (w_pool w) (w_tip w) (nHeight tip) (vin tx) with
        | (tip', None) =>
            adm_modify (fun w => emit (set_tip w tip')
                                      (EvError "CheckSequenceLocks: Missing input")) ;;;
            adm_ret (false, lp)
        | (tip', Some prevheights) =>
            adm_modify (fun w => set_tip w tip') ;;;
            match CalculateSequenceLocks tx flags prevheights index with
            | None => adm_crash
            | Some (lockPair, prevheights') =>
                let lp' :=
                  match lp with
                  | None => None
                  | Some _ =>
                      let maxInputHeight :=
                        fold_left (fun m height =>
                                     if negb (height =? int32 (nHeight tip + 1))
                                     then Z.max m height else m)
                                  prevheights' 0 in
                      Some (mkLockPoints lockPair.1 lockPair.2
                                         (GetAncestor tip maxInputHeight))
                  end in
                match EvaluateSequenceLocks index lockPair with
                | None => adm_crash
                | Some b => adm_ret (b, lp')
                end
            end
        end
  end.

(** [GetP2SHSigOpCount]. *)
Definition GetP2SHSigOpCount (tx : CTransaction) (inputs : CCoinsViewCache) : Z :=
  if IsCoinBase tx then 0
  else
    fold_left
      (fun n txin =>
         match AccessCoin inputs (prevout txin) with
         | Some coin =>
             if IsPayToScriptHash (scriptPubKey (coin_out coin))
             then uint32 (n + GetP2SHSigOps (scriptPubKey (coin_out coin)) (scriptSig txin))
             else n
         | None => n
         end)
      (vin tx) 0.

(** [LimitMempoolSize]. *)
Definition LimitMempoolSize (limit age : Z) : Adm unit :=
  w <- adm_get ;;
  let '(pool1, vCoinsToUncache, expired) := pool_Expire (w_pool w) (GetTime - age) in
  let tip1 := fold_left tip_Uncache vCoinsToUncache (w_tip w) in
  adm_when (negb (expired =? 0))
    (adm_modify (fun w => emit w (EvLog "Expired transactions from the memory pool"))) ;;;
  let '(pool2, vNoSpendsRemaining) := pool_TrimToSize pool1 limit in
  let tip2 := fold_left tip_Uncache vNoSpendsRemaining tip1 in
  adm_modify (fun w => set_tip (set_pool w pool2) tip2).

(** Modelled from the spec: [pool.addUnchecked], "Insert into pool";
    the inputs of the transaction become spent in [mapNextTx]. *)
Definition addUnchecked (pool : CTxMemPool) (hash : Z) (tx : CTransaction)
  : CTxMemPool :=
  mkPool (<[hash := tx]> (mapTx pool))
         (fold_left (fun m txin => <[prevout txin := hash]> m) (vin tx)
                    (mapNextTx pool)).

(** *** The stages of [AcceptToMemoryPoolWorker] *)

(** Lines 501-546: structural check, coinbase and coinstake,
    standardness, finality, presence in the pool, conflicts. *)
Definition admission_prechecks (tx : CTransaction) : Adm Z :=
  match CheckTransaction tx with
  | Some r => adm_reject (fun st => reject_with st r)
  | None =>
  adm_when (IsCoinBase tx || IsCoinStake tx)
    (adm_reject (fun st => DoS st 100 false REJECT_INVALID "coinbase" false "")) ;;;
  match (if fRequireStandard then IsStandardTx tx else None) with
  | Some reason =>
      adm_reject (fun st => DoS st 0 false REJECT_NONSTANDARD reason false "")
  | None =>
  match CheckFinalTx tx STANDARD_LOCKTIME_VERIFY_FLAGS with
  | None => adm_crash
  | Some final =>
  adm_when (negb final)
    (adm_reject (fun st => DoS st 0 false REJECT_NONSTANDARD "non-final" false "")) ;;;
  let hash := GetHash tx in
  w <- adm_get ;;
  adm_when (pool_exists (w_pool w) hash)
    (adm_reject (fun st => Invalid st false REJECT_ALREADY_KNOWN
                                   "txn-already-in-mempool" "")) ;;;
  adm_when (existsb (fun txin =>
                       bool_decide (is_Some (mapNextTx (w_pool w) !! prevout txin)))
                    (vin tx))
    (adm_reject (fun st => Invalid st false REJECT_CONFLICT "txn-mempool-conflict" "")) ;;;
  adm_ret hash
  end end end.

(** One turn of the loop "do all inputs exist?". *)
Definition note_input (view : CCoinsViewCache) (txin : CTxIn) (w : World)
  : CCoinsViewCache * World :=
  let w1 := if negb (tip_HaveCoinInCache (w_tip w) (prevout txin))
            then push_uncache w (prevout txin) else w in
  let '(found, tip', view') :=
    view_FetchCoin (w_pool w1) (w_tip w1) view (prevout txin) in
  let w2 := set_tip w1 tip' in
  (view', if found is None then set_missing w2 (Some true) else w2).

Fixpoint note_inputs (view : CCoinsViewCache) (ins : list CTxIn) (w : World)
  : CCoinsViewCache * World :=
  match ins with
  | [] => (view, w)
  | txin :: rest =>
      let '(view', w') := note_input view txin w in
      note_inputs view' rest w'
  end.

(** Lines 559-588: when the caller passed [pfMissingInputs], every
    input is looked up through the mempool view; a missing one sets
    the flag and the function returns false, the state untouched. *)
Definition admission_inputs_exist (tx : CTransaction) (view : CCoinsViewCache)
  : Adm CCoinsViewCache :=
  w <- adm_get ;;
  match w_missing w with
  | None => adm_ret view
  | Some _ =>
      view' <- adm_state (fun w => note_inputs view (vin tx)
                                               (set_missing w (Some false))) ;;
      w' <- adm_get ;;
      if w_missing w' is Some true then adm_return false else adm_ret view'
  end.

(** [view.GetValueIn(tx)] pulls the inputs through the backend. *)
Fixpoint fetch_inputs (view : CCoinsViewCache) (ins : list CTxIn) (w : World)
  : CCoinsViewCache * World :=
  match ins with
  | [] => (view, w)
  | txin :: rest =>
      let '(_, tip', view') :=
        view_FetchCoin (w_pool w) (w_tip w) view (prevout txin) in
      fetch_inputs view' rest (set_tip w tip')
  end.

(** Lines 590-764: best block and input value, sequence locks,
    standard inputs, signature operations, fee floor and priority,
    free-transaction limiter, absurd fees. *)
Definition admission_policy (tx : CTransaction) (hash : Z) (view0 : CCoinsViewCache)
           (fLimitFree fRejectAbsurdFee : bool)
  : Adm (CCoinsViewCache * LockPoints) :=
  view <- adm_state (fun w =>
            let view1 := mkView (cacheCoins view0) (tip_hashBlock (w_tip w)) in
            if IsCoinBase tx then (view1, w)
            else fetch_inputs view1 (vin tx) w) ;;
  let nValueIn := GetValueIn view tx in
  r <- CheckSequenceLocks tx STANDARD_LOCKTIME_VERIFY_FLAGS
         (Some (mkLockPoints 0 0 None)) false ;;
  adm_when (negb r.1)
    (adm_reject (fun st => DoS st 0 false REJECT_NONSTANDARD "non-BIP68-final"
                               false "")) ;;;
  adm_when (fRequireStandard && negb (AreInputsStandard tx view))
    (adm_reject (fun st => Invalid st false REJECT_NONSTANDARD
                                   "bad-txns-nonstandard-inputs" "")) ;;;
  let nSigOps := uint32 (GetLegacySigOpCount tx + GetP2SHSigOpCount tx view) in
  let nValueOut := GetValueOut tx in
  let nFees := int64 (nValueIn - nValueOut) in
  w2 <- adm_get ;;
  let nModifiedFees := ApplyDeltas (w_pool w2) hash nFees in
  let nSize := GetTxSize tx in
  adm_when ((MAX_STANDARD_TX_SIGOPS <? nSigOps)
            || (negb (nBytesPerSigOp =? 0) && (nSize / nBytesPerSigOp <? nSigOps)))
    (adm_reject (fun st => DoS st 0 false REJECT_NONSTANDARD
                               "bad-txns-too-many-sigops" false "")) ;;;
  let rejectFee := mempoolRejectFee (w_pool w2) nSize in
  adm_when ((0 <? rejectFee) && (nModifiedFees <? rejectFee))
    (adm_reject (fun st => DoS st 0 false REJECT_INSUFFICIENTFEE
                               "mempool min fee not met" false "")) ;;;
  adm_when (relaypriority
            && (nModifiedFees <? minRelayTxFee_GetFee (w_relay w2) nSize)
            && negb (AllowFree tx view))
    (adm_reject (fun st => DoS st 0 false REJECT_INSUFFICIENTFEE
                               "insufficient priority" false "")) ;;;
  adm_modify (fun w => emit (set_relay w (relay_update (w_relay w)
                                            (GetTotalTxSize (w_pool w)) GetTime))
                            (EvLog "MempoolBytes LimitFreeRelay FeeCutOff")) ;;;
  w3 <- adm_get ;;
  adm_when (fLimitFree && (nModifiedFees <? minRelayTxFee_GetFee (w_relay w3) nSize))
    (let '(limited, relay') := free_rate_limit (w_relay w3) GetTime nSize in
     if limited
     then adm_modify (fun w => set_relay w relay') ;;;
          adm_reject (fun st => DoS st 0 false REJECT_INSUFFICIENTFEE
                                    "rate limited free transaction" false "")
     else adm_modify (fun w => emit (set_relay w relay')
                                    (EvLog "Rate limit dFreeCount"))) ;;;
  w4 <- adm_get ;;
  adm_when (fRejectAbsurdFee && (nVersion tx =? 1)
            && (int64 (minRelayTxFee_GetFee (w_relay w4) nSize * 10000) <? nFees))
    (adm_modify (fun w => emit w (EvLog "Absurdly-high-fee for tx with version of 1")) ;;;
     adm_reject (fun st => Invalid st false REJECT_HIGHFEE "absurdly-high-fee" "")) ;;;
  adm_when (fRejectAbsurdFee && (nVersion tx =? 2) && (100000000 <? nFees))
    (adm_modify (fun w => emit w (EvLog "Absurdly-high-fee for tx with version of 2")) ;;;
     adm_reject (fun st => Invalid st false REJECT_HIGHFEE "absurdly-high-fee" "")) ;;;
  adm_ret (view, default (mkLockPoints 0 0 None) r.2).

(** One call [CheckInputs(tx, state, view, true, flags, true, nullptr)]
    on the state of the world. *)
Definition run_CheckInputs (tx : CTransaction) (view : CCoinsViewCache) (flags : Z)
  : Adm bool :=
  fun w =>
    match CheckInputs tx (w_state w) view true flags true false with
    | None => None
    | Some (ok, st') => Some (inr ok, set_state w st')
    end.

(** Lines 775-798: the inputs are checked under the standard flags
    and, when that passes, once more under the mandatory flags. *)
Definition admission_scripts (tx : CTransaction) (view : CCoinsViewCache) : Adm unit :=
  standard_ok <- run_CheckInputs tx view STANDARD_SCRIPT_VERIFY_FLAGS ;;
  if negb standard_ok then
    adm_modify (fun w => emit w (EvLog "CheckInputs failed for tx")) ;;;
    adm_return false
  else
    mandatory_ok <- run_CheckInputs tx view MANDATORY_SCRIPT_VERIFY_FLAGS ;;
    if negb mandatory_ok then
      adm_modify (fun w => emit w (EvError
        "BUG! PLEASE REPORT THIS! ConnectInputs failed against MANDATORY but not STANDARD flags")) ;;;
      adm_return false
    else adm_ret tt.

(** Lines 799-826: ancestor limits, insertion, trimming, signal. *)
Definition admission_insert (tx : CTransaction) (hash : Z)
           (fOverrideMempoolLimit : bool) : Adm Empty_set :=
  w <- adm_get ;;
  match CalculateMemPoolAncestors (w_pool w) tx with
  | Some errString =>
      adm_reject (fun st => DoS st 0 false REJECT_NONSTANDARD
                                "too-long-mempool-chain" false errString)
  | None =>
      adm_modify (fun w => set_pool w (addUnchecked (w_pool w) hash tx)) ;;;
      adm_when (negb fOverrideMempoolLimit)
        (LimitMempoolSize (maxmempool * 1000000) (mempoolexpiry * 60 * 60) ;;;
         w' <- adm_get ;;
         adm_when (negb (pool_exists (w_pool w') hash))
           (adm_reject (fun st => DoS st 0 false REJECT_INSUFFICIENTFEE
                                      "mempool full" false ""))) ;;;
      adm_modify (fun w => emit w (EvTransactionAddedToMempool hash)) ;;;
      adm_return true
  end.

(** Everything before the script checks: the hash of the transaction
    and the local view with the coins of its inputs. *)
Definition admission_before_scripts (tx : CTransaction)
           (fLimitFree fRejectAbsurdFee : bool) : Adm (Z * CCoinsViewCache) :=
  hash <- admission_prechecks tx ;;
  view <- admission_inputs_exist tx (mkView ∅ 0) ;;
  vl <- admission_policy tx hash view fLimitFree fRejectAbsurdFee ;;
  adm_ret (hash, vl.1).

Definition AcceptToMemoryPoolWorker_steps (tx : CTransaction)
           (fLimitFree fOverrideMempoolLimit fRejectAbsurdFee : bool) : Adm Empty_set :=
  hv <- admission_before_scripts tx fLimitFree fRejectAbsurdFee ;;
  admission_scripts tx hv.2 ;;;
  admission_insert tx hv.1 fOverrideMempoolLimit.

(** The coins of the local view are coins that the pool or the UTXO
    set holds. *)
Definition view_sound (pool : CTxMemPool) (tip : CoinsTip) (view : CCoinsViewCache)
  : Prop :=
  forall o c, cacheCoins view !! o = Some c ->
              is_Some (pool_output pool o) \/ is_Some (tip_utxo tip o).

Definition same_utxo (tip tip' : CoinsTip) : Prop :=
  tip_base tip' = tip_base tip /\ forall o, tip_utxo tip' o = tip_utxo tip o.

(** A step that leaves the pool as it is. *)
Definition preserves_pool {A} (m : Adm A) : Prop :=
  forall w r w', m w = Some (r, w') -> w_pool w' = w_pool w.


(** The value of a function that ends in [return]. *)
Definition adm_run (m : Adm Empty_set) (w : World) : option (bool * World) :=
  match m w with
  | None => None
  | Some (inl b, w') => Some (b, w')
  | Some (inr e, _) => match e with end
  end.

(** [AcceptToMemoryPoolWorker]; [vCoinsToUncache] is [w_uncache]. *)
Definition AcceptToMemoryPoolWorker (w : World) (tx : CTransaction)
           (fLimitFree fOverrideMempoolLimit fRejectAbsurdFee : bool)
  : option (bool * World) :=
  adm_run (AcceptToMemoryPoolWorker_steps tx fLimitFree fOverrideMempoolLimit
                                          fRejectAbsurdFee) w.

(** [AcceptToMemoryPool]: the coins that the attempt pulled into the
    cache are dropped again when it failed for a reason other than
    missing inputs. *)
Definition AcceptToMemoryPool (w : World) (tx : CTransaction)
           (fLimitFree fOverrideMempoolLimit fRejectAbsurdFee : bool)
  : option (bool * World) :=
  '(res, w') ← AcceptToMemoryPoolWorker (set_uncache_empty w) tx fLimitFree
                 fOverrideMempoolLimit fRejectAbsurdFee;
  if (if w_missing w' is Some m then negb res && negb m else false)
  then Some (res, set_tip w' (fold_left tip_Uncache (w_uncache w') (w_tip w')))
  else Some (res, w').
End Admission.

(** ** Sample parameters and inputs

    One choice of the parameters, to run the definitions on concrete
    inputs: the lock-time and sequence constants carry the values of the
    upstream headers, the remaining functions are small stand-ins. *)

Module Sample.

Definition is_null (o : COutPoint) : bool := (o.1 =? 0) && (o.2 =? 4294967295).

Definition consensus : Consensus := {|
  LOCKTIME_THRESHOLD := 500000000;
  LOCKTIME_VERIFY_SEQUENCE := 1;
  LOCKTIME_MEDIAN_TIME_PAST := 2;
  SEQUENCE_FINAL := 4294967295;
  SEQUENCE_LOCKTIME_DISABLE_FLAG := 2147483648;
  SEQUENCE_LOCKTIME_TYPE_FLAG := 4194304;
  SEQUENCE_LOCKTIME_MASK := 65535;
  SEQUENCE_LOCKTIME_GRANULARITY := 9;
  COINBASE_MATURITY := 30;
  MAX_MONEY := 2500000000000000000;
  DEFAULT_TRANSACTION_MINFEE := 0;
  MAX_BLOCK_SIZE := 1000000;
  MAX_BLOCK_SIGOPS := 20000;
  MEMPOOL_HEIGHT := 2147483647;
  GetMedianTimePast := fun b => 600 * nHeight b;
  IsCoinBase := fun tx =>
    match vin tx with
    | [txin] => is_null (prevout txin)
    | _ => false
    end;
  IsCoinStake := fun tx =>
    match vin tx, vout tx with
    | txin :: _, out0 :: _ :: _ =>
        negb (is_null (prevout txin)) && (nValue out0 =? 0)
        && bool_decide (scriptPubKey out0 = [])
    | _, _ => false
    end;
  GetHash := fun tx => nTime tx;
  GetValueOut := fun tx => fold_left (fun n out => n + nValue out) (vout tx) 0;
  CheckTransaction := fun tx =>
    match vin tx, vout tx with
    | [], _ => Some (mkRejection 10 REJECT_INVALID "bad-txns-vin-empty" false "")
    | _, [] => Some (mkRejection 10 REJECT_INVALID "bad-txns-vout-empty" false "")
    | _, _ => None
    end
|}.

(** A chain of [n] blocks over the genesis block. *)
Fixpoint chain (n : nat) : CBlockIndex :=
  match n with
  | O => mkBlockIndex 0 0 None
  | S k => mkBlockIndex (Z.of_nat n) (Z.of_nat n) (Some (chain k))
  end.

(** The active tip, above and below the height 1600000. *)
Definition high_tip : CBlockIndex := mkBlockIndex 42 1700000 None.
Definition low_tip : CBlockIndex := mkBlockIndex 42 1000 None.

Definition node_at (tip : CBlockIndex)
           (verify : CTransaction -> nat -> Coin -> Z -> bool) : Node := {|
  mapBlockIndex := {[ index_id tip := tip ]};
  chainActive_Tip := Some tip;
  GetCoinAge := fun _ => Some 0;
  GetCoinAgeByValue := fun _ age => age;
  GetProofOfStakeReward := fun _ _ => 0;
  VerifyScript := verify;
  ScriptErrorString := fun _ _ _ _ => "script error";
  MANDATORY_SCRIPT_VERIFY_FLAGS := 1;
  STANDARD_SCRIPT_VERIFY_FLAGS := 7;
  STANDARD_NOT_MANDATORY_VERIFY_FLAGS := 6
|}.

(** A verifier that accepts every script, and one that accepts only
    under the full standard flag set. *)
Definition accept_all : CTransaction -> nat -> Coin -> Z -> bool :=
  fun _ _ _ _ => true.
Definition standard_only : CTransaction -> nat -> Coin -> Z -> bool :=
  fun _ _ _ flags => flags =? 7.

Definition node : Node := node_at high_tip accept_all.
Definition early_node : Node := node_at low_tip accept_all.
Definition lenient_node : Node := node_at high_tip standard_only.

Definition checks : BlockChecks := {|
  IsProofOfWork := fun _ => true;
  IsProofOfStake := fun _ => false;
  CheckProofOfWork := fun _ => true;
  CheckBlockHeader := fun _ _ => None;
  BlockMerkleRoot := fun txs => (Z.of_nat (length txs), false);
  GetSerializeSize := fun _ txs => 80 + 100 * Z.of_nat (length txs);
  GetSigOpCount := fun script => Z.of_nat (length script);
  IsEmpty := fun out => (nValue out =? 0) && bool_decide (scriptPubKey out = []);
  CheckBlockSignature := fun _ _ _ => true
|}.

(** A service mempool that holds nothing, and one whose every service
    transaction fails its check. *)
Definition no_service : ServiceChannel :=
  mkService unit (fun _ => None) (fun _ _ st => (true, st)) (fun _ _ st _ _ => st).
Definition failing_service : ServiceChannel :=
  mkService unit (fun _ => Some tt)
            (fun _ _ st => DoS st 10 false REJECT_INVALID "bad-stx" false "")
            (fun _ _ st _ _ => st).

Definition policy : Policy := {|
  RelayState := unit;
  fRequireStandard := true;
  IsStandardTx := fun _ => None;
  GetAdjustedTime := 1000000000;
  GetTime := 1000000000;
  STANDARD_LOCKTIME_VERIFY_FLAGS := 3;
  AreInputsStandard := fun _ _ => true;
  IsPayToScriptHash := fun _ => false;
  GetP2SHSigOps := fun _ _ => 0;
  MAX_STANDARD_TX_SIGOPS := 4000;
  nBytesPerSigOp := 20;
  GetTxSize := fun _ => 200;
  GetValueIn := fun view tx =>
    fold_left (fun n txin =>
                 n + match cacheCoins view !! prevout txin with
                     | Some c => nValue (coin_out c)
                     | None => -1
                     end) (vin tx) 0;
  ApplyDeltas := fun _ _ fees => fees;
  mempoolRejectFee := fun _ _ => 0;
  relaypriority := true;
  minRelayTxFee_GetFee := fun _ _ => 10;
  AllowFree := fun _ _ => false;
  GetTotalTxSize := fun _ => 0;
  relay_update := fun r _ _ => r;
  free_rate_limit := fun r _ _ => (false, r);
  CalculateMemPoolAncestors := fun _ _ => None;
  maxmempool := 300;
  mempoolexpiry := 72;
  pool_Expire := fun pool _ => (pool, [], 0);
  pool_TrimToSize := fun pool _ => (pool, [])
|}.

(** Transactions. *)
Definition coinbase : CTransaction :=
  mkTx 1 100 [mkTxIn (0, 4294967295) [] 4294967295] [mkTxOut 50 [1]] 0 0.
Definition spend (o : COutPoint) (nTime : Z) : CTransaction :=
  mkTx 1 nTime [mkTxIn o [] 4294967295] [mkTxOut 900 [1]] 0 0.
(** locked until height 2000000, with a non-final input *)
Definition locked_spend (o : COutPoint) : CTransaction :=
  mkTx 1 100 [mkTxIn o [] 0] [mkTxOut 900 [1]] 2000000 0.
(** a transaction of version 2 that references service transaction 77 *)
Definition service_spend : CTransaction :=
  mkTx 2 100 [mkTxIn (5, 0) [] 4294967295] [mkTxOut 900 [1]] 0 77.
(** version 2, input 0 with the disable bit over a lock of 50 blocks,
    input 1 locked for 10 blocks *)
Definition relative_locked : CTransaction :=
  mkTx 2 100 [mkTxIn (5, 0) [] (2147483648 + 50); mkTxIn (5, 1) [] 10]
       [mkTxOut 900 [1]] 0 0.

(** Coins: a coinbase output created 11 blocks below the spend height
    of [high_tip], and an ordinary output. *)
Definition young_coinbase_coin : Coin := mkCoin (mkTxOut 1000 [1]) 1699990 true.
Definition coin : Coin := mkCoin (mkTxOut 1000 [1]) 100 false.

Definition view_of (c : Coin) : CCoinsViewCache := mkView {[ (7, 0) := c ]} 42.

(** Blocks. *)
Definition header_at (nTime : Z) (root : Z) : CBlockHeader :=
  mkHeader 1 0 root nTime 0 0.
Definition block_of (txs : list CTransaction) (nTime : Z) : CBlock :=
  mkBlock (header_at nTime (Z.of_nat (length txs))) txs [] false.

(** The world of admission: an empty pool over a store that holds
    [coin] at outpoint (7, 0). *)
Definition world (missing : option bool) : @World policy :=
  @mkWorld policy state_valid (mkPool ∅ ∅) (mkTip {[ (7, 0) := coin ]} ∅ 42)
           missing [] tt [].

Definition flush_env (disk batch coins : IoOutcome) : FlushEnv := {|
  DATABASE_WRITE_INTERVAL := 3600;
  DATABASE_FLUSH_INTERVAL := 86400;
  GetTimeMicros := 5000000000;
  DynamicMemoryUsage := 1000;
  GetCacheSize := 10;
  projected_over := fun size limit => limit * 9 <? size * 10;
  CheckDiskSpace := fun _ => disk;
  WriteBatchSync := fun _ _ _ => batch;
  CoinsFlush := coins
|}.

(** A disk with room for the block index and without room for the
    coins of the cache. *)
Definition tight_flush_env : FlushEnv := {|
  DATABASE_WRITE_INTERVAL := 3600;
  DATABASE_FLUSH_INTERVAL := 86400;
  GetTimeMicros := 5000000000;
  DynamicMemoryUsage := 1000;
  GetCacheSize := 10;
  projected_over := fun size limit => limit * 9 <? size * 10;
  CheckDiskSpace := fun nAdditionalBytes =>
                      if nAdditionalBytes =? 0 then IoOk else IoFailed;
  WriteBatchSync := fun _ _ _ => IoOk;
  CoinsFlush := IoOk
|}.

Definition globals : FlushGlobals :=
  mkFlushGlobals 4000000000 4000000000 4000000000 {[ 1; 2 ]} {[ 0 ]} 0 1500000.
End Sample.

(** ** Further code of [main.cpp] and [wallet/wallet.h]

    The functions around the ones above: the contextual block check
    with its majority rule, the validity of stored lock points, the
    proof-of-stake reward, the positions in the block files, the
    warnings, and the storage of wallet transactions.  Two notions for
    stating properties of the functions above come first. *)

(** The exact sum of the values of a list of coins. *)
Definition total_value (coins : list Coin) : Z :=
  foldr (fun coin acc => nValue (coin_out coin) + acc) 0 coins.

Section AdmissionOutcomes.
Context `{Consensus} `{Node} `{BlockChecks} `{Policy}.

(** A step whose returns from the function all carry the value false. *)
Definition returns_false_early {A} (m : Adm A) : Prop :=
  forall w b w', m w = Some (inl b, w') -> b = false.
End AdmissionOutcomes.

(** ** The chain context

    What the functions below read of a block index entry beyond the
    fields of [CBlockIndex] above, and of the chain parameters. *)
Class ChainContext := {
  (** [CBlockIndex::nVersion] *)
  index_nVersion : CBlockIndex -> Z;
  (** [CBlockIndex::IsProofOfStake()] *)
  index_IsProofOfStake : CBlockIndex -> bool;
  (** [CBlockIndex::nMoneySupply] *)
  nMoneySupply : CBlockIndex -> Z;
  (** [Consensus::Params::nMajorityWindow], [nMajorityEnforceBlockUpgrade] *)
  nMajorityWindow : Z;
  nMajorityEnforceBlockUpgrade : Z;
  (** [CScript() << nHeight], the serialized height *)
  height_script : Z -> list Z;
  (** [chainActive.Contains(pindex)] *)
  chainActive_Contains : CBlockIndex -> bool
}.

(** The entry and the entries its [pprev] links lead to, nearest first. *)
Fixpoint ancestry (b : CBlockIndex) : list CBlockIndex :=
  b :: match pprev b with
       | Some p => ancestry p
       | None => []
       end.

Definition chain_of (pstart : option CBlockIndex) : list CBlockIndex :=
  match pstart with
  | Some b => ancestry b
  | None => []
  end.

Section ChainRules.
Context `{Consensus} `{ChainContext}.

(** The loop of [IsSuperMajority]: at most [window] turns, left as soon
    as [nFound] reaches [nRequired] or the chain ends. *)
Fixpoint super_majority_loop (window : nat) (minVersion : Z)
         (pstart : option CBlockIndex) (nRequired nFound : Z) : Z :=
  match window with
  | O => nFound
  | S window' =>
      if nFound <? nRequired then
        match pstart with
        | Some b =>
            super_majority_loop window' minVersion (pprev b) nRequired
              (if minVersion <=? index_nVersion b then uint32 (nFound + 1) else nFound)
        | None => nFound
        end
      else nFound
  end.

(** [IsSuperMajority(minVersion, pstart, nRequired, consensusParams)];
    [nRequired] is unsigned. *)
Definition IsSuperMajority (minVersion : Z) (pstart : option CBlockIndex)
           (nRequired : Z) : bool :=
  nRequired <=? super_majority_loop (Z.to_nat nMajorityWindow) minVersion pstart
                                    nRequired 0.

(** The blocks of version [minVersion] or above among the last
    [nMajorityWindow] blocks, counted from [pstart] backwards. *)
Definition majority_count (minVersion : Z) (pstart : option CBlockIndex) : nat :=
  length (filter (fun b => minVersion <= index_nVersion b)
                 (take (Z.to_nat nMajorityWindow) (chain_of pstart))).

(** [ContextualCheckBlock(block, state, pindexPrev)].  [None]: the run
    does not return, a null [pindexPrev] or an absent first input being
    dereferenced. *)
Definition ContextualCheckBlock (block : CBlock) (state : CValidationState)
           (pindexPrev : option CBlockIndex)
  : option (bool * CValidationState * list Event) :=
  let nHeight := match pindexPrev with
                 | None => 0
                 | Some prev => int32 (nHeight prev + 1)
                 end in
  let nLockTimeFlags := Z.lor 0 LOCKTIME_MEDIAN_TIME_PAST in
  nLockTimeCutoff ← (if has_flag nLockTimeFlags LOCKTIME_MEDIAN_TIME_PAST
                     then GetMedianTimePast <$> pindexPrev
                     else Some (GetBlockTime block));
  if negb (forallb (fun tx => IsFinalTx tx nHeight nLockTimeCutoff) (vtx block)) then
    Some (DoS state 10 false REJECT_INVALID "bad-txns-nonfinal" false "",
          [EvError "ContextualCheckBlock: contains a non-final transaction"])
  else if (2 <=? block_nVersion (header block))
          && IsSuperMajority 2 pindexPrev (uint32 nMajorityEnforceBlockUpgrade) then
    tx0 ← vtx block !! 0%nat;
    txin0 ← vin tx0 !! 0%nat;
    let expect := height_script nHeight in
    if (length (scriptSig txin0) <? length expect)%nat
       || negb (bool_decide (take (length expect) (scriptSig txin0) = expect))
    then Some (DoS state 100 false REJECT_INVALID "bad-cb-height" false "",
               [EvError "ContextualCheckBlock: block height mismatch in coinbase"])
    else Some (true, state, [])
  else Some (true, state, []).

(** The loop of [GetLastBlockIndex] from a non-null entry. *)
Fixpoint last_block_index (b : CBlockIndex) (fProofOfStake : bool) : CBlockIndex :=
  match pprev b with
  | Some p =>
      if negb (eqb (index_IsProofOfStake b) fProofOfStake)
      then last_block_index p fProofOfStake
      else b
  | None => b
  end.

(** [GetLastBlockIndex(pindex, fProofOfStake)]. *)
Definition GetLastBlockIndex (pindex : option CBlockIndex) (fProofOfStake : bool)
  : option CBlockIndex :=
  match pindex with
  | Some b => Some (last_block_index b fProofOfStake)
  | None => None
  end.

(** [TestLockPointValidity(lp)]; [None] is the failed [assert(lp)]. *)
Definition TestLockPointValidity (lp : option LockPoints) : option bool :=
  match lp with
  | None => None
  | Some l =>
      match maxInputBlock l with
      | Some b => if negb (chainActive_Contains b) then Some false else Some true
      | None => Some true
      end
  end.
End ChainRules.

(** ** The proof-of-stake reward ([main.cpp], lines 2013-2072) *)

Module Reward.

(** Constants of [amount.h] and [main.h], which are not among the
    sources.  The source starts from [2.5 * MAX_MINT_PROOF_OF_STAKE],
    computed in double precision and converted to [int64_t]:
    [nRewardCoinYear_initial] is that value. *)
Class Amounts := {
  COIN : Z;
  CENT : Z;
  nRewardCoinYear_initial : Z
}.

Section Reward.
Context `{Consensus} `{Node} `{ChainContext} `{Amounts}.

(** [ValueFromAmountAsInt]; the division of C++ rounds towards zero. *)
Definition ValueFromAmountAsInt (amount : Z) : Z := Z.quot amount COIN.

(** The yearly rate of 25% applied to the coin age, in coin-days. *)
Definition stake_subsidy (nCoinAge : Z) : Z :=
  Z.quot (int64 (nCoinAge * int64 (25 * CENT))) 365.

(** [GetProofOfStakeReward(nCoinAge, nHeight)], without the log lines
    under [fDebug].  [None]: the null tip of an empty chain is
    dereferenced. *)
Definition GetProofOfStakeReward (nCoinAge nHeight : Z) : option Z :=
  tip ← chainActive_Tip;
  let CMS := nMoneySupply tip in
  if CMS =? MAX_MONEY then Some 0
  else if (500000 <? nHeight) && (nHeight <? 1005000) then
    let nextMoney := int64 (ValueFromAmountAsInt CMS + nRewardCoinYear_initial) in
    let nRewardCoinYear1 :=
      if MAX_MONEY <? nextMoney
      then int64 (nextMoney - int64 (nextMoney - MAX_MONEY))
      else nRewardCoinYear_initial in
    let nRewardCoinYear2 :=
      if nextMoney =? MAX_MONEY then 0 else nRewardCoinYear1 in
    Some (Z.quot (int64 (nCoinAge * nRewardCoinYear2)) 365)
  else
    let nSubsidy := stake_subsidy nCoinAge in
    if 1005000 <=? nHeight then
      let nextMoney := int64 (CMS + nSubsidy) in
      if MAX_MONEY <? nextMoney
      then Some (int64 (nSubsidy - int64 (nextMoney - MAX_MONEY)))
      else Some nSubsidy
    else Some nSubsidy.
End Reward.
End Reward.

(** ** Positions in the block files ([main.cpp], [FindBlockPos],
    [FlushBlockFile], [CheckDiskSpace] and the [AbortNode] without a
    validation state) *)

Definition uint64 (x : Z) : Z := wrap_unsigned 64 x.

Module BlockFile.

(** What the functions read of their surroundings.  [FileStats] stands
    for the count of blocks and the ranges of heights and times of a
    [CBlockFileInfo], which [CBlockFileInfo::AddBlock] of [chain.h]
    updates and the code embedded here only passes on. *)
Class Storage := {
  FileStats : Type;
  stats_null : FileStats;
  AddBlock : FileStats -> Z -> Z -> FileStats;
  (** the constants [MAX_BLOCKFILE_SIZE], [BLOCKFILE_CHUNK_SIZE] (not
      zero: the code divides by it) and [nMinDiskSpace] of [main.h] *)
  MAX_BLOCKFILE_SIZE : Z;
  BLOCKFILE_CHUNK_SIZE : Z;
  nMinDiskSpace : Z;
  (** [fs::space(GetDataDir()).available] *)
  nFreeBytesAvailable : Z;
  (** whether [OpenBlockFile(pos)] and [OpenUndoFile(pos)] yield a file,
      by file number and position *)
  OpenBlockFile : Z -> Z -> bool;
  OpenUndoFile : Z -> Z -> bool
}.

Section BlockFile.
Context `{Storage}.

Record CBlockFileInfo := mkFileInfo {
  nSize : Z;                          (* unsigned int *)
  nUndoSize : Z;                      (* unsigned int *)
  stats : FileStats
}.

(** A default-constructed entry, as [resize] appends it. *)
Definition null_info : CBlockFileInfo := mkFileInfo 0 0 stats_null.

Record CDiskBlockPos := mkPos {
  nFile : Z;                          (* int *)
  nPos : Z                            (* unsigned int *)
}.

(** The globals [vinfoBlockFile], [nLastBlockFile], [setDirtyFileInfo]
    and [strMiscWarning]. *)
Record Files := mkFiles {
  vinfoBlockFile : list CBlockFileInfo;
  nLastBlockFile : Z;
  setDirtyFileInfo : gset Z;
  strMiscWarning : string
}.

Inductive FileEvent :=
| EvLogPrintf (msg : string)
| EvTruncateFile (undo : bool) (file size : Z)
| EvFileCommit (undo : bool) (file : Z)
| EvAllocateFileRange (file offset length : Z)
| EvMessageBox (msg : string)
| EvStartShutdown.

(** [AbortNode(strMessage, userMessage)]: the warning is set, the
    message logged and shown, the shutdown started; the value is false. *)
Definition AbortNode (files : Files) (strMessage userMessage : string)
  : bool * Files * list FileEvent :=
  (false,
   mkFiles (vinfoBlockFile files) (nLastBlockFile files) (setDirtyFileInfo files) strMessage,
   [EvLogPrintf ("*** " +:+ strMessage);
    EvMessageBox (if bool_decide (userMessage = EmptyString)
                  then "Error: A fatal internal error occurred, see debug.log for details"
                  else userMessage);
    EvStartShutdown]).

(** [CheckDiskSpace(nAdditionalBytes)], in 64-bit unsigned arithmetic. *)
Definition CheckDiskSpace (files : Files) (nAdditionalBytes : Z)
  : bool * Files * list FileEvent :=
  if nFreeBytesAvailable <? uint64 (nMinDiskSpace + nAdditionalBytes)
  then AbortNode files "Disk space is low!" "Error: Disk space is low!"
  else (true, files, []).

(** [vinfoBlockFile[i]] for an index [i] of type [int]; [None]: the
    index is outside the vector. *)
Definition info_at (vinfo : list CBlockFileInfo) (i : Z) : option CBlockFileInfo :=
  if i <? 0 then None else vinfo !! Z.to_nat i.

(** [FlushBlockFile(fFinalize)]; [None]: [vinfoBlockFile] is indexed
    outside its bounds.  The calls of [fclose] are left out of the
    trace. *)
Definition FlushBlockFile (files : Files) (fFinalize : bool) : option (list FileEvent) :=
  let last := nLastBlockFile files in
  blockEvents ←
    (if OpenBlockFile last 0 then
       truncation ← (if fFinalize
                     then info ← info_at (vinfoBlockFile files) last;
                          Some [EvTruncateFile false last (nSize info)]
                     else Some []);
       Some (truncation ++ [EvFileCommit false last])
     else Some []);
  undoEvents ←
    (if OpenUndoFile last 0 then
       truncation ← (if fFinalize
                     then info ← info_at (vinfoBlockFile files) last;
                          Some [EvTruncateFile true last (nUndoSize info)]
                     else Some []);
       Some (truncation ++ [EvFileCommit true last])
     else Some []);
  Some (blockEvents ++ undoEvents).

(** [vinfoBlockFile.resize(nFile + 1)] under its guard. *)
Definition grow (vinfo : list CBlockFileInfo) (file : Z) : list CBlockFileInfo :=
  if (Z.of_nat (length vinfo) <=? file)
  then resize (Z.to_nat (uint32 (file + 1))) null_info vinfo
  else vinfo.

(** The loop that looks for a file with room for [nAddSize] more bytes;
    [fuel] bounds the number of turns, and [None] is a loop that has
    not ended within it. *)
Fixpoint next_file (fuel : nat) (vinfo : list CBlockFileInfo) (file nAddSize : Z)
  : option (list CBlockFileInfo * Z) :=
  match fuel with
  | O => None
  | S fuel' =>
      info ← vinfo !! Z.to_nat file;
      if MAX_BLOCKFILE_SIZE <=? uint32 (nSize info + nAddSize) then
        let file' := uint32 (file + 1) in
        next_file fuel' (grow vinfo file') file' nAddSize
      else Some (vinfo, file)
  end.

(** The size recorded for a file; a file the vector does not hold yet
    has the size 0 of a fresh entry. *)
Definition size_of (vinfo : list CBlockFileInfo) (file : Z) : Z :=
  from_option nSize 0 (vinfo !! Z.to_nat file).

(** Sizes to which [nAddSize] more bytes are added without a wrap of
    the unsigned sum. *)
Definition sizes_take (nAddSize : Z) (vinfo : list CBlockFileInfo) : Prop :=
  Forall (fun info => 0 <= nSize info /\ nSize info + nAddSize < 2 ^ 32) vinfo.

(** Sizes below 2^31, so that adding the size of a block does not wrap. *)
Definition sizes_in_range (vinfo : list CBlockFileInfo) : Prop :=
  Forall (fun info => 0 <= nSize info < 2 ^ 31) vinfo.

Record FindResult := mkFindResult {
  fr_result : bool;
  fr_state : CValidationState;
  fr_pos : CDiskBlockPos;
  fr_files : Files;
  fr_events : list FileEvent
}.

Definition set_info (vinfo : list CBlockFileInfo) (file : Z) (info : CBlockFileInfo)
  : list CBlockFileInfo :=
  <[Z.to_nat file := info]> vinfo.

(** The step of [FindBlockPos] that leaves the last block file when
    another file has been picked: the old file is flushed, and
    finalized when the position was not known.  It yields the new
    [nLastBlockFile] and the trace. *)
Definition switch_file (files : Files) (file : Z) (fKnown : bool)
  : option (Z * list FileEvent) :=
  if negb (int32 file =? nLastBlockFile files) then
    logged ← (if negb fKnown
              then _ ← info_at (vinfoBlockFile files) (nLastBlockFile files);
                   Some [EvLogPrintf "Leaving block file"]
              else Some []);
    flushed ← FlushBlockFile files (negb fKnown);
    Some (int32 file, logged ++ flushed)
  else Some (nLastBlockFile files, []).

(** The rest of [FindBlockPos]: the block is added to the entry of the
    file, the size of the file is updated, the file is pre-allocated in
    chunks when the position was not known, and the file is recorded as
    dirty. *)
Definition record_block (files : Files) (state : CValidationState)
           (pos : CDiskBlockPos) (file nAddSize nHeight nTime : Z) (fKnown : bool)
           (events : list FileEvent) : option FindResult :=
  info ← vinfoBlockFile files !! Z.to_nat file;
  let added := mkFileInfo (nSize info) (nUndoSize info) (AddBlock (stats info) nHeight nTime) in
  let sized :=
    mkFileInfo (if fKnown
                then Z.max (uint32 (nPos pos + nAddSize)) (nSize added)
                else uint32 (nSize added + nAddSize))
               (nUndoSize added) (stats added) in
  let files2 := mkFiles (set_info (vinfoBlockFile files) file sized) (nLastBlockFile files)
                        (setDirtyFileInfo files) (strMiscWarning files) in
  let dirty (f : Files) :=
    mkFiles (vinfoBlockFile f) (nLastBlockFile f) ({[ int32 file ]} ∪ setDirtyFileInfo f)
            (strMiscWarning f) in
  if negb fKnown then
    let nOldChunks :=
      uint32 (nPos pos + BLOCKFILE_CHUNK_SIZE - 1) / BLOCKFILE_CHUNK_SIZE in
    let nNewChunks :=
      uint32 (nSize sized + BLOCKFILE_CHUNK_SIZE - 1) / BLOCKFILE_CHUNK_SIZE in
    if nOldChunks <? nNewChunks then
      let wanted := uint32 (uint32 (nNewChunks * BLOCKFILE_CHUNK_SIZE) - nPos pos) in
      let '(ok, files3, events2) := CheckDiskSpace files2 wanted in
      if ok then
        let events3 :=
          if OpenBlockFile (nFile pos) (nPos pos)
          then [EvLogPrintf "Pre-allocating"; EvAllocateFileRange (nFile pos) (nPos pos) wanted]
          else [] in
        Some (mkFindResult true state pos (dirty files3) (events ++ events2 ++ events3))
      else
        Some (mkFindResult (Error state "out of disk space").1
                           (Error state "out of disk space").2
                           pos files3 (events ++ events2))
    else Some (mkFindResult true state pos (dirty files2) events)
  else Some (mkFindResult true state pos (dirty files2) events).

(** [FindBlockPos(state, pos, nAddSize, nHeight, nTime, fKnown)]. *)
Definition FindBlockPos (fuel : nat) (files : Files) (state : CValidationState)
           (pos : CDiskBlockPos) (nAddSize nHeight nTime : Z) (fKnown : bool)
  : option FindResult :=
  let file0 := uint32 (if fKnown then nFile pos else nLastBlockFile files) in
  let vinfo0 := grow (vinfoBlockFile files) file0 in
  '(vinfo1, file, pos1) ←
    (if negb fKnown then
       '(vinfo1, file) ← next_file fuel vinfo0 file0 nAddSize;
       info ← vinfo1 !! Z.to_nat file;
       Some (vinfo1, file, mkPos (int32 file) (nSize info))
     else Some (vinfo0, file0, pos));
  let files1 := mkFiles vinfo1 (nLastBlockFile files) (setDirtyFileInfo files)
                        (strMiscWarning files) in
  '(last, events1) ← switch_file files1 file fKnown;
  record_block (mkFiles vinfo1 last (setDirtyFileInfo files) (strMiscWarning files))
               state pos1 file nAddSize nHeight nTime fKnown events1.
End BlockFile.
End BlockFile.

(** ** Warnings ([main.cpp], [GetWarnings]) *)

Module Warnings.

(** What [GetWarnings] reads besides [strMiscWarning]:
    [CLIENT_VERSION_IS_RELEASE], the argument [-testsafemode] and the
    two flags of the fork detection. *)
Record Flags := mkFlags {
  CLIENT_VERSION_IS_RELEASE : bool;
  testsafemode : bool;
  fLargeWorkForkFound : bool;
  fLargeWorkInvalidChainFound : bool
}.

Definition pre_release : string :=
  "This is a pre-release test build - use at your own risk - do not use for mining or merchant applications".
Definition fork_warning : string :=
  "Warning: The network does not appear to fully agree! Some miners appear to be experiencing issues.".
Definition invalid_chain_warning : string :=
  "Warning: We do not appear to fully agree with our peers! You may need to upgrade, or other nodes may need to upgrade.".

(** [GetWarnings(strFor)]; [translate] is the translation [_()] of the
    user interface.  The three strings are assigned in the order of the
    code; [None] is the failed assertion on a parameter that is none of
    [gui], [statusbar] and [rpc]. *)
Definition GetWarnings (translate : string -> string) (flags : Flags)
           (strMiscWarning strFor : string) : option string :=
  let '(strStatusBar, strRPC, strGUI) := (EmptyString, EmptyString, EmptyString) in
  let '(strStatusBar, strRPC, strGUI) :=
    if negb (CLIENT_VERSION_IS_RELEASE flags)
    then (pre_release, strRPC, translate pre_release)
    else (strStatusBar, strRPC, strGUI) in
  let '(strStatusBar, strRPC, strGUI) :=
    if testsafemode flags
    then ("testsafemode enabled", "testsafemode enabled", "testsafemode enabled")
    else (strStatusBar, strRPC, strGUI) in
  let '(strStatusBar, strRPC, strGUI) :=
    if negb (bool_decide (strMiscWarning = EmptyString))
    then (strMiscWarning, strRPC, strMiscWarning)
    else (strStatusBar, strRPC, strGUI) in
  let '(strStatusBar, strRPC, strGUI) :=
    if fLargeWorkForkFound flags
    then (fork_warning, fork_warning, translate fork_warning)
    else if fLargeWorkInvalidChainFound flags
    then (invalid_chain_warning, invalid_chain_warning, translate invalid_chain_warning)
    else (strStatusBar, strRPC, strGUI) in
  if bool_decide (strFor = "gui") then Some strGUI
  else if bool_decide (strFor = "statusbar") then Some strStatusBar
  else if bool_decide (strFor = "rpc") then Some strRPC
  else None.

End Warnings.

(** ** Wallet transactions on disk ([wallet/wallet.h], [ReadOrderPos],
    [WriteOrderPos], [CMerkleTx], [CWalletTx::Init],
    [CWalletTx::SerializationOp]) *)

Module Wallet.

(** The conversions between numbers and text of [utilstrencodings.h]
    and [tinyformat.h], which are not among the sources: [atoi64],
    [i64tostr] and [strprintf] with the format [%u]. *)
Class Text := {
  atoi64 : string -> Z;
  i64tostr : Z -> string;
  format_unsigned : Z -> string
}.

(** [mapValue_t] *)
Notation mapValue_t := (gmap string string).

Record CMerkleTx := mkMerkleTx {
  tx : CTransaction;
  hashBlock : Z;                      (* uint256 *)
  nIndex : Z                          (* int *)
}.

Record CWalletTx := mkWalletTx {
  merkle : CMerkleTx;                 (* the base class *)
  pwallet : option Z;                 (* const CWallet *, [None] is the null pointer *)
  mapValue : mapValue_t;
  vOrderForm : list (string * string);
  fTimeReceivedIsTxTime : Z;          (* unsigned int *)
  nTimeReceived : Z;                  (* unsigned int *)
  nTimeSmart : Z;                     (* unsigned int *)
  fFromMe : Z;                        (* char *)
  strFromAccount : string;
  nOrderPos : Z;                      (* int64_t *)
  (* memory only *)
  fDebitCached : bool;
  fCreditCached : bool;
  fImmatureCreditCached : bool;
  fAvailableCreditCached : bool;
  fWatchDebitCached : bool;
  fWatchCreditCached : bool;
  fImmatureWatchCreditCached : bool;
  fAvailableWatchCreditCached : bool;
  fChangeCached : bool;
  nDebitCached : Z;
  nCreditCached : Z;
  nImmatureCreditCached : Z;
  nAvailableCreditCached : Z;
  nWatchDebitCached : Z;
  nWatchCreditCached : Z;
  nImmatureWatchCreditCached : Z;
  nAvailableWatchCreditCached : Z;
  nChangeCached : Z
}.

(** [CWalletTx::Init(pwalletIn)]: everything but the base class is
    reset. *)
Definition Init (wtx : CWalletTx) (pwalletIn : option Z) : CWalletTx :=
  mkWalletTx (merkle wtx) pwalletIn ∅ [] 0 0 0 0 EmptyString (-1)
             false false false false false false false false false
             0 0 0 0 0 0 0 0 0.

(** The value of a wallet transaction with another [mapValue]. *)
Definition set_mapValue (wtx : CWalletTx) (m : mapValue_t) : CWalletTx :=
  mkWalletTx (merkle wtx) (pwallet wtx) m (vOrderForm wtx) (fTimeReceivedIsTxTime wtx)
             (nTimeReceived wtx) (nTimeSmart wtx) (fFromMe wtx) (strFromAccount wtx)
             (nOrderPos wtx)
             (fDebitCached wtx) (fCreditCached wtx) (fImmatureCreditCached wtx)
             (fAvailableCreditCached wtx) (fWatchDebitCached wtx) (fWatchCreditCached wtx)
             (fImmatureWatchCreditCached wtx) (fAvailableWatchCreditCached wtx)
             (fChangeCached wtx)
             (nDebitCached wtx) (nCreditCached wtx) (nImmatureCreditCached wtx)
             (nAvailableCreditCached wtx) (nWatchDebitCached wtx) (nWatchCreditCached wtx)
             (nImmatureWatchCreditCached wtx) (nAvailableWatchCreditCached wtx)
             (nChangeCached wtx).

(** What [SerializationOp] writes to the stream or reads from it, one
    field for each [READWRITE] in their order. *)
Record Serialized := mkSerialized {
  ser_merkle : CMerkleTx;
  ser_vUnused : list CMerkleTx;
  ser_mapValue : mapValue_t;
  ser_vOrderForm : list (string * string);
  ser_fTimeReceivedIsTxTime : Z;
  ser_nTimeReceived : Z;
  ser_fFromMe : Z;
  ser_fSpent : Z
}.

(** The keys that [SerializationOp] erases from [mapValue] at its end. *)
Definition reserved_keys : list string :=
  ["fromaccount"; "version"; "spent"; "n"; "timesmart"].

Definition erase_reserved (m : mapValue_t) : mapValue_t :=
  delete "timesmart" (delete "n" (delete "spent" (delete "version" (delete "fromaccount" m)))).

Section Wallet.
Context `{Text}.

(** [ReadOrderPos(nOrderPos, mapValue)]: the new [nOrderPos]; the map
    is read at [n] only when it has that key, and so stays as it is. *)
Definition ReadOrderPos (mapValue : mapValue_t) : Z :=
  match mapValue !! "n" with
  | None => -1
  | Some text => atoi64 text
  end.

(** [WriteOrderPos(nOrderPos, mapValue)]: the new [mapValue]. *)
Definition WriteOrderPos (nOrderPos : Z) (mapValue : mapValue_t) : mapValue_t :=
  if nOrderPos =? -1 then mapValue
  else <["n" := i64tostr nOrderPos]> mapValue.

(** [CWalletTx::SerializationOp] when the action writes: what goes to
    the stream, and the transaction in memory afterwards. *)
Definition SerializationOp_write (wtx : CWalletTx) : Serialized * CWalletTx :=
  let fSpent := 0 in
  let m1 := <["fromaccount" := strFromAccount wtx]> (mapValue wtx) in
  let m2 := WriteOrderPos (nOrderPos wtx) m1 in
  let m3 := if negb (nTimeSmart wtx =? 0)
            then <["timesmart" := format_unsigned (nTimeSmart wtx)]> m2
            else m2 in
  (mkSerialized (merkle wtx) [] m3 (vOrderForm wtx) (fTimeReceivedIsTxTime wtx)
                (nTimeReceived wtx) (fFromMe wtx) fSpent,
   set_mapValue wtx (erase_reserved m3)).

(** [CWalletTx::SerializationOp] when the action reads: the transaction
    in memory afterwards.  [mapValue["fromaccount"]] on a map without
    the key yields the empty string. *)
Definition SerializationOp_read (wtx : CWalletTx) (s : Serialized) : CWalletTx :=
  let wtx0 := Init wtx None in
  let m := ser_mapValue s in
  mkWalletTx (ser_merkle s) (pwallet wtx0) (erase_reserved m) (ser_vOrderForm s)
             (ser_fTimeReceivedIsTxTime s) (ser_nTimeReceived s)
             (match m !! "timesmart" with
              | Some text => uint32 (atoi64 text)
              | None => 0
              end)
             (ser_fFromMe s)
             (default EmptyString (m !! "fromaccount"))
             (ReadOrderPos m)
             (fDebitCached wtx0) (fCreditCached wtx0) (fImmatureCreditCached wtx0)
             (fAvailableCreditCached wtx0) (fWatchDebitCached wtx0) (fWatchCreditCached wtx0)
             (fImmatureWatchCreditCached wtx0) (fAvailableWatchCreditCached wtx0)
             (fChangeCached wtx0)
             (nDebitCached wtx0) (nCreditCached wtx0) (nImmatureCreditCached wtx0)
             (nAvailableCreditCached wtx0) (nWatchDebitCached wtx0) (nWatchCreditCached wtx0)
             (nImmatureWatchCreditCached wtx0) (nAvailableWatchCreditCached wtx0)
             (nChangeCached wtx0).
End Wallet.
End Wallet.

(** ** Sample parameters for the chain rules, the reward, the block
    files and the wallet *)

Module SampleChain.

(** Every entry has version 2; the entries at odd heights are proof of
    stake; the money supply grows by 1000 with each block. *)
Definition context : ChainContext := {|
  index_nVersion := fun _ => 2;
  index_IsProofOfStake := fun b => Z.odd (nHeight b);
  nMoneySupply := fun b => 1000 * nHeight b;
  nMajorityWindow := 1000;
  nMajorityEnforceBlockUpgrade := 750;
  height_script := fun h => [h];
  chainActive_Contains := fun _ => true
|}.

(** A context whose window of 4 blocks asks for 3 blocks of version 2. *)
Definition short_context : ChainContext := {|
  index_nVersion := fun b => if nHeight b <? 2 then 1 else 2;
  index_IsProofOfStake := fun b => Z.odd (nHeight b);
  nMoneySupply := fun b => 1000 * nHeight b;
  nMajorityWindow := 4;
  nMajorityEnforceBlockUpgrade := 3;
  height_script := fun h => [h];
  chainActive_Contains := fun _ => true
|}.

Definition amounts : Reward.Amounts := {|
  Reward.COIN := 1000000;
  Reward.CENT := 10000;
  Reward.nRewardCoinYear_initial := 250000000
|}.

(** A tip whose money supply is 1000 below [MAX_MONEY]. *)
Definition rich_context : ChainContext := {|
  index_nVersion := fun _ => 2;
  index_IsProofOfStake := fun _ => true;
  nMoneySupply := fun _ => 2500000000000000000 - 1000;
  nMajorityWindow := 1000;
  nMajorityEnforceBlockUpgrade := 750;
  height_script := fun h => [h];
  chainActive_Contains := fun _ => true
|}.

(** Block files of 128 MiB in chunks of 16 MiB, with [free] bytes left
    on the disk. *)
Definition storage (free : Z) : BlockFile.Storage := {|
  BlockFile.FileStats := Z;
  BlockFile.stats_null := 0;
  BlockFile.AddBlock := fun n _ _ => n + 1;
  BlockFile.MAX_BLOCKFILE_SIZE := 134217728;
  BlockFile.BLOCKFILE_CHUNK_SIZE := 16777216;
  BlockFile.nMinDiskSpace := 52428800;
  BlockFile.nFreeBytesAvailable := free;
  BlockFile.OpenBlockFile := fun _ _ => true;
  BlockFile.OpenUndoFile := fun _ _ => true
|}.

(** One block file that is close to its full size, the last block file. *)
Definition files `{BlockFile.Storage} : BlockFile.Files :=
  BlockFile.mkFiles [BlockFile.mkFileInfo 134217000 70000 BlockFile.stats_null] 0 ∅ EmptyString.

(** Decimal text. *)
Definition text : Wallet.Text := {|
  Wallet.atoi64 := fun s => from_option Z.of_int 0 (DecimalString.NilEmpty.int_of_string s);
  Wallet.i64tostr := fun n => DecimalString.NilEmpty.string_of_int (Z.to_int n);
  Wallet.format_unsigned := fun n => DecimalString.NilEmpty.string_of_int (Z.to_int n)
|}.

(** A wallet transaction of account [savings] at position 7 of the
    ordered list, with a comment of the user. *)
Definition wallet_tx : Wallet.CWalletTx :=
  Wallet.mkWalletTx (Wallet.mkMerkleTx (Sample.spend (7, 0) 100) 42 3) (Some 1)
                    {[ "comment" := "rent" ]} [("order", "17")] 1 1500000000 1500000100 1
                    "savings" 7
                    true true false false false false false false false
                    900 1000 0 0 0 0 0 0 0.

(** A wallet transaction without a position, whose [mapValue] has an
    entry under the key [n]. *)
Definition stale_tx : Wallet.CWalletTx :=
  Wallet.mkWalletTx (Wallet.mkMerkleTx (Sample.spend (7, 0) 100) 42 3) (Some 1)
                    {[ "n" := "12" ]} [] 1 1500000000 0 1
                    "savings" (-1)
                    false false false false false false false false false
                    0 0 0 0 0 0 0 0 0.
End SampleChain.

(* ===================================================================== *)
(** * Part II. Theorems                                                   *)
(* ===================================================================== *)

(** ** Lock-time finality *)

Section FinalityFacts.
Context `{Consensus}.

Lemma all_inputs_final_Forall (ins : list CTxIn) :
  all_inputs_final ins = true <-> Forall (fun txin => nSequence txin = SEQUENCE_FINAL) ins.
Proof.
  induction ins as [|txin rest IH]; simpl.
  - split; [constructor | reflexivity].
  - destruct (Z.eqb_spec (nSequence txin) SEQUENCE_FINAL) as [Heq|Hne]; simpl.
    + rewrite IH. split; [by constructor | by inversion 1].
    + split; [discriminate | inversion 1; contradiction].
Qed.
End FinalityFacts.

(** C1.  [IsFinalTx tx h t] returns true if and only if [tx.nLockTime]
    is zero, or it is strictly below [h] when it is below
    [LOCKTIME_THRESHOLD] (strictly below [t] otherwise), or every input
    carries [SEQUENCE_FINAL]; a zero lock time is final at every height
    and time, and a transaction whose inputs are all final is final
    whatever its lock time. *)
Theorem IsFinalTx_characterisation `{Consensus} (tx : CTransaction) (h t : Z) :
  (IsFinalTx tx h t = true <->
     nLockTime tx = 0
     \/ (if nLockTime tx <? LOCKTIME_THRESHOLD then nLockTime tx < h else nLockTime tx < t)
     \/ Forall (fun txin => nSequence txin = SEQUENCE_FINAL) (vin tx))
  /\ (nLockTime tx = 0 -> forall h' t', IsFinalTx tx h' t' = true)
  /\ (Forall (fun txin => nSequence txin = SEQUENCE_FINAL) (vin tx) ->
        forall h' t', IsFinalTx tx h' t' = true).
Proof.
  assert (Hiff : forall h0 t0, IsFinalTx tx h0 t0 = true <->
     nLockTime tx = 0
     \/ (if nLockTime tx <? LOCKTIME_THRESHOLD then nLockTime tx < h0 else nLockTime tx < t0)
     \/ Forall (fun txin => nSequence txin = SEQUENCE_FINAL) (vin tx)).
  { intros h0 t0. unfold IsFinalTx.
    destruct (Z.eqb_spec (nLockTime tx) 0) as [Hz|Hnz]; [tauto|].
    rewrite <- all_inputs_final_Forall.
    destruct (nLockTime tx <? LOCKTIME_THRESHOLD).
    - destruct (Z.ltb_spec (nLockTime tx) h0); [tauto|].
      split; [tauto | intros [?|[?|?]]; [contradiction | lia | assumption]].
    - destruct (Z.ltb_spec (nLockTime tx) t0); [tauto|].
      split; [tauto | intros [?|[?|?]]; [contradiction | lia | assumption]]. }
  split; [apply Hiff|]. split.
  - intros Hz h' t'. apply Hiff. by left.
  - intros Hall h' t'. apply Hiff. right. by right.
Qed.

(** ** Sequence locks *)

(** C2.  For a block with a parent, [EvaluateSequenceLocks] returns, and
    it succeeds if and only if the block's own height is strictly above
    the minimum height and the parent's median time past is strictly
    above the minimum time; equality in either component fails. *)
Theorem EvaluateSequenceLocks_strict `{Consensus}
        (block prev : CBlockIndex) (minHeight minTime : Z) :
  pprev block = Some prev ->
  exists b, EvaluateSequenceLocks block (minHeight, minTime) = Some b
    /\ (b = true <-> minHeight < nHeight block /\ minTime < GetMedianTimePast prev)
    /\ (minHeight = nHeight block -> b = false)
    /\ (minTime = GetMedianTimePast prev -> b = false).
Proof.
  intros Hprev. unfold EvaluateSequenceLocks. rewrite Hprev. simpl.
  destruct (Z.leb_spec (nHeight block) minHeight) as [Hh|Hh];
    destruct (Z.leb_spec (GetMedianTimePast prev) minTime) as [Ht|Ht]; simpl;
    eexists; (split; [reflexivity|]);
    repeat split; intros; try discriminate; try lia; try reflexivity.
Qed.

Section SequenceLockFacts.
Context `{Consensus}.

Lemma land_lnot_clear (n F : Z) : Z.land (Z.land n (Z.lnot F)) F = 0.
Proof.
  apply Z.bits_inj'. intros i Hi.
  rewrite !Z.land_spec, Z.lnot_spec, Z.bits_0 by assumption.
  destruct (Z.testbit n i), (Z.testbit F i); reflexivity.
Qed.

Lemma land_lnot_id (n F : Z) : Z.land n F = 0 -> Z.land n (Z.lnot F) = n.
Proof.
  intros Hz. apply Z.bits_inj'. intros i Hi.
  assert (Hb : Z.testbit (Z.land n F) i = false) by (rewrite Hz; apply Z.bits_0).
  rewrite Z.land_spec in Hb. rewrite Z.land_spec, Z.lnot_spec by assumption.
  destruct (Z.testbit n i), (Z.testbit F i); simpl in *; congruence.
Qed.

Lemma clear_disable_flag_contributes (txin : CTxIn) :
  contributes (clear_disable_flag txin) = true.
Proof.
  unfold contributes, has_flag, clear_disable_flag. simpl.
  rewrite land_lnot_clear. reflexivity.
Qed.

Lemma clear_disable_flag_id (txin : CTxIn) :
  contributes txin = true -> clear_disable_flag txin = txin.
Proof.
  unfold contributes, has_flag, clear_disable_flag. intros Hc.
  destruct txin as [po ss n]; simpl in *. f_equal.
  apply land_lnot_id.
  destruct (Z.eqb_spec (Z.land n SEQUENCE_LOCKTIME_DISABLE_FLAG) 0); [assumption|discriminate].
Qed.

Lemma sequence_lock_loop_fold (block : CBlockIndex) (ins : list CTxIn) (hs0 : list Z) :
  length hs0 = length ins ->
  forall (k i : nat) (st : LockLoop),
    (i + k)%nat = length ins ->
    length (heights st) = length hs0 ->
    (forall j, (i <= j)%nat -> heights st !! j = hs0 !! j) ->
    (fun s => (nMinHeight s, nMinTime s)) <$>
      sequence_lock_loop block ins (seq i k) st
    = lock_fold block (drop i (zip ins hs0)) (nMinHeight st) (nMinTime st).
Proof.
  intros Hlen. induction k as [|k IH]; intros i st Hik Hl Hagree.
  - simpl. rewrite drop_ge; [reflexivity|].
    rewrite length_zip_with. lia.
  - assert (Hi : (i < length ins)%nat) by lia.
    destruct (lookup_lt_is_Some_2 ins i Hi) as [txin Htxin].
    destruct (lookup_lt_is_Some_2 hs0 i ltac:(lia)) as [h Hh].
    assert (Hz : zip ins hs0 !! i = Some (txin, h)).
    { by apply lookup_zip_Some. }
    rewrite (drop_S _ _ _ Hz). cbn [seq sequence_lock_loop lock_fold].
    unfold sequence_lock_step. rewrite Htxin. simpl.
    unfold contributes.
    destruct (has_flag (nSequence txin) SEQUENCE_LOCKTIME_DISABLE_FLAG) eqn:Hd; simpl.
    + destruct (decide (i < length (heights st))%nat) as [Hin|Hout]; [|lia].
      rewrite IH; [reflexivity | lia | simpl; by rewrite length_insert |].
      intros j Hj. simpl. rewrite list_lookup_insert_ne by lia. apply Hagree. lia.
    + rewrite (Hagree i) by lia. rewrite Hh. simpl.
      destruct (has_flag (nSequence txin) SEQUENCE_LOCKTIME_TYPE_FLAG) eqn:Ht.
      * unfold coin_time.
        destruct (GetAncestor block (Z.max (int32 (h - 1)) 0)) as [anc|]; simpl;
          [|reflexivity].
        rewrite IH; [reflexivity | lia | assumption |].
        intros j Hj. simpl. apply Hagree. lia.
      * rewrite IH; [reflexivity | lia | assumption |].
        intros j Hj. simpl. apply Hagree. lia.
Qed.

Lemma lock_fold_is_Some (block : CBlockIndex) (l : list (CTxIn * Z)) :
  forall mh mt, is_Some (lock_fold block l mh mt) <-> lock_defined block l.
Proof.
  induction l as [|[txin h] rest IH]; intros mh mt; simpl.
  - split; [done | by eexists].
  - destruct (contributes txin); [|rewrite IH; intuition discriminate].
    destruct (has_flag (nSequence txin) SEQUENCE_LOCKTIME_TYPE_FLAG).
    + destruct (coin_time block h) as [t|].
      * rewrite IH. split; [intros ?; split; [by eexists | done] | by intros [_ ?]].
      * split; [by intros [? ?] | intros [Hc _]].
        destruct (Hc eq_refl eq_refl); discriminate.
    + rewrite IH. intuition discriminate.
Qed.

Lemma spec_sequence_locks_ge (block : CBlockIndex) (l : list (CTxIn * Z)) :
  -1 <= (spec_sequence_locks block l).1 /\ -1 <= (spec_sequence_locks block l).2.
Proof.
  induction l as [|[txin h] rest IH]; simpl; [lia|].
  destruct (spec_sequence_locks block rest) as [mh mt]; simpl in IH.
  destruct (contributes txin); [|simpl; lia].
  destruct (has_flag (nSequence txin) SEQUENCE_LOCKTIME_TYPE_FLAG); [|simpl; lia].
  destruct (coin_time block h); simpl; lia.
Qed.

Lemma lock_fold_spec (block : CBlockIndex) (l : list (CTxIn * Z)) :
  forall mh mt a b,
    -1 <= mh -> -1 <= mt ->
    lock_fold block l mh mt = Some (a, b) ->
    a = Z.max mh (spec_sequence_locks block l).1
    /\ b = Z.max mt (spec_sequence_locks block l).2.
Proof.
  pose proof (spec_sequence_locks_ge block) as Hge.
  induction l as [|[txin h] rest IH]; intros mh mt a b Hmh Hmt; simpl.
  - intros [= <- <-]. lia.
  - specialize (Hge rest).
    destruct (spec_sequence_locks block rest) as [sh st] eqn:Hs; simpl in *.
    destruct (contributes txin).
    + destruct (has_flag (nSequence txin) SEQUENCE_LOCKTIME_TYPE_FLAG).
      * destruct (coin_time block h) as [t|]; [|discriminate].
        intros Hf. apply IH in Hf; simpl; lia.
      * intros Hf. apply IH in Hf; simpl; lia.
    + intros Hf. apply IH in Hf; simpl; lia.
Qed.

Lemma spec_sequence_locks_enable (block : CBlockIndex) (ins : list CTxIn) :
  forall (hs : list Z) (k : nat),
    (spec_sequence_locks block (zip ins hs)).1
      <= (spec_sequence_locks block (zip (alter clear_disable_flag k ins) hs)).1
    /\ (spec_sequence_locks block (zip ins hs)).2
      <= (spec_sequence_locks block (zip (alter clear_disable_flag k ins) hs)).2.
Proof.
  induction ins as [|txin rest IH]; intros hs k; [simpl; lia|].
  destruct hs as [|h hs]; [destruct k; simpl; lia|].
  destruct k as [|k].
  - change (alter clear_disable_flag 0%nat (txin :: rest))
      with (clear_disable_flag txin :: rest).
    cbn [zip_with spec_sequence_locks].
    destruct (spec_sequence_locks block (zip_with pair rest hs)) as [mh mt].
    destruct (contributes txin) eqn:Hc.
    + rewrite (clear_disable_flag_id _ Hc), Hc. lia.
    + rewrite clear_disable_flag_contributes.
      destruct (has_flag (nSequence (clear_disable_flag txin)) SEQUENCE_LOCKTIME_TYPE_FLAG);
        [destruct (coin_time block h)|]; simpl; lia.
  - change (alter clear_disable_flag (S k) (txin :: rest))
      with (txin :: alter clear_disable_flag k rest).
    cbn [zip_with spec_sequence_locks].
    specialize (IH hs k).
    destruct (spec_sequence_locks block (zip_with pair rest hs)) as [mh mt].
    destruct (spec_sequence_locks block
                (zip_with pair (alter clear_disable_flag k rest) hs)) as [mh' mt'].
    simpl in IH.
    destruct (contributes txin); [|simpl; lia].
    destruct (has_flag (nSequence txin) SEQUENCE_LOCKTIME_TYPE_FLAG);
      [destruct (coin_time block h)|]; simpl; lia.
Qed.

Lemma lock_defined_enable (block : CBlockIndex) (ins : list CTxIn) :
  forall (hs : list Z) (k : nat),
    lock_defined block (zip (alter clear_disable_flag k ins) hs) ->
    lock_defined block (zip ins hs).
Proof.
  induction ins as [|txin rest IH]; intros hs k; [done|].
  destruct hs as [|h hs]; [by destruct k|].
  destruct k as [|k].
  - change (alter clear_disable_flag 0%nat (txin :: rest))
      with (clear_disable_flag txin :: rest).
    cbn [zip_with lock_defined]. intros [Hhd Htl]. split; [|exact Htl].
    intros Hc. rewrite (clear_disable_flag_id _ Hc) in Hhd. by apply Hhd.
  - change (alter clear_disable_flag (S k) (txin :: rest))
      with (txin :: alter clear_disable_flag k rest).
    cbn [zip_with lock_defined]. intros [Hhd Htl]. split; [exact Hhd|].
    by apply (IH hs k).
Qed.

Lemma lock_defined_in_chain (block : CBlockIndex) (ins : list CTxIn) :
  forall (hs : list Z),
    (forall i h, hs !! i = Some h ->
                 is_Some (GetAncestor block (Z.max (int32 (h - 1)) 0))) ->
    lock_defined block (zip ins hs).
Proof.
  induction ins as [|txin rest IH]; intros hs Hanc; [done|].
  destruct hs as [|h hs]; [done|].
  cbn [zip_with lock_defined]. split.
  - intros _ _. unfold coin_time.
    destruct (Hanc 0%nat h eq_refl) as [anc ->]. by eexists.
  - apply IH. intros i h' Hi. apply (Hanc (S i) h' Hi).
Qed.

(** [CalculateSequenceLocks] under enforcement is the fold. *)
Lemma CalculateSequenceLocks_fold (tx : CTransaction) (flags : Z)
      (prevHeights : list Z) (block : CBlockIndex) :
  length prevHeights = length (vin tx) ->
  fEnforceBIP68 tx flags = true ->
  fst <$> CalculateSequenceLocks tx flags prevHeights block
  = lock_fold block (zip (vin tx) prevHeights) (-1) (-1).
Proof.
  intros Hlen Henf. unfold CalculateSequenceLocks.
  rewrite Hlen, Nat.eqb_refl, Henf. simpl.
  pose proof (sequence_lock_loop_fold block (vin tx) prevHeights Hlen
                (length (vin tx)) 0%nat (mkLockLoop (-1) (-1) prevHeights)
                eq_refl eq_refl (fun _ _ => eq_refl)) as Hloop.
  rewrite drop_0 in Hloop. simpl in Hloop. rewrite <- Hloop.
  destruct (sequence_lock_loop block (vin tx) (seq 0 (length (vin tx)))
              (mkLockLoop (-1) (-1) prevHeights)); reflexivity.
Qed.
End SequenceLockFacts.

(** C7.  For a transaction of version at least 2 evaluated with the
    verify-sequence flag, and any input coin heights, clearing the
    disable bit of one input's sequence number never lowers a component
    of the pair computed by [CalculateSequenceLocks]: whenever the run
    on the transaction with the bit cleared returns, so does the run on
    the original one, with a pair that is component-wise below or
    equal.  Both pairs are the element-wise maximum over the inputs
    whose disable bit is clear (an input with the bit set contributes
    nothing), and both runs return when every coin height has its
    ancestor in the chain of [block]. *)
Theorem CalculateSequenceLocks_monotone `{Consensus}
        (tx : CTransaction) (flags : Z) (prevHeights : list Z)
        (block : CBlockIndex) (k : nat) :
  2 <= uint32 (nVersion tx) ->
  has_flag flags LOCKTIME_VERIFY_SEQUENCE = true ->
  length prevHeights = length (vin tx) ->
  (forall lp' hs',
      CalculateSequenceLocks (enable_input k tx) flags prevHeights block = Some (lp', hs') ->
      exists lp hs,
        CalculateSequenceLocks tx flags prevHeights block = Some (lp, hs)
        /\ lp.1 <= lp'.1 /\ lp.2 <= lp'.2
        /\ lp = spec_sequence_locks block (zip (vin tx) prevHeights)
        /\ lp' = spec_sequence_locks block (zip (vin (enable_input k tx)) prevHeights))
  /\ ((forall i h, prevHeights !! i = Some h ->
                   is_Some (GetAncestor block (Z.max (int32 (h - 1)) 0))) ->
      is_Some (CalculateSequenceLocks (enable_input k tx) flags prevHeights block)).
Proof.
  intros Hver Hflag Hlen.
  assert (Henf : fEnforceBIP68 tx flags = true).
  { unfold fEnforceBIP68. rewrite Hflag, andb_true_r. by apply Z.leb_le. }
  assert (Hlen' : length prevHeights = length (vin (enable_input k tx))).
  { simpl. by rewrite length_alter. }
  pose proof (CalculateSequenceLocks_fold tx flags prevHeights block Hlen Henf) as Hf.
  pose proof (CalculateSequenceLocks_fold (enable_input k tx) flags prevHeights block
                Hlen' Henf) as Hf'.
  split.
  - intros [mh' mt'] hs' Hrun'. rewrite Hrun' in Hf'. simpl in Hf'.
    symmetry in Hf'.
    assert (Hdef : lock_defined block (zip (vin tx) prevHeights)).
    { apply (lock_defined_enable block (vin tx) prevHeights k).
      apply (lock_fold_is_Some _ _ (-1) (-1)). by eexists. }
    apply (lock_fold_is_Some _ _ (-1) (-1)) in Hdef as [[mh mt] Hfold].
    rewrite Hfold in Hf.
    destruct (CalculateSequenceLocks tx flags prevHeights block) as [[lp hs]|];
      [|discriminate].
    simpl in Hf. injection Hf as ->.
    exists (mh, mt), hs. split; [reflexivity|].
    apply lock_fold_spec in Hfold as [Hmh Hmt]; [|lia..].
    apply lock_fold_spec in Hf' as [Hmh' Hmt']; [|lia..].
    pose proof (spec_sequence_locks_ge block (zip (vin tx) prevHeights)) as [? ?].
    pose proof (spec_sequence_locks_ge block
                  (zip (vin (enable_input k tx)) prevHeights)) as [? ?].
    pose proof (spec_sequence_locks_enable block (vin tx) prevHeights k) as [Hle1 Hle2].
    change (alter clear_disable_flag k (vin tx)) with (vin (enable_input k tx)) in *.
    destruct (spec_sequence_locks block (zip (vin tx) prevHeights)) as [sh st].
    destruct (spec_sequence_locks block (zip (vin (enable_input k tx)) prevHeights))
      as [sh' st'].
    simpl in *.
    assert (mh = sh) by lia. assert (mt = st) by lia.
    assert (mh' = sh') by lia. assert (mt' = st') by lia.
    repeat split; try lia; f_equal; lia.
  - intros Hanc.
    pose proof (lock_defined_in_chain block (vin (enable_input k tx)) prevHeights Hanc)
      as Hdef.
    apply (lock_fold_is_Some _ _ (-1) (-1)) in Hdef as [r Hr].
    rewrite Hr in Hf'.
    destruct (CalculateSequenceLocks (enable_input k tx) flags prevHeights block);
      [by eexists | discriminate].
Qed.

(** ** Input checks *)

Section InputCheckFacts.
Context `{Consensus} `{Node}.

Lemma DoS_ret state level ret code reason corruption debug :
  (DoS state level ret code reason corruption debug).1 = ret.
Proof. unfold DoS. by destruct (mode state). Qed.

Lemma Invalid_ret state ret code reason debug :
  (Invalid state ret code reason debug).1 = ret.
Proof. apply DoS_ret. Qed.

Lemma DoS_reason state level ret code reason corruption debug :
  strRejectReason (DoS state level ret code reason corruption debug).2 = reason.
Proof. unfold DoS. by destruct (mode state). Qed.

Lemma DoS_code state level ret code reason corruption debug :
  chRejectCode (DoS state level ret code reason corruption debug).2 = code.
Proof. unfold DoS. by destruct (mode state). Qed.

Lemma check_tx_inputs_loop_app tx state inputs (l1 l2 : list CTxIn) :
  forall sh v,
    check_tx_inputs_loop tx state inputs (l1 ++ l2) sh v
    = match check_tx_inputs_loop tx state inputs l1 sh v with
      | Some (InputPassed sh' v') => check_tx_inputs_loop tx state inputs l2 sh' v'
      | other => other
      end.
Proof.
  induction l1 as [|txin l1 IH]; intros sh v; simpl; [reflexivity|].
  destruct (check_tx_input tx state inputs txin sh v) as [[res|sh' v']|];
    [reflexivity | apply IH | reflexivity].
Qed.

(** The cached spend height is either unset or the height of the
    block after the best block of the view. *)
Lemma check_tx_input_spend_height tx state inputs txin spend sh v sh' v' :
  GetSpendHeight inputs = Some spend ->
  sh = -1 \/ sh = spend ->
  check_tx_input tx state inputs txin sh v = Some (InputPassed sh' v') ->
  sh' = -1 \/ sh' = spend.
Proof.
  intros Hspend Hsh. unfold check_tx_input.
  destruct (AccessCoin inputs (prevout txin)) as [coin|]; simpl; [|discriminate].
  destruct (coin_IsCoinBase coin || IsCoinStake tx).
  - assert (Hget : (if sh =? -1 then GetSpendHeight inputs else Some sh) = Some spend).
    { destruct (Z.eqb_spec sh (-1)); [assumption | f_equal; lia]. }
    rewrite Hget. simpl.
    destruct (int64 (spend - coin_nHeight coin) <? COINBASE_MATURITY).
    + destruct chainActive_Tip as [tip|]; simpl; [|discriminate].
      destruct (1600000 <? nHeight tip); simpl; [discriminate|].
      destruct (_ || _); [discriminate|]. intros [= <- _]. by right.
    + simpl. destruct (_ || _); [discriminate|]. intros [= <- _]. by right.
  - simpl. destruct (_ || _); [discriminate|]. by intros [= <- _].
Qed.

Lemma check_tx_inputs_loop_spend_height tx state inputs spend (ins : list CTxIn) :
  GetSpendHeight inputs = Some spend ->
  forall sh v sh' v',
    sh = -1 \/ sh = spend ->
    check_tx_inputs_loop tx state inputs ins sh v = Some (InputPassed sh' v') ->
    sh' = -1 \/ sh' = spend.
Proof.
  intros Hspend. induction ins as [|txin rest IH]; intros sh v sh' v' Hsh; simpl.
  - by intros [= <- _].
  - destruct (check_tx_input tx state inputs txin sh v) as [[res|sh1 v1]|] eqn:Hstep;
      [discriminate| |discriminate].
    apply IH. eapply check_tx_input_spend_height; eauto.
Qed.

(** An immature coin under the maturity rule met past the hysteresis
    height. *)
Lemma check_tx_input_premature tx state inputs txin coin spend tip sh v :
  AccessCoin inputs (prevout txin) = Some coin ->
  coin_IsCoinBase coin || IsCoinStake tx = true ->
  GetSpendHeight inputs = Some spend ->
  int64 (spend - coin_nHeight coin) < COINBASE_MATURITY ->
  chainActive_Tip = Some tip ->
  1600000 < nHeight tip ->
  sh = -1 \/ sh = spend ->
  check_tx_input tx state inputs txin sh v
  = Some (InputRejected (premature_spend state)).
Proof.
  intros Hcoin Hcb Hspend Himm Htip Hhigh Hsh. unfold check_tx_input.
  rewrite Hcoin. simpl. rewrite Hcb. simpl.
  assert (Hget : (if sh =? -1 then GetSpendHeight inputs else Some sh) = Some spend).
  { destruct (Z.eqb_spec sh (-1)); [assumption | f_equal; lia]. }
  rewrite Hget. simpl.
  destruct (Z.ltb_spec (int64 (spend - coin_nHeight coin)) COINBASE_MATURITY); [|lia].
  rewrite Htip. simpl.
  destruct (Z.ltb_spec 1600000 (nHeight tip)); [reflexivity|lia].
Qed.

Lemma check_tx_input_rejected_false tx state inputs txin sh v res :
  check_tx_input tx state inputs txin sh v = Some (InputRejected res) ->
  res.1 = false.
Proof.
  unfold check_tx_input.
  destruct (AccessCoin inputs (prevout txin)) as [coin|]; simpl; [|discriminate].
  destruct (coin_IsCoinBase coin || IsCoinStake tx); simpl.
  - destruct (if sh =? -1 then GetSpendHeight inputs else Some sh) as [sh1|];
      simpl; [|discriminate].
    destruct (int64 (sh1 - coin_nHeight coin) <? COINBASE_MATURITY).
    + destruct chainActive_Tip as [tip|]; simpl; [|discriminate].
      destruct (1600000 <? nHeight tip); simpl.
      * intros [= <-]. apply DoS_ret.
      * destruct (_ || _); [|discriminate]. intros [= <-]. apply DoS_ret.
    + simpl. destruct (_ || _); [|discriminate]. intros [= <-]. apply DoS_ret.
  - destruct (_ || _); [|discriminate]. intros [= <-]. apply DoS_ret.
Qed.

Lemma check_tx_inputs_loop_rejected_false tx state inputs (ins : list CTxIn) :
  forall sh v res,
    check_tx_inputs_loop tx state inputs ins sh v = Some (InputRejected res) ->
    res.1 = false.
Proof.
  induction ins as [|txin rest IH]; intros sh v res; simpl; [discriminate|].
  destruct (check_tx_input tx state inputs txin sh v) as [[res1|sh1 v1]|] eqn:Hstep;
    [|apply IH|discriminate].
  intros [= <-]. eapply check_tx_input_rejected_false; eauto.
Qed.

(** Below the hysteresis height no input is rejected for immaturity. *)
Lemma check_tx_input_low_tip tx state inputs txin sh v res :
  (forall tip, chainActive_Tip = Some tip -> nHeight tip <= 1600000) ->
  check_tx_input tx state inputs txin sh v = Some (InputRejected res) ->
  strRejectReason res.2 = "bad-txns-inputvalues-outofrange".
Proof.
  intros Hlow. unfold check_tx_input.
  destruct (AccessCoin inputs (prevout txin)) as [coin|]; simpl; [|discriminate].
  destruct (coin_IsCoinBase coin || IsCoinStake tx); simpl.
  - destruct (if sh =? -1 then GetSpendHeight inputs else Some sh) as [sh1|];
      simpl; [|discriminate].
    destruct (int64 (sh1 - coin_nHeight coin) <? COINBASE_MATURITY).
    + destruct chainActive_Tip as [tip|]; simpl; [|discriminate].
      specialize (Hlow tip eq_refl).
      destruct (Z.ltb_spec 1600000 (nHeight tip)); [lia|]. simpl.
      destruct (_ || _); [|discriminate]. intros [= <-]. apply DoS_reason.
    + simpl. destruct (_ || _); [|discriminate]. intros [= <-]. apply DoS_reason.
  - destruct (_ || _); [|discriminate]. intros [= <-]. apply DoS_reason.
Qed.

Lemma check_tx_inputs_loop_low_tip tx state inputs (ins : list CTxIn) :
  (forall tip, chainActive_Tip = Some tip -> nHeight tip <= 1600000) ->
  forall sh v res,
    check_tx_inputs_loop tx state inputs ins sh v = Some (InputRejected res) ->
    strRejectReason res.2 = "bad-txns-inputvalues-outofrange".
Proof.
  intros Hlow. induction ins as [|txin rest IH]; intros sh v res; simpl; [discriminate|].
  destruct (check_tx_input tx state inputs txin sh v) as [[res1|sh1 v1]|] eqn:Hstep;
    [|apply IH|discriminate].
  intros [= <-]. eapply check_tx_input_low_tip; eauto.
Qed.
End InputCheckFacts.

(** A rejection returned through [DoS] with a reason other than the one
    in [Hreason]. *)
Ltac other_reason Hrun Hreason :=
  injection Hrun as Hrun; apply (f_equal snd) in Hrun; simpl in Hrun;
  rewrite <- Hrun, DoS_reason in Hreason; discriminate.

(** C4.  In [Consensus::CheckTxInputs], an input that spends a coin
    flagged coinbase (the flag of the unspent output record, set for
    outputs of coinbase and coinstake transactions), or any input of a
    transaction that is itself a coinstake, whose depth
    [nSpendHeight - coin.nHeight] is below [COINBASE_MATURITY]:
    once the active tip is above height 1600000 the transaction is never
    accepted, and the rejection is [bad-txns-premature-spend-of-coinbase]
    with code [REJECT_INVALID] when the inputs are available and the
    inputs before it pass; while the tip is at or below that height no
    rejection carries that reason. *)
Theorem CheckTxInputs_maturity `{Consensus} `{Node}
        (tx : CTransaction) (state : CValidationState) (inputs : CCoinsViewCache)
        (nSpendHeight : Z) (i : nat) (txin : CTxIn) (coin : Coin) (spend : Z) :
  vin tx !! i = Some txin ->
  AccessCoin inputs (prevout txin) = Some coin ->
  coin_IsCoinBase coin || IsCoinStake tx = true ->
  GetSpendHeight inputs = Some spend ->
  int64 (spend - coin_nHeight coin) < COINBASE_MATURITY ->
  (forall tip,
      chainActive_Tip = Some tip -> 1600000 < nHeight tip ->
      (forall st', CheckTxInputs tx state inputs nSpendHeight <> Some (true, st'))
      /\ (HaveInputs inputs tx = true ->
          (exists sh v, check_tx_inputs_loop tx state inputs (take i (vin tx)) (-1) 0
                        = Some (InputPassed sh v)) ->
          exists st',
            CheckTxInputs tx state inputs nSpendHeight = Some (false, st')
            /\ strRejectReason st' = "bad-txns-premature-spend-of-coinbase"
            /\ chRejectCode st' = REJECT_INVALID))
  /\ ((forall tip, chainActive_Tip = Some tip -> nHeight tip <= 1600000) ->
      forall st',
        CheckTxInputs tx state inputs nSpendHeight = Some (false, st') ->
        strRejectReason st' <> "bad-txns-premature-spend-of-coinbase").
Proof.
  intros Hi Hcoin Hcb Hspend Himm. split.
  - intros tip Htip Hhigh.
    assert (Hsplit : vin tx = take i (vin tx) ++ txin :: drop (S i) (vin tx)).
    { symmetry. by apply take_drop_middle. }
    assert (Hloop : forall sh v,
               check_tx_inputs_loop tx state inputs (take i (vin tx)) (-1) 0
               = Some (InputPassed sh v) ->
               check_tx_inputs_loop tx state inputs (vin tx) (-1) 0
               = Some (InputRejected (premature_spend state))).
    { intros sh v Hpre. rewrite Hsplit.
      rewrite check_tx_inputs_loop_app, Hpre. simpl.
      rewrite (check_tx_input_premature tx state inputs txin coin spend tip sh v);
        try assumption; [reflexivity|].
      apply (check_tx_inputs_loop_spend_height tx state inputs spend
               (take i (vin tx)) Hspend (-1) 0 sh v); [by left | exact Hpre]. }
    split.
    + intros st' Hrun. unfold CheckTxInputs in Hrun.
      destruct (HaveInputs inputs tx); simpl in Hrun.
      2:{ injection Hrun as Hrun. apply (f_equal fst) in Hrun.
          unfold Invalid in Hrun. rewrite DoS_ret in Hrun. discriminate. }
      destruct (check_tx_inputs_loop tx state inputs (take i (vin tx)) (-1) 0)
        as [[res|sh v]|] eqn:Hpre.
      * rewrite Hsplit, check_tx_inputs_loop_app, Hpre in Hrun. simpl in Hrun.
        injection Hrun as ->.
        apply check_tx_inputs_loop_rejected_false in Hpre. discriminate.
      * rewrite (Hloop sh v eq_refl) in Hrun. simpl in Hrun.
        injection Hrun as Hrun. apply (f_equal fst) in Hrun.
        unfold premature_spend, Invalid in Hrun. rewrite DoS_ret in Hrun. discriminate.
      * rewrite Hsplit, check_tx_inputs_loop_app, Hpre in Hrun. discriminate.
    + intros Hhave (sh & v & Hpre).
      exists (premature_spend state).2. unfold CheckTxInputs.
      rewrite Hhave. simpl. rewrite (Hloop sh v Hpre). simpl.
      unfold premature_spend, Invalid. split; [|split].
      * rewrite (surjective_pairing (DoS _ _ _ _ _ _ _)) at 1.
        by rewrite DoS_ret.
      * apply DoS_reason.
      * apply DoS_code.
  - intros Hlow st' Hrun Hreason. unfold CheckTxInputs in Hrun.
    destruct (HaveInputs inputs tx); simpl in Hrun.
    2:{ unfold Invalid in Hrun. other_reason Hrun Hreason. }
    destruct (check_tx_inputs_loop tx state inputs (vin tx) (-1) 0)
      as [[res|sh v]|] eqn:Hloop; simpl in Hrun; [| |discriminate].
    + injection Hrun as ->.
      apply (check_tx_inputs_loop_low_tip tx state inputs (vin tx) Hlow) in Hloop.
      simpl in Hloop. rewrite Hloop in Hreason. discriminate.
    + repeat match type of Hrun with
             | context [match GetCoinAge tx with _ => _ end] => destruct (GetCoinAge tx)
             | context [if ?c then _ else _] => destruct c
             end;
        try discriminate; other_reason Hrun Hreason.
Qed.

(** ** Context-free block check *)

Section BlockCheckFacts.
Context `{Consensus} `{BlockChecks}.

Lemma check_block_transactions_verdict (block : CBlock) (txs : list CTransaction) :
  forall S1 S2 st1 st2 ev1 ev2,
    loop_verdict (check_block_transactions S1 block txs st1 ev1)
    = loop_verdict (check_block_transactions S2 block txs st2 ev2).
Proof.
  induction txs as [|tx rest IH]; intros S1 S2 st1 st2 ev1 ev2; simpl; [reflexivity|].
  destruct (CheckTransaction tx) as [r|]; simpl.
  - by rewrite !Invalid_ret.
  - destruct (if nVersion tx =? 2
              then check_service_reference S1 block tx st1 ev1
              else (st1, ev1)) as [st1' ev1'].
    destruct (if nVersion tx =? 2
              then check_service_reference S2 block tx st2 ev2
              else (st2, ev2)) as [st2' ev2'].
    destruct (GetBlockTime block <? nTime tx); simpl.
    + by rewrite !DoS_ret.
    + apply IH.
Qed.

Lemma check_block_transactions_rejects (S : ServiceChannel) (block : CBlock)
      (txs : list CTransaction) :
  forall st ev ret st' ev',
    check_block_transactions S block txs st ev = inl (ret, st', ev') ->
    ret = false.
Proof.
  induction txs as [|tx rest IH]; intros st ev ret st' ev'; simpl; [discriminate|].
  destruct (CheckTransaction tx) as [r|]; simpl.
  - intros [= <- _ _]. apply Invalid_ret.
  - destruct (if nVersion tx =? 2
              then check_service_reference S block tx st ev
              else (st, ev)) as [st1 ev1].
    destruct (GetBlockTime block <? nTime tx); simpl.
    + intros [= <- _ _]. apply DoS_ret.
    + apply IH.
Qed.

Lemma check_block_transactions_timestamps (S : ServiceChannel) (block : CBlock)
      (txs : list CTransaction) :
  forall st ev st' ev',
    check_block_transactions S block txs st ev = inr (st', ev') ->
    Forall (fun tx => nTime tx <= GetBlockTime block) txs.
Proof.
  induction txs as [|tx rest IH]; intros st ev st' ev'; simpl; [constructor|].
  destruct (CheckTransaction tx) as [r|]; simpl; [discriminate|].
  destruct (if nVersion tx =? 2
            then check_service_reference S block tx st ev
            else (st, ev)) as [st1 ev1].
  destruct (Z.ltb_spec (GetBlockTime block) (nTime tx)); simpl; [discriminate|].
  intros Hrest. constructor; [assumption | eapply IH; eauto].
Qed.

Lemma check_block_transactions_fChecked (S : ServiceChannel) (block : CBlock) (b : bool)
      (txs : list CTransaction) :
  forall st ev,
    check_block_transactions S (set_fChecked block b) txs st ev
    = check_block_transactions S block txs st ev.
Proof.
  induction txs as [|tx rest IH]; intros st ev; simpl; [reflexivity|].
  destruct (CheckTransaction tx) as [r|]; [reflexivity|].
  unfold check_service_reference; simpl.
  change (GetBlockTime (set_fChecked block b)) with (GetBlockTime block).
  destruct (nVersion tx =? 2); [|destruct (_ <? _); [reflexivity | apply IH]].
  destruct (stx_lookup S (serviceReferenceHash tx)) as [stx|].
  - destruct (CheckServiceTransaction S stx tx st) as [ok st1].
    destruct ok; simpl; (destruct (_ <? _); [reflexivity | apply IH]).
  - destruct (_ <? _); [reflexivity | apply IH].
Qed.

(** A branch of [CheckBlock] that returns what [DoS] hands back. *)
Ltac rejected_case := simpl; rewrite ?DoS_ret, ?Invalid_ret.

Lemma CheckBlock_result_independent (block : CBlock) (fCheckPOW fCheckMerkleRoot : bool) :
  forall S1 S2 st1 st2,
    cb_result (CheckBlock S1 block st1 fCheckPOW fCheckMerkleRoot)
    = cb_result (CheckBlock S2 block st2 fCheckPOW fCheckMerkleRoot)
    /\ fChecked (cb_block (CheckBlock S1 block st1 fCheckPOW fCheckMerkleRoot))
       = fChecked (cb_block (CheckBlock S2 block st2 fCheckPOW fCheckMerkleRoot)).
Proof.
  intros S1 S2 st1 st2. unfold CheckBlock.
  destruct (fChecked block) eqn:Hc; [by rejected_case|].
  destruct (_ && _ && negb (CheckProofOfWork _)); [by rejected_case|].
  destruct (CheckBlockHeader _ _); [by rejected_case|].
  destruct (fCheckMerkleRoot && negb _); [by rejected_case|].
  destruct (fCheckMerkleRoot && _); [by rejected_case|].
  destruct (_ || _ || _); [by rejected_case|].
  destruct (match vtx block with [] => true | _ => _ end);
    [by rejected_case|].
  destruct (existsb IsCoinBase _); [by rejected_case|].
  destruct (existsb IsCoinStake _); [by rejected_case|].
  destruct (IsProofOfStake _ && _); [by rejected_case|].
  pose proof (check_block_transactions_verdict block (vtx block)
                S1 S2 st1 st2 [] []) as Hv.
  destruct (check_block_transactions S1 block (vtx block) st1 [])
    as [[[r1 s1] e1]|[s1 e1]];
    destruct (check_block_transactions S2 block (vtx block) st2 [])
    as [[[r2 s2] e2]|[s2 e2]]; simpl in Hv; try discriminate.
  - injection Hv as ->. by rejected_case.
  - destruct (_ <? _); [by rejected_case|].
    destruct (negb _); [by rejected_case|].
    simpl. by destruct (fCheckPOW && fCheckMerkleRoot).
Qed.

Lemma existsb_drop_false {A} (f : A -> bool) (n : nat) (l : list A) :
  existsb f (drop n l) = false ->
  forall i x, (n <= i)%nat -> l !! i = Some x -> f x = false.
Proof.
  intros Hex i x Hle Hx.
  destruct (f x) eqn:Hfx; [|reflexivity].
  assert (Hin : In x (drop n l)).
  { apply list_elem_of_In, list_elem_of_lookup. exists (i - n)%nat.
    rewrite lookup_drop. by replace (n + (i - n))%nat with i by lia. }
  assert (existsb f (drop n l) = true) by (apply existsb_exists; eauto).
  congruence.
Qed.

Lemma existsb_drop_true {A} (f : A -> bool) (n : nat) (l : list A) i x :
  (n <= i)%nat -> l !! i = Some x -> f x = true -> existsb f (drop n l) = true.
Proof.
  intros Hle Hx Hfx. apply existsb_exists. exists x. split; [|assumption].
  apply list_elem_of_In, list_elem_of_lookup. exists (i - n)%nat.
  rewrite lookup_drop. by replace (n + (i - n))%nat with i by lia.
Qed.

(** The loop over a list in two pieces. *)
Lemma check_block_transactions_app (S : ServiceChannel) (block : CBlock)
      (l1 l2 : list CTransaction) :
  forall st ev,
    check_block_transactions S block (l1 ++ l2) st ev
    = match check_block_transactions S block l1 st ev with
      | inl res => inl res
      | inr (st', ev') => check_block_transactions S block l2 st' ev'
      end.
Proof.
  induction l1 as [|tx rest IH]; intros st ev; simpl; [reflexivity|].
  destruct (CheckTransaction tx); [reflexivity|].
  destruct (if nVersion tx =? 2
            then check_service_reference S block tx st ev
            else (st, ev)) as [st1 ev1].
  destruct (GetBlockTime block <? nTime tx); [reflexivity | apply IH].
Qed.

(** Nothing is taken from the trace. *)
Lemma check_service_reference_trace (S : ServiceChannel) (block : CBlock)
      (tx : CTransaction) (st : CValidationState) (ev : list Event) :
  ev `prefix_of` (check_service_reference S block tx st ev).2.
Proof.
  unfold check_service_reference.
  destruct (stx_lookup S (serviceReferenceHash tx)) as [stx|]; [|by eexists].
  destruct (CheckServiceTransaction S stx tx st) as [ok st1].
  destruct ok; by eexists.
Qed.

Lemma check_block_transactions_trace (S : ServiceChannel) (block : CBlock)
      (txs : list CTransaction) :
  forall st ev, ev `prefix_of` loop_events (check_block_transactions S block txs st ev).
Proof.
  induction txs as [|tx rest IH]; intros st ev; simpl; [reflexivity|].
  destruct (CheckTransaction tx); [reflexivity|].
  assert (Hstep : ev `prefix_of` (if nVersion tx =? 2
                                  then check_service_reference S block tx st ev
                                  else (st, ev)).2).
  { destruct (nVersion tx =? 2); [apply check_service_reference_trace | reflexivity]. }
  destruct (if nVersion tx =? 2
            then check_service_reference S block tx st ev
            else (st, ev)) as [st1 ev1].
  simpl in Hstep.
  destruct (GetBlockTime block <? nTime tx); simpl.
  - etransitivity; [exact Hstep|]. by eexists.
  - etransitivity; [exact Hstep | apply IH].
Qed.

(** Past the checks before the loop, the trace of the loop is the
    beginning of the trace of [CheckBlock]. *)
Lemma CheckBlock_loop_trace (S : ServiceChannel) (block : CBlock)
      (state : CValidationState) (fCheckPOW fCheckMerkleRoot : bool) :
  reaches_transaction_loop block fCheckPOW fCheckMerkleRoot = true ->
  loop_events (check_block_transactions S block (vtx block) state [])
  `prefix_of` cb_events (CheckBlock S block state fCheckPOW fCheckMerkleRoot).
Proof.
  unfold reaches_transaction_loop, reaches_coinbase_rule, CheckBlock.
  rewrite !andb_true_iff, !negb_true_iff, bool_decide_eq_true.
  intros (((((((((Hc & Hp) & Hh) & Hm1) & Hm2) & Hs) & Ha) & Hb) & Hcs) & Hd).
  rewrite Hc, Hp, Hh, Hm1, Hm2, Hs, Ha, Hb, Hcs, Hd.
  destruct (check_block_transactions S block (vtx block) state [])
    as [[[ret st] ev]|[st ev]]; simpl; [reflexivity|].
  unfold rejected.
  destruct (MAX_BLOCK_SIGOPS <? block_sigops (vtx block)); simpl; [by eexists|].
  destruct (negb (CheckBlockSignature _ _ _)); simpl; [by eexists | reflexivity].
Qed.

(** A block that is not marked as checked is accepted only when the
    loop has gone through all its transactions. *)
Lemma CheckBlock_accepted_loop (S : ServiceChannel) (block : CBlock)
      (state : CValidationState) (fCheckPOW fCheckMerkleRoot : bool) :
  fChecked block = false ->
  cb_result (CheckBlock S block state fCheckPOW fCheckMerkleRoot) = true ->
  reaches_transaction_loop block fCheckPOW fCheckMerkleRoot = true
  /\ exists st ev, check_block_transactions S block (vtx block) state [] = inr (st, ev).
Proof.
  intros Hc. unfold reaches_transaction_loop, reaches_coinbase_rule, CheckBlock.
  rewrite Hc. cbn [negb andb].
  destruct (_ && _ && negb (CheckProofOfWork _)); [by rejected_case|].
  destruct (CheckBlockHeader _ _); [done|].
  rewrite (bool_decide_eq_true_2 _ eq_refl).
  destruct (fCheckMerkleRoot && negb _); [by rejected_case|].
  destruct (fCheckMerkleRoot && _); [by rejected_case|].
  destruct (_ || _ || _); [by rejected_case|].
  destruct (match vtx block with [] => true | _ => _ end); [by rejected_case|].
  destruct (existsb IsCoinBase _); [by rejected_case|].
  destruct (existsb IsCoinStake _); [by rejected_case|].
  destruct (IsProofOfStake _ && _); [by rejected_case|].
  destruct (check_block_transactions S block (vtx block) state [])
    as [[[r s] e]|[s e]] eqn:Hloop.
  - simpl. intros ->. by apply check_block_transactions_rejects in Hloop.
  - intros _. split; [reflexivity | by eexists _, _].
Qed.

(** The loop at a transaction of version 2 that it reaches: the trace
    of the service branch is part of the trace of [CheckBlock]. *)
Lemma CheckBlock_service_trace (S : ServiceChannel) (block : CBlock)
      (state : CValidationState) (fCheckPOW fCheckMerkleRoot : bool)
      (before after : list CTransaction) (tx : CTransaction)
      (st : CValidationState) (events : list Event) :
  reaches_transaction_loop block fCheckPOW fCheckMerkleRoot = true ->
  vtx block = before ++ tx :: after ->
  check_block_transactions S block before state [] = inr (st, events) ->
  CheckTransaction tx = None ->
  nVersion tx = 2 ->
  (check_service_reference S block tx st events).2
  `prefix_of` cb_events (CheckBlock S block state fCheckPOW fCheckMerkleRoot).
Proof.
  intros Hreach Hsplit Hbefore Hct Hv.
  etransitivity; [|by apply CheckBlock_loop_trace].
  rewrite Hsplit, check_block_transactions_app, Hbefore.
  cbn [check_block_transactions]. rewrite Hct, Hv. simpl.
  destruct (check_service_reference S block tx st events) as [st2 ev2]. simpl.
  destruct (GetBlockTime block <? nTime tx); simpl.
  - by eexists.
  - apply check_block_transactions_trace.
Qed.

(** The loop that has gone through a list has gone through every
    beginning of it. *)
Lemma check_block_transactions_before (S : ServiceChannel) (block : CBlock)
      (before rest : list CTransaction) (state st : CValidationState)
      (ev0 ev : list Event) :
  check_block_transactions S block (before ++ rest) state ev0 = inr (st, ev) ->
  exists st1 ev1, check_block_transactions S block before state ev0 = inr (st1, ev1).
Proof.
  rewrite check_block_transactions_app.
  destruct (check_block_transactions S block before state ev0) as [res|[st1 ev1]];
    [discriminate | by eexists _, _].
Qed.

(** A block that is not marked as checked and is accepted. *)
Lemma CheckBlock_unchecked_accepts (S : ServiceChannel) (block : CBlock)
      (state : CValidationState) (fCheckPOW fCheckMerkleRoot : bool) :
  fChecked block = false ->
  cb_result (CheckBlock S block state fCheckPOW fCheckMerkleRoot) = true ->
  coinbase_shape (vtx block)
  /\ Forall (fun tx => nTime tx <= GetBlockTime block) (vtx block).
Proof.
  intros Hc. unfold CheckBlock. rewrite Hc.
  destruct (_ && _ && negb (CheckProofOfWork _)); [by rejected_case|].
  destruct (CheckBlockHeader _ _); [done|].
  destruct (fCheckMerkleRoot && negb _); [by rejected_case|].
  destruct (fCheckMerkleRoot && _); [by rejected_case|].
  destruct (_ || _ || _); [by rejected_case|].
  destruct (match vtx block with [] => true | _ => _ end) eqn:Hfirst;
    [by rejected_case|].
  destruct (existsb IsCoinBase _) eqn:Hcb; [by rejected_case|].
  destruct (existsb IsCoinStake _) eqn:Hcs; [by rejected_case|].
  destruct (IsProofOfStake _ && _); [by rejected_case|].
  destruct (check_block_transactions S block (vtx block) state [])
    as [[[r s] e]|[s e]] eqn:Hloop.
  - simpl. intros ->. by apply check_block_transactions_rejects in Hloop.
  - intros _. split; [|by eapply check_block_transactions_timestamps].
    split; [|split].
    + destruct (vtx block) as [|tx0 rest]; [discriminate|].
      exists tx0. split; [reflexivity|]. by destruct (IsCoinBase tx0).
    + by apply existsb_drop_false.
    + by apply existsb_drop_false.
Qed.

(** The same under the soundness of the cached flag. *)
Lemma CheckBlock_accepts (S : ServiceChannel) (block : CBlock)
      (state : CValidationState) (fCheckPOW fCheckMerkleRoot : bool) :
  fChecked_sound block ->
  cb_result (CheckBlock S block state fCheckPOW fCheckMerkleRoot) = true ->
  coinbase_shape (vtx block)
  /\ Forall (fun tx => nTime tx <= GetBlockTime block) (vtx block).
Proof.
  intros Hsound Hacc. destruct (fChecked block) eqn:Hc.
  - apply (CheckBlock_unchecked_accepts S (set_fChecked block false) state true true);
      [reflexivity | by apply Hsound].
  - by apply (CheckBlock_unchecked_accepts S block state fCheckPOW fCheckMerkleRoot).
Qed.

(** [CheckBlock] keeps the cached flag sound: a block that has never
    been checked is sound, and so is the block every call leaves. *)
Lemma fChecked_sound_fresh (block : CBlock) :
  fChecked block = false -> fChecked_sound block.
Proof. intros Hc Ht. congruence. Qed.

Lemma CheckBlock_preserves_fChecked_sound (S : ServiceChannel) (block : CBlock)
      (state : CValidationState) (fCheckPOW fCheckMerkleRoot : bool) :
  fChecked_sound block ->
  fChecked_sound (cb_block (CheckBlock S block state fCheckPOW fCheckMerkleRoot)).
Proof.
  intros Hsound.
  destruct (fChecked block) eqn:Hc.
  { unfold CheckBlock. by rewrite Hc. }
  assert (Hsame : forall b, cb_block (CheckBlock S block state fCheckPOW fCheckMerkleRoot)
                            = b -> b = block \/
            (b = set_fChecked block true /\ fCheckPOW = true /\ fCheckMerkleRoot = true
             /\ cb_result (CheckBlock S block state fCheckPOW fCheckMerkleRoot) = true)).
  { intros b <-. unfold CheckBlock. rewrite Hc.
    repeat match goal with
           | |- context [if ?c then _ else _] => destruct c eqn:?
           | |- context [match ?x with inl _ => _ | inr _ => _ end] =>
               destruct x as [[[? ?] ?]|[? ?]] eqn:?
           | |- context [match CheckBlockHeader ?a ?b with _ => _ end] =>
               destruct (CheckBlockHeader a b) eqn:?
           end; simpl; auto.
    right. destruct fCheckPOW, fCheckMerkleRoot; try discriminate. auto. }
  destruct (Hsame _ eq_refl) as [-> | (-> & -> & -> & Hacc)]; [assumption|].
  intros _ S' state'.
  replace (set_fChecked (set_fChecked block true) false) with block
    by (destruct block; simpl in *; by subst).
  etransitivity; [|exact Hacc].
  apply (CheckBlock_result_independent block true true S' S state' state).
Qed.
End BlockCheckFacts.

(** C3.  [CheckBlock] accepts a block only if its first transaction is a
    coinbase, no transaction at an index of 1 or more is a coinbase and
    no transaction at an index of 2 or more is a coinstake.  A block
    with two transactions marked as coinbase is never accepted; when the
    checks before the coinbase rule pass and the first transaction is a
    coinbase, a second coinbase is rejected with reason
    [bad-cb-multiple], and the block is not marked as checked.  The
    block is any block whose cached flag is sound, as [CheckBlock]
    leaves it. *)
Theorem CheckBlock_coinbase_rule `{Consensus} `{BlockChecks}
        (S : ServiceChannel) (block : CBlock) (state : CValidationState)
        (fCheckPOW fCheckMerkleRoot : bool) :
  fChecked_sound block ->
  (cb_result (CheckBlock S block state fCheckPOW fCheckMerkleRoot) = true ->
   coinbase_shape (vtx block))
  /\ (forall i j txi txj,
         i <> j -> vtx block !! i = Some txi -> vtx block !! j = Some txj ->
         IsCoinBase txi = true -> IsCoinBase txj = true ->
         cb_result (CheckBlock S block state fCheckPOW fCheckMerkleRoot) = false)
  /\ (reaches_coinbase_rule block fCheckPOW fCheckMerkleRoot = true ->
      forall tx0 i txi,
        vtx block !! 0%nat = Some tx0 -> IsCoinBase tx0 = true ->
        (1 <= i)%nat -> vtx block !! i = Some txi -> IsCoinBase txi = true ->
        let r := CheckBlock S block state fCheckPOW fCheckMerkleRoot in
        cb_result r = false
        /\ strRejectReason (cb_state r) = "bad-cb-multiple"
        /\ chRejectCode (cb_state r) = REJECT_INVALID
        /\ nDoS (cb_state r) = (if mode state is MODE_ERROR then nDoS state
                                else nDoS state + 100)
        /\ fChecked (cb_block r) = false).
Proof.
  intros Hsound.
  assert (Hshape : cb_result (CheckBlock S block state fCheckPOW fCheckMerkleRoot) = true ->
                   coinbase_shape (vtx block)).
  { intros Hacc. by apply (CheckBlock_accepts S block state fCheckPOW fCheckMerkleRoot). }
  split; [exact Hshape|]. split.
  - intros i j txi txj Hij Hi Hj Hcbi Hcbj.
    destruct (cb_result (CheckBlock S block state fCheckPOW fCheckMerkleRoot)) eqn:Hres;
      [|reflexivity].
    destruct (Hshape eq_refl) as (_ & Hrest & _).
    destruct (decide (1 <= i)%nat) as [Hi1|Hi0].
    + rewrite (Hrest i txi Hi1 Hi) in Hcbi. discriminate.
    + assert (Hj1 : (1 <= j)%nat) by lia.
      rewrite (Hrest j txj Hj1 Hj) in Hcbj. discriminate.
  - intros Hreach tx0 i txi H0tx Hcb0 Hi1 Hi Hcbi.
    unfold reaches_coinbase_rule in Hreach.
    repeat (apply andb_true_iff in Hreach as [Hreach ?]).
    repeat match goal with
           | Hn : negb _ = true |- _ => apply negb_true_iff in Hn
           | Hd : bool_decide _ = true |- _ => apply bool_decide_eq_true in Hd
           end.
    assert (Hmulti : existsb IsCoinBase (drop 1 (vtx block)) = true)
      by (eapply existsb_drop_true; eauto).
    unfold CheckBlock.
    repeat match goal with
           | Hx : ?c = false |- context [if ?c then _ else _] => rewrite Hx
           | Hx : ?c = None |- context [match ?c with _ => _ end] => rewrite Hx
           end.
    destruct (vtx block) as [|tx0' rest] eqn:Hvtx; [discriminate|].
    injection H0tx as ->. rewrite Hcb0. cbn [negb]. rewrite Hmulti.
    cbn [rejected cb_result cb_state cb_block].
    rewrite DoS_ret, DoS_reason, DoS_code.
    repeat split; try assumption.
    unfold DoS. by destruct (mode state).
Qed.

(** C10.  [CheckBlock] rejects every block that contains a transaction
    whose [nTime] is strictly greater than the block's timestamp; the
    block is any block whose cached flag is sound. *)
Theorem CheckBlock_rejects_late_transaction `{Consensus} `{BlockChecks}
        (S : ServiceChannel) (block : CBlock) (state : CValidationState)
        (fCheckPOW fCheckMerkleRoot : bool) (tx : CTransaction) :
  fChecked_sound block ->
  tx ∈ vtx block ->
  GetBlockTime block < nTime tx ->
  cb_result (CheckBlock S block state fCheckPOW fCheckMerkleRoot) = false.
Proof.
  intros Hsound Hin Hlate.
  destruct (cb_result (CheckBlock S block state fCheckPOW fCheckMerkleRoot)) eqn:Hres;
    [|reflexivity].
  destruct (CheckBlock_accepts S block state fCheckPOW fCheckMerkleRoot Hsound Hres)
    as [_ Htimes].
  rewrite Forall_forall in Htimes. specialize (Htimes tx Hin). lia.
Qed.

(** C8.  For a transaction of version 2, neither the absence of the
    referenced service transaction nor the failure of its validation
    makes [CheckBlock] reject: the value [CheckBlock] returns, and
    whether it marks the block as checked, are the same whatever the
    service mempool holds and whatever the service checks answer, so
    that every check that follows is made all the same.  When
    [CheckBlock] reaches such a transaction in its loop, the trace of
    the call holds, after what was traced before, the request of the
    absent service transaction from the peers, or the log line of the
    failed validation.  In particular the trace of every call that
    accepts a block not yet marked as checked holds the request for
    each absent service transaction, and the log line for each service
    transaction whose validation fails. *)
Theorem CheckBlock_service_transaction_non_fatal `{Consensus} `{BlockChecks}
        (S S' : ServiceChannel) (block : CBlock) (state state' : CValidationState)
        (fCheckPOW fCheckMerkleRoot : bool) :
  let r := CheckBlock S block state fCheckPOW fCheckMerkleRoot in
  let failed := EvLog "CheckBlock(): CheckServiceTransaction failed. This is a non fatal error" in
  cb_result r = cb_result (CheckBlock S' block state' fCheckPOW fCheckMerkleRoot)
  /\ fChecked (cb_block r)
     = fChecked (cb_block (CheckBlock S' block state' fCheckPOW fCheckMerkleRoot))
  /\ (forall before tx after st events,
         reaches_transaction_loop block fCheckPOW fCheckMerkleRoot = true ->
         vtx block = before ++ tx :: after ->
         check_block_transactions S block before state [] = inr (st, events) ->
         CheckTransaction tx = None ->
         nVersion tx = 2 ->
         (stx_lookup S (serviceReferenceHash tx) = None ->
          (events ++ [EvLog "tx pays for service transaction but none can be found";
                      EvLog "Requesting stx";
                      EvAskFor (serviceReferenceHash tx)])
          `prefix_of` cb_events r)
         /\ (forall stx st1,
                stx_lookup S (serviceReferenceHash tx) = Some stx ->
                CheckServiceTransaction S stx tx st = (false, st1) ->
                (events ++ [failed]) `prefix_of` cb_events r))
  /\ (fChecked block = false ->
      cb_result r = true ->
      forall tx, tx ∈ vtx block -> nVersion tx = 2 ->
        (stx_lookup S (serviceReferenceHash tx) = None ->
         EvAskFor (serviceReferenceHash tx) ∈ cb_events r)
        /\ (forall stx,
               stx_lookup S (serviceReferenceHash tx) = Some stx ->
               (forall st, (CheckServiceTransaction S stx tx st).1 = false) ->
               failed ∈ cb_events r)).
Proof.
  intros r failed. subst r failed.
  split; [apply CheckBlock_result_independent|].
  split; [apply CheckBlock_result_independent|].
  assert (Hat : forall before tx after st events,
             reaches_transaction_loop block fCheckPOW fCheckMerkleRoot = true ->
             vtx block = before ++ tx :: after ->
             check_block_transactions S block before state [] = inr (st, events) ->
             CheckTransaction tx = None ->
             nVersion tx = 2 ->
             (stx_lookup S (serviceReferenceHash tx) = None ->
              (events ++ [EvLog "tx pays for service transaction but none can be found";
                          EvLog "Requesting stx";
                          EvAskFor (serviceReferenceHash tx)])
              `prefix_of` cb_events (CheckBlock S block state fCheckPOW fCheckMerkleRoot))
             /\ (forall stx st1,
                    stx_lookup S (serviceReferenceHash tx) = Some stx ->
                    CheckServiceTransaction S stx tx st = (false, st1) ->
                    (events
                       ++ [EvLog "CheckBlock(): CheckServiceTransaction failed. This is a non fatal error"])
                    `prefix_of` cb_events (CheckBlock S block state fCheckPOW fCheckMerkleRoot))).
  { intros before tx after st events Hreach Hsplit Hbefore Hct Hv.
    pose proof (CheckBlock_service_trace S block state fCheckPOW fCheckMerkleRoot
                  before after tx st events Hreach Hsplit Hbefore Hct Hv) as Htrace.
    unfold check_service_reference in Htrace. split.
    - intros Hnone. by rewrite Hnone in Htrace.
    - intros stx st1 Hsome Hfail. by rewrite Hsome, Hfail in Htrace. }
  split; [exact Hat|].
  intros Hc Hacc tx Hin Hv.
  destruct (CheckBlock_accepted_loop S block state fCheckPOW fCheckMerkleRoot Hc Hacc)
    as (Hreach & st' & ev' & Hloop).
  apply list_elem_of_split in Hin as (before & after & Hsplit).
  rewrite Hsplit in Hloop.
  destruct (check_block_transactions_before _ _ _ _ _ _ _ _ Hloop) as (st & events & Hbefore).
  assert (Hct : CheckTransaction tx = None).
  { rewrite check_block_transactions_app, Hbefore in Hloop.
    cbn [check_block_transactions] in Hloop.
    by destruct (CheckTransaction tx). }
  destruct (Hat before tx after st events Hreach Hsplit Hbefore Hct Hv) as [Habsent Hfailed].
  split.
  - intros Hnone. destruct (Habsent Hnone) as [k ->].
    rewrite !elem_of_app, !elem_of_cons. tauto.
  - intros stx Hsome Hfail.
    destruct (CheckServiceTransaction S stx tx st) as [ok st1] eqn:Hcheck.
    assert (ok = false) as -> by (specialize (Hfail st); by rewrite Hcheck in Hfail).
    destruct (Hfailed stx st1 Hsome Hcheck) as [k ->].
    rewrite !elem_of_app, !elem_of_cons. tauto.
Qed.

(** ** Flush policy *)

(** Membership of an event in a trace that is a concrete list. *)
Ltac in_trace :=
  simpl; rewrite ?elem_of_app, ?elem_of_cons, ?elem_of_nil; tauto.

Ltac not_in_trace Hin :=
  simpl in Hin; rewrite ?elem_of_app, ?elem_of_cons, ?elem_of_nil in Hin;
  repeat match type of Hin with
         | _ \/ _ => destruct Hin as [Hin|Hin]
         end;
  first [discriminate Hin | contradiction | idtac].

Section FlushFacts.
Context `{FlushEnv}.






End FlushFacts.


(** ** Mempool admission *)

Section AdmissionFacts.
Context `{Consensus} `{Node} `{BlockChecks} `{Policy}.

(** *** Looking up coins leaves the UTXO set as it is *)

Lemma tip_GetCoin_spec (tip : CoinsTip) (o : COutPoint) :
  (tip_GetCoin tip o).1 = tip_utxo tip o
  /\ tip_base (tip_GetCoin tip o).2 = tip_base tip
  /\ tip_hashBlock (tip_GetCoin tip o).2 = tip_hashBlock tip
  /\ (forall o', tip_utxo (tip_GetCoin tip o).2 o' = tip_utxo tip o').
Proof.
  unfold tip_GetCoin, tip_utxo.
  destruct (tip_cache tip !! o) as [e|] eqn:Hc; simpl; [done|].
  destruct (tip_base tip !! o) as [c|] eqn:Hb; simpl; [|done].
  repeat split; try reflexivity. intros o'.
  destruct (decide (o = o')) as [<-|Hne].
  - by rewrite lookup_insert_eq, Hc, Hb.
  - by rewrite lookup_insert_ne.
Qed.

Lemma mempool_GetCoin_spec (pool : CTxMemPool) (tip : CoinsTip) (o : COutPoint) :
  tip_base (mempool_GetCoin pool tip o).2 = tip_base tip
  /\ (forall o', tip_utxo (mempool_GetCoin pool tip o).2 o' = tip_utxo tip o')
  /\ (pool_output pool o = None -> tip_utxo tip o = None ->
      (mempool_GetCoin pool tip o).1 = None)
  /\ (is_Some (mempool_GetCoin pool tip o).1 ->
      is_Some (pool_output pool o) \/ is_Some (tip_utxo tip o)).
Proof.
  unfold mempool_GetCoin, pool_output.
  destruct (tip_GetCoin_spec tip o) as (Hres & Hbase & _ & Hutxo).
  destruct (mapTx pool !! o.1) as [ptx|]; simpl.
  - destruct (vout ptx !! Z.to_nat o.2) as [out|]; simpl;
      repeat split; try reflexivity; try discriminate; intros; try tauto.
    + left. by eexists.
    + by destruct H3.
  - repeat split; try assumption.
    + intros _ Hnone. by rewrite Hres.
    + rewrite Hres. by right.
Qed.

Lemma note_input_spec (view : CCoinsViewCache) (txin : CTxIn) (w : World) :
  view_sound (w_pool w) (w_tip w) view ->
  let r := note_input view txin w in
  w_state r.2 = w_state w /\ w_pool r.2 = w_pool w
  /\ w_relay r.2 = w_relay w /\ w_events r.2 = w_events w
  /\ same_utxo (w_tip w) (w_tip r.2)
  /\ view_sound (w_pool w) (w_tip w) r.1
  /\ (w_missing w = Some true -> w_missing r.2 = Some true)
  /\ (is_Some (w_missing w) -> is_Some (w_missing r.2))
  /\ (pool_output (w_pool w) (prevout txin) = None ->
      tip_utxo (w_tip w) (prevout txin) = None ->
      w_missing r.2 = Some true).
Proof.
  intros Hsound. unfold note_input.
  set (w1 := if negb (tip_HaveCoinInCache (w_tip w) (prevout txin))
             then push_uncache w (prevout txin) else w).
  assert (Hw1 : w_state w1 = w_state w /\ w_pool w1 = w_pool w /\ w_tip w1 = w_tip w
                /\ w_relay w1 = w_relay w /\ w_events w1 = w_events w
                /\ w_missing w1 = w_missing w).
  { subst w1. by destruct (negb _). }
  destruct Hw1 as (Hst & Hpool & Htip & Hrel & Hev & Hmiss).
  unfold view_FetchCoin. rewrite Hpool, Htip.
  destruct (cacheCoins view !! prevout txin) as [c|] eqn:Hview; simpl.
  - rewrite Hmiss. repeat split; try assumption; try done.
    intros Hp Hu. destruct (Hsound _ _ Hview) as [[? Hx]|[? Hx]]; congruence.
  - destruct (mempool_GetCoin_spec (w_pool w) (w_tip w) (prevout txin))
      as (Hbase & Hutxo & Hnone & Hsome).
    destruct (mempool_GetCoin (w_pool w) (w_tip w) (prevout txin)) as [[c|] tip'] eqn:Hget;
      simpl in *.
    + rewrite Hmiss. repeat split; try assumption; try done.
      * intros o c'. simpl. destruct (decide (prevout txin = o)) as [<-|Hne].
        -- intros _. apply Hsome. by eexists.
        -- rewrite lookup_insert_ne by assumption. apply Hsound.
      * intros Hp Hu. specialize (Hnone Hp Hu). discriminate.
    + repeat split; try assumption; try done.
Qed.

Lemma view_sound_same_utxo pool tip tip' view :
  same_utxo tip tip' -> view_sound pool tip view -> view_sound pool tip' view.
Proof.
  intros [_ Hu] Hs o c Hc. rewrite Hu. by apply (Hs o c).
Qed.

Lemma note_inputs_spec (ins : list CTxIn) :
  forall (view : CCoinsViewCache) (w : World),
    view_sound (w_pool w) (w_tip w) view ->
    let r := note_inputs view ins w in
    w_state r.2 = w_state w /\ w_pool r.2 = w_pool w
    /\ w_relay r.2 = w_relay w /\ w_events r.2 = w_events w
    /\ same_utxo (w_tip w) (w_tip r.2)
    /\ (w_missing w = Some true -> w_missing r.2 = Some true)
    /\ (is_Some (w_missing w) -> is_Some (w_missing r.2))
    /\ (forall txin, txin ∈ ins ->
                     pool_output (w_pool w) (prevout txin) = None ->
                     tip_utxo (w_tip w) (prevout txin) = None ->
                     w_missing r.2 = Some true).
Proof.
  induction ins as [|txin rest IH]; intros view w Hsound; simpl.
  - repeat split; try done. intros txin Hin. by apply elem_of_nil in Hin.
  - pose proof (note_input_spec view txin w Hsound) as Hstep. simpl in Hstep.
    destruct (note_input view txin w) as [view1 w1] eqn:Hn. simpl in Hstep.
    destruct Hstep as (Hst & Hpool & Hrel & Hev & Hsame & Hsound1 & Hkeep & Hsome & Hmiss).
    assert (Hsound1' : view_sound (w_pool w1) (w_tip w1) view1).
    { rewrite Hpool. by apply (view_sound_same_utxo _ (w_tip w)). }
    specialize (IH view1 w1 Hsound1'). simpl in IH.
    destruct IH as (Hst' & Hpool' & Hrel' & Hev' & Hsame' & Hkeep' & Hsome' & Hmiss').
    destruct Hsame as [Hb Hu]. destruct Hsame' as [Hb' Hu'].
    do 4 (split; [congruence|]).
    split; [split; [congruence | intros o; by rewrite Hu', Hu]|].
    split; [auto|]. split; [auto|].
    intros txin' Hin Hp Hnone. apply elem_of_cons in Hin as [->|Hin].
    + apply Hkeep'. by apply Hmiss.
    + apply (Hmiss' txin' Hin); [by rewrite Hpool | by rewrite Hu].
Qed.

(** *** Steps that leave the pool as it is *)

Lemma pp_ret {A} (a : A) : preserves_pool (adm_ret a).
Proof. by intros w r w' [= _ <-]. Qed.

Lemma pp_return {A} (b : bool) : preserves_pool (adm_return (A:=A) b).
Proof. by intros w r w' [= _ <-]. Qed.

Lemma pp_reject {A} f : preserves_pool (adm_reject (A:=A) f).
Proof. by intros w r w' [= _ <-]. Qed.

Lemma pp_crash {A} : preserves_pool (adm_crash (A:=A)).
Proof. by intros w r w'. Qed.

Lemma pp_get : preserves_pool adm_get.
Proof. by intros w r w' [= _ <-]. Qed.

Lemma pp_modify f :
  (forall w, w_pool (f w) = w_pool w) -> preserves_pool (adm_modify f).
Proof. intros Hf w r w' [= _ <-]. apply Hf. Qed.

Lemma pp_state {A} (f : World -> A * World) :
  (forall w, w_pool (f w).2 = w_pool w) -> preserves_pool (adm_state f).
Proof. intros Hf w r w' [= _ <-]. apply Hf. Qed.

Lemma pp_bind {A B} (m : Adm A) (k : A -> Adm B) :
  preserves_pool m -> (forall a, preserves_pool (k a)) ->
  preserves_pool (adm_bind m k).
Proof.
  intros Hm Hk w r w'. unfold adm_bind.
  destruct (m w) as [[[b|a] w1]|] eqn:Hmw; [| |discriminate].
  - intros [= _ <-]. by eapply Hm.
  - intros Hka. rewrite (Hk a w1 r w' Hka). by eapply Hm.
Qed.

Lemma pp_when (c : bool) (m : Adm unit) :
  preserves_pool m -> preserves_pool (adm_when c m).
Proof. intros Hm. destruct c; [exact Hm | apply pp_ret]. Qed.

Ltac pool_kept :=
  repeat first
    [ apply pp_ret | apply pp_return | apply pp_reject | apply pp_crash
    | apply pp_get
    | apply pp_modify; intros ?; reflexivity
    | apply pp_when
    | apply pp_bind; [|intros ?]
    | match goal with
      | |- preserves_pool (match ?x with _ => _ end) => destruct x
      end ].

Lemma note_inputs_pool (ins : list CTxIn) :
  forall view w, w_pool (note_inputs view ins w).2 = w_pool w.
Proof.
  induction ins as [|txin rest IH]; intros view w; simpl; [reflexivity|].
  destruct (note_input view txin w) as [view1 w1] eqn:Hn.
  rewrite IH. unfold note_input in Hn.
  destruct (view_FetchCoin _ _ view (prevout txin)) as [[found tip'] view'].
  injection Hn as _ <-.
  destruct found, (negb _); reflexivity.
Qed.

Lemma fetch_inputs_pool (ins : list CTxIn) :
  forall view w, w_pool (fetch_inputs view ins w).2 = w_pool w.
Proof.
  induction ins as [|txin rest IH]; intros view w; simpl; [reflexivity|].
  destruct (view_FetchCoin _ _ view (prevout txin)) as [[found tip'] view'].
  by rewrite IH.
Qed.

Lemma admission_prechecks_pool tx : preserves_pool (admission_prechecks tx).
Proof. unfold admission_prechecks. pool_kept. Qed.

Lemma admission_inputs_exist_pool tx view :
  preserves_pool (admission_inputs_exist tx view).
Proof.
  unfold admission_inputs_exist. pool_kept.
  apply pp_state. intros w. by rewrite note_inputs_pool.
Qed.

Lemma CheckSequenceLocks_pool tx flags lp useExisting :
  preserves_pool (CheckSequenceLocks tx flags lp useExisting).
Proof. unfold CheckSequenceLocks. pool_kept. Qed.

Lemma admission_policy_pool tx hash view fLimitFree fRejectAbsurdFee :
  preserves_pool (admission_policy tx hash view fLimitFree fRejectAbsurdFee).
Proof.
  unfold admission_policy.
  apply pp_bind.
  { apply pp_state. intros w. simpl.
    destruct (IsCoinBase tx); [reflexivity | apply fetch_inputs_pool]. }
  intros view1. apply pp_bind; [apply CheckSequenceLocks_pool|]. intros r.
  pool_kept.
Qed.

Lemma admission_before_scripts_pool tx fLimitFree fRejectAbsurdFee :
  preserves_pool (admission_before_scripts tx fLimitFree fRejectAbsurdFee).
Proof.
  unfold admission_before_scripts.
  apply pp_bind; [apply admission_prechecks_pool|]. intros hash.
  apply pp_bind; [apply admission_inputs_exist_pool|]. intros view.
  apply pp_bind; [apply admission_policy_pool|]. intros vl.
  apply pp_ret.
Qed.

(** *** The two passes of [CheckInputs] *)

Lemma CheckTxInputs_accepts tx state inputs n st' :
  CheckTxInputs tx state inputs n = Some (true, st') -> st' = state.
Proof.
  unfold CheckTxInputs.
  destruct (negb (HaveInputs inputs tx)).
  { intros [= Hr]. apply (f_equal fst) in Hr. rewrite Invalid_ret in Hr. discriminate. }
  simpl.
  destruct (check_tx_inputs_loop tx state inputs (vin tx) (-1) 0)
    as [[res|sh v]|] eqn:Hloop; simpl; [| |discriminate].
  - intros [= ->]. apply check_tx_inputs_loop_rejected_false in Hloop. discriminate.
  - repeat match goal with
           | |- context [match GetCoinAge tx with _ => _ end] => destruct (GetCoinAge tx)
           | |- context [if ?c then _ else _] => destruct c
           end;
      intros [= Hr];
      first [ by injection Hr
            | apply (f_equal fst) in Hr; rewrite DoS_ret in Hr; discriminate
            | idtac ].
    all: try (by inversion Hr).
Qed.






(** What has passed the checks before the scripts. *)
(** What the checks before the input lookup have established when they
    let a transaction through. *)
Lemma admission_prechecks_passed tx w hash w' :
  admission_prechecks tx w = Some (inr hash, w') ->
  w' = w /\ hash = GetHash tx
  /\ CheckTransaction tx = None
  /\ IsCoinBase tx || IsCoinStake tx = false
  /\ pool_exists (w_pool w) (GetHash tx) = false
  /\ existsb (fun txin => bool_decide (is_Some (mapNextTx (w_pool w) !! prevout txin)))
             (vin tx) = false.
Proof.
  unfold admission_prechecks.
  destruct (CheckTransaction tx) as [r|]; [discriminate|].
  unfold adm_bind, adm_when, adm_reject, adm_get, adm_ret.
  destruct (IsCoinBase tx || IsCoinStake tx); [discriminate|].
  destruct (if fRequireStandard then IsStandardTx tx else None); [discriminate|].
  destruct (CheckFinalTx tx STANDARD_LOCKTIME_VERIFY_FLAGS) as [final|]; [|discriminate].
  destruct (negb final); [discriminate|].
  destruct (pool_exists (w_pool w) (GetHash tx)); [discriminate|].
  destruct (existsb _ (vin tx)); [discriminate|].
  by intros [= <- <-].
Qed.


Lemma admission_before_scripts_passed tx fLimitFree fRejectAbsurdFee w hv w' :
  admission_before_scripts tx fLimitFree fRejectAbsurdFee w = Some (inr hv, w') ->
  hv.1 = GetHash tx
  /\ IsCoinBase tx || IsCoinStake tx = false
  /\ pool_exists (w_pool w) (GetHash tx) = false
  /\ existsb (fun txin => bool_decide (is_Some (mapNextTx (w_pool w) !! prevout txin)))
             (vin tx) = false.
Proof.
  unfold admission_before_scripts. unfold adm_bind at 1.
  destruct (admission_prechecks tx w) as [[[b|hash] w1]|] eqn:Hpre; [discriminate| |discriminate].
  apply admission_prechecks_passed in Hpre as (-> & -> & _ & Hcb & Hnew & Hconf).
  unfold adm_bind at 1.
  destruct (admission_inputs_exist tx _ w) as [[[b|view] w2]|]; [discriminate| |discriminate].
  unfold adm_bind, adm_ret.
  destruct (admission_policy tx (GetHash tx) view fLimitFree fRejectAbsurdFee w2)
    as [[[b|vl] w3]|]; [discriminate| |discriminate].
  by intros [= <- _].
Qed.



End AdmissionFacts.

(** C6, amended.  A structurally valid transaction that is neither a
    coinbase nor a coinstake, that passes the standardness and finality
    checks, that is not in the pool and conflicts with no pool
    transaction, is submitted by a caller that passes the
    missing-inputs flag.  If one of its inputs references a coin that
    neither the UTXO view nor the outputs of pool transactions hold,
    [AcceptToMemoryPool] returns false with the flag set to true and the
    validation state untouched; the mempool, the persistent store and
    the UTXO set that the view represents are unchanged (coins that were
    looked up stay in the cache of the view). *)
Theorem AcceptToMemoryPool_missing_inputs
        `{Consensus} `{Node} `{BlockChecks} `{Policy}
        (w : World) (tx : CTransaction)
        (fLimitFree fOverrideMempoolLimit fRejectAbsurdFee : bool)
        (m0 : bool) (txin : CTxIn) :
  CheckTransaction tx = None ->
  IsCoinBase tx = false ->
  IsCoinStake tx = false ->
  (if fRequireStandard then IsStandardTx tx else None) = None ->
  CheckFinalTx tx STANDARD_LOCKTIME_VERIFY_FLAGS = Some true ->
  pool_exists (w_pool w) (GetHash tx) = false ->
  (forall i, i ∈ vin tx -> mapNextTx (w_pool w) !! prevout i = None) ->
  w_missing w = Some m0 ->
  txin ∈ vin tx ->
  pool_output (w_pool w) (prevout txin) = None ->
  tip_utxo (w_tip w) (prevout txin) = None ->
  exists w',
    AcceptToMemoryPool w tx fLimitFree fOverrideMempoolLimit fRejectAbsurdFee
    = Some (false, w')
    /\ w_missing w' = Some true
    /\ w_state w' = w_state w
    /\ w_pool w' = w_pool w
    /\ tip_base (w_tip w') = tip_base (w_tip w)
    /\ (forall o, tip_utxo (w_tip w') o = tip_utxo (w_tip w) o)
    /\ w_relay w' = w_relay w
    /\ w_events w' = w_events w.
Proof.
  intros Hct Hcb Hcs Hstd Hfinal Hnew Hconf Hflag Hin Hpool Hutxo.
  set (w0 := set_uncache_empty w).
  assert (Hpre : admission_prechecks tx w0 = Some (inr (GetHash tx), w0)).
  { unfold admission_prechecks. rewrite Hct, Hcb, Hcs, Hstd, Hfinal. simpl.
    unfold adm_bind, adm_when, adm_get, adm_ret. simpl. rewrite Hnew.
    assert (Hex : existsb (fun i => bool_decide (is_Some (mapNextTx (w_pool w) !! prevout i)))
                          (vin tx) = false).
    { apply not_true_is_false. intros Hex. apply existsb_exists in Hex as (i & Hi & Hsome).
      apply bool_decide_eq_true in Hsome as [? Hsome].
      apply list_elem_of_In in Hi. rewrite (Hconf i Hi) in Hsome. discriminate. }
    by rewrite Hex. }
  pose proof (note_inputs_spec (vin tx) (mkView ∅ 0) (set_missing w0 (Some false))) as Hnote.
  simpl in Hnote.
  destruct Hnote as (Hst & Hp & Hrel & Hev & [Hbase Hsame] & _ & _ & Hmiss).
  { intros o c Hc. simpl in Hc. by rewrite lookup_empty in Hc. }
  specialize (Hmiss txin Hin Hpool Hutxo).
  exists (note_inputs (mkView ∅ 0) (vin tx) (set_missing w0 (Some false))).2.
  split; [|by repeat split].
  unfold AcceptToMemoryPool, AcceptToMemoryPoolWorker, adm_run,
    AcceptToMemoryPoolWorker_steps, admission_before_scripts.
  fold w0. unfold adm_bind at 1 2 3. rewrite Hpre.
  unfold admission_inputs_exist, adm_bind, adm_get, adm_state. simpl.
  rewrite Hflag. simpl. rewrite Hmiss. simpl. rewrite Hmiss. reflexivity.
Qed.


(* ===================================================================== *)
(** * Part III. The theorems at sample inputs                             *)
(* ===================================================================== *)

(** A transaction without a lock time is final at every height and time. *)
Lemma IsFinalTx_characterisation_witness :
  nLockTime Sample.coinbase = 0
  /\ forall h t, @IsFinalTx Sample.consensus Sample.coinbase h t = true.
Proof.
  split; [reflexivity|].
  apply (proj1 (proj2 (@IsFinalTx_characterisation
                         Sample.consensus Sample.coinbase 0 0))).
  reflexivity.
Defined.

(** A transaction locked until height 2000000 with a non-final input is
    not final at height 1700001. *)
Example IsFinalTx_locked :
  @IsFinalTx Sample.consensus (Sample.locked_spend (9, 0)) 1700001 1000000000 = false.
Proof. reflexivity. Qed.

(** The block at height 3 against the lock pair (1, 1000): the parent's
    median time past is 1200. *)
Lemma EvaluateSequenceLocks_strict_witness :
  pprev (Sample.chain 3) = Some (Sample.chain 2)
  /\ exists b,
      @EvaluateSequenceLocks Sample.consensus (Sample.chain 3) (1, 1000) = Some b
      /\ (b = true <->
          1 < nHeight (Sample.chain 3)
          /\ 1000 < @GetMedianTimePast Sample.consensus (Sample.chain 2)).
Proof.
  split; [reflexivity|].
  destruct (@EvaluateSequenceLocks_strict Sample.consensus
              (Sample.chain 3) (Sample.chain 2) 1 1000 eq_refl)
    as (b & Hrun & Hiff & _).
  exists b. split; assumption.
Defined.

Example EvaluateSequenceLocks_tie :
  @EvaluateSequenceLocks Sample.consensus (Sample.chain 3) (3, 0) = Some false
  /\ @EvaluateSequenceLocks Sample.consensus (Sample.chain 3) (2, 1200) = Some false
  /\ @EvaluateSequenceLocks Sample.consensus (Sample.chain 3) (2, 1199) = Some true.
Proof. repeat split. Qed.

(** Clearing the disable bit of input 0 raises the minimum height from
    13 to 52. *)
Example CalculateSequenceLocks_sample :
  @CalculateSequenceLocks Sample.consensus Sample.relative_locked 1 [3; 4]
                          (Sample.chain 20)
  = Some ((13, -1), [0; 4])
  /\ @CalculateSequenceLocks Sample.consensus
       (@enable_input Sample.consensus 0 Sample.relative_locked) 1 [3; 4]
       (Sample.chain 20)
     = Some ((52, -1), [3; 4]).
Proof. split; reflexivity. Qed.

Lemma CalculateSequenceLocks_monotone_witness :
  2 <= uint32 (nVersion Sample.relative_locked)
  /\ has_flag 1 (@LOCKTIME_VERIFY_SEQUENCE Sample.consensus) = true
  /\ length [3; 4] = length (vin Sample.relative_locked)
  /\ exists lp hs,
      @CalculateSequenceLocks Sample.consensus Sample.relative_locked 1 [3; 4]
                              (Sample.chain 20) = Some (lp, hs)
      /\ lp.1 <= 52 /\ lp.2 <= -1.
Proof.
  assert (Hver : 2 <= uint32 (nVersion Sample.relative_locked)) by (vm_compute; discriminate).
  split; [exact Hver|]. split; [reflexivity|]. split; [reflexivity|].
  destruct (@CalculateSequenceLocks_monotone Sample.consensus
              Sample.relative_locked 1 [3; 4] (Sample.chain 20) 0%nat
              Hver eq_refl eq_refl) as [Hmono _].
  destruct (Hmono (52, -1) [3; 4] eq_refl) as (lp & hs & Hrun & Hh & Ht & _).
  exists lp, hs. split; [exact Hrun|]. split; assumption.
Defined.

(** A coinbase output of depth 11, maturity 30, tip at height 1700000. *)
Lemma CheckTxInputs_maturity_witness :
  vin (Sample.spend (7, 0) 100) !! 0%nat = Some (mkTxIn (7, 0) [] 4294967295)
  /\ AccessCoin (Sample.view_of Sample.young_coinbase_coin) (7, 0)
     = Some Sample.young_coinbase_coin
  /\ coin_IsCoinBase Sample.young_coinbase_coin
     || @IsCoinStake Sample.consensus (Sample.spend (7, 0) 100) = true
  /\ @GetSpendHeight Sample.node (Sample.view_of Sample.young_coinbase_coin)
     = Some 1700001
  /\ int64 (1700001 - coin_nHeight Sample.young_coinbase_coin)
     < @COINBASE_MATURITY Sample.consensus
  /\ exists st',
      @CheckTxInputs Sample.consensus Sample.node (Sample.spend (7, 0) 100)
                     state_valid (Sample.view_of Sample.young_coinbase_coin) 0
      = Some (false, st')
      /\ strRejectReason st' = "bad-txns-premature-spend-of-coinbase"
      /\ chRejectCode st' = REJECT_INVALID.
Proof.
  assert (Himm : int64 (1700001 - coin_nHeight Sample.young_coinbase_coin)
                 < @COINBASE_MATURITY Sample.consensus) by (vm_compute; reflexivity).
  do 4 (split; [reflexivity|]). split; [exact Himm|].
  destruct (@CheckTxInputs_maturity Sample.consensus Sample.node
              (Sample.spend (7, 0) 100) state_valid
              (Sample.view_of Sample.young_coinbase_coin) 0 0%nat
              (mkTxIn (7, 0) [] 4294967295) Sample.young_coinbase_coin 1700001
              eq_refl eq_refl eq_refl eq_refl Himm) as [Hhigh _].
  assert (Htip : 1600000 < nHeight Sample.high_tip) by (vm_compute; reflexivity).
  destruct (Hhigh Sample.high_tip eq_refl Htip) as [_ Hreason].
  apply Hreason; [reflexivity|]. exists (-1), 0. reflexivity.
Defined.

(** The same spend while the tip is at height 1000 is accepted. *)
Example CheckTxInputs_early_spend :
  @CheckTxInputs Sample.consensus Sample.early_node (Sample.spend (7, 0) 100)
                 state_valid (mkView {[ (7, 0) := mkCoin (mkTxOut 1000 [1]) 990 true ]} 42) 0
  = Some (true, state_valid).
Proof. reflexivity. Qed.

(** A block with a second coinbase at index 2. *)
Lemma CheckBlock_coinbase_rule_witness :
  let block := Sample.block_of [Sample.coinbase; Sample.spend (7, 0) 100; Sample.coinbase]
                               200 in
  let r := @CheckBlock Sample.consensus Sample.checks Sample.no_service block
                       state_valid true true in
  @fChecked_sound Sample.consensus Sample.checks block
  /\ @reaches_coinbase_rule Sample.consensus Sample.checks block true true = true
  /\ cb_result r = false
  /\ strRejectReason (cb_state r) = "bad-cb-multiple".
Proof.
  intros block r.
  assert (Hsound : @fChecked_sound Sample.consensus Sample.checks block)
    by (intros Hc; discriminate Hc).
  split; [exact Hsound|]. split; [reflexivity|].
  destruct (@CheckBlock_coinbase_rule Sample.consensus Sample.checks
              Sample.no_service block state_valid true true Hsound)
    as (_ & _ & Hmulti).
  destruct (Hmulti eq_refl Sample.coinbase 2%nat Sample.coinbase
                   eq_refl eq_refl (le_S _ _ (le_n 1)) eq_refl eq_refl)
    as (Hres & Hreason & _).
  split; assumption.
Defined.

(** A block at time 200 with a transaction at time 300. *)
Lemma CheckBlock_rejects_late_transaction_witness :
  let block := Sample.block_of [Sample.coinbase; Sample.spend (7, 0) 300] 200 in
  @fChecked_sound Sample.consensus Sample.checks block
  /\ Sample.spend (7, 0) 300 ∈ vtx block
  /\ GetBlockTime block < nTime (Sample.spend (7, 0) 300)
  /\ cb_result (@CheckBlock Sample.consensus Sample.checks Sample.no_service block
                            state_valid true true) = false.
Proof.
  intros block.
  assert (Hsound : @fChecked_sound Sample.consensus Sample.checks block)
    by (intros Hc; discriminate Hc).
  assert (Hin : Sample.spend (7, 0) 300 ∈ vtx block)
    by (apply elem_of_cons; right; apply elem_of_cons; left; reflexivity).
  assert (Hlate : GetBlockTime block < nTime (Sample.spend (7, 0) 300))
    by (vm_compute; reflexivity).
  split; [exact Hsound|]. split; [exact Hin|]. split; [exact Hlate|].
  exact (@CheckBlock_rejects_late_transaction Sample.consensus Sample.checks
           Sample.no_service block state_valid true true
           (Sample.spend (7, 0) 300) Hsound Hin Hlate).
Defined.

(** A block whose second transaction references service transaction 77:
    accepted when the service mempool is empty and when the service
    check fails. *)
Lemma CheckBlock_service_transaction_non_fatal_witness :
  let block := Sample.block_of [Sample.coinbase; Sample.service_spend] 200 in
  let absent := @CheckBlock Sample.consensus Sample.checks Sample.no_service block
                            state_valid true true in
  let invalid := @CheckBlock Sample.consensus Sample.checks Sample.failing_service block
                             state_valid true true in
  cb_result invalid = cb_result absent
  /\ cb_result absent = true
  /\ EvAskFor 77 ∈ cb_events absent
  /\ EvLog "CheckBlock(): CheckServiceTransaction failed. This is a non fatal error"
     ∈ cb_events invalid.
Proof.
  intros block absent invalid.
  assert (Hin : Sample.service_spend ∈ vtx block)
    by (apply elem_of_cons; right; apply elem_of_cons; left; reflexivity).
  destruct (@CheckBlock_service_transaction_non_fatal Sample.consensus Sample.checks
              Sample.failing_service Sample.no_service block
              state_valid state_valid true true) as (Hsame & _ & _ & Hinvalid).
  destruct (@CheckBlock_service_transaction_non_fatal Sample.consensus Sample.checks
              Sample.no_service Sample.failing_service block
              state_valid state_valid true true) as (_ & _ & _ & Habsent).
  split; [exact Hsame|]. split; [reflexivity|]. split.
  - exact (proj1 (Habsent eq_refl eq_refl Sample.service_spend Hin eq_refl) eq_refl).
  - apply (proj2 (Hinvalid eq_refl eq_refl Sample.service_spend Hin eq_refl) tt eq_refl).
    intros st. apply DoS_ret.
Defined.

Example CheckBlock_service_absent_or_invalid :
  let block := Sample.block_of [Sample.coinbase; Sample.service_spend] 200 in
  let absent := @CheckBlock Sample.consensus Sample.checks Sample.no_service block
                            state_valid true true in
  let invalid := @CheckBlock Sample.consensus Sample.checks Sample.failing_service block
                             state_valid true true in
  cb_result absent = true
  /\ cb_events absent
     = [EvLog "tx pays for service transaction but none can be found";
        EvLog "Requesting stx"; EvAskFor 77]
  /\ cb_result invalid = true
  /\ cb_events invalid
     = [EvLog "CheckBlock(): CheckServiceTransaction failed. This is a non fatal error"].
Proof. repeat split. Qed.



(** A periodic call after the write interval and before the flush
    interval writes the batch and leaves the cache. *)
Example FlushStateToDisk_periodic_write :
  fl_events (@FlushStateToDisk (Sample.flush_env IoOk IoOk IoOk)
               (mkFlushGlobals 1000000000 4000000000 4000000000 {[ 1 ]} {[ 0 ]} 0 1500000)
               state_valid FLUSH_STATE_PERIODIC)
  = [EvFlushBlockFile; EvWriteBatchSync [0] 0 [1] true].
Proof. reflexivity. Qed.

(** A final transaction whose only input names the unknown outpoint (9, 0). *)
Lemma AcceptToMemoryPool_missing_inputs_witness :
  let w := Sample.world (Some false) in
  let tx := Sample.spend (9, 0) 100 in
  @CheckTransaction Sample.consensus tx = None
  /\ @CheckFinalTx Sample.consensus Sample.node Sample.policy tx 3 = Some true
  /\ pool_output (w_pool w) (9, 0) = None
  /\ tip_utxo (w_tip w) (9, 0) = None
  /\ exists w',
      @AcceptToMemoryPool Sample.consensus Sample.node Sample.checks Sample.policy
                          w tx true false true = Some (false, w')
      /\ w_missing w' = Some true
      /\ w_state w' = w_state w
      /\ w_pool w' = w_pool w.
Proof.
  intros w tx. do 4 (split; [reflexivity|]).
  destruct (@AcceptToMemoryPool_missing_inputs
              Sample.consensus Sample.node Sample.checks Sample.policy
              w tx true false true false (mkTxIn (9, 0) [] 4294967295)
              eq_refl eq_refl eq_refl eq_refl eq_refl eq_refl)
    as (w' & Hrun & Hflag & Hst & Hpool & _).
  - intros i Hi. reflexivity.
  - reflexivity.
  - apply elem_of_cons; left; reflexivity.
  - reflexivity.
  - reflexivity.
  - exists w'. repeat split; assumption.
Defined.

(** The same unknown outpoint spent by a transaction that is not final:
    the transaction is structurally valid and neither coinbase nor
    coinstake, yet the flag stays false and the state is marked invalid
    with reason [non-final]. *)
Lemma AcceptToMemoryPool_non_final_counterexample :
  let w := Sample.world (Some false) in
  let tx := Sample.locked_spend (9, 0) in
  @CheckTransaction Sample.consensus tx = None
  /\ @IsCoinBase Sample.consensus tx = false
  /\ @IsCoinStake Sample.consensus tx = false
  /\ pool_output (w_pool w) (9, 0) = None
  /\ tip_utxo (w_tip w) (9, 0) = None
  /\ ~ (exists w',
          @AcceptToMemoryPool Sample.consensus Sample.node Sample.checks Sample.policy
                              w tx true false true = Some (false, w')
          /\ w_missing w' = Some true
          /\ IsInvalid (w_state w') = false).
Proof.
  intros w tx. do 5 (split; [reflexivity|]).
  intros (w' & Hrun & Hflag & _).
  vm_compute in Hrun. injection Hrun as <-. discriminate Hflag.
Qed.

Example AcceptToMemoryPool_non_final_outcome :
  exists w',
    @AcceptToMemoryPool Sample.consensus Sample.node Sample.checks Sample.policy
                        (Sample.world (Some false)) (Sample.locked_spend (9, 0))
                        true false true = Some (false, w')
    /\ w_missing w' = Some false
    /\ IsInvalid (w_state w') = true
    /\ strRejectReason (w_state w') = "non-final".
Proof. eexists. repeat split. Qed.

(** A caller that passes no flag: the unknown input is met by
    [CheckInputs], and the state is marked invalid. *)
Example AcceptToMemoryPool_no_flag :
  exists w',
    @AcceptToMemoryPool Sample.consensus Sample.node Sample.checks Sample.policy
                        (Sample.world None) (Sample.spend (9, 0) 100)
                        true false true = Some (false, w')
    /\ w_missing w' = None
    /\ IsInvalid (w_state w') = true.
Proof. eexists. repeat split. Qed.



(** The same divergence on the view that holds the coin alone. *)
Example CheckInputs_passes_can_diverge :
  let tx := Sample.spend (7, 0) 100 in
  let view := Sample.view_of Sample.coin in
  ~ (forall st1,
        @CheckInputs Sample.consensus Sample.lenient_node tx state_valid view
                     true (@STANDARD_SCRIPT_VERIFY_FLAGS Sample.lenient_node) true false
        = Some (true, st1) ->
        @CheckInputs Sample.consensus Sample.lenient_node tx st1 view
                     true (@MANDATORY_SCRIPT_VERIFY_FLAGS Sample.lenient_node) true false
        = Some (true, st1)).
Proof.
  intros tx view Hall. specialize (Hall state_valid eq_refl).
  vm_compute in Hall. discriminate Hall.
Qed.

(** The worker then reports the bug and returns false, the pool
    unchanged. *)
Example AcceptToMemoryPoolWorker_divergence :
  exists w',
    @AcceptToMemoryPoolWorker Sample.consensus Sample.lenient_node Sample.checks
      Sample.policy (Sample.world (Some false)) (Sample.spend (7, 0) 100) true false true
    = Some (false, w')
    /\ w_pool w' = w_pool (Sample.world (Some false))
    /\ last (w_events w')
       = Some (EvError "BUG! PLEASE REPORT THIS! ConnectInputs failed against MANDATORY but not STANDARD flags").
Proof. eexists. repeat split. Qed.

(* ===================================================================== *)
(** * Part IV. Further properties of the code                             *)
(* ===================================================================== *)

(** ** Values within the machine ranges, and what a rejection leaves *)

Lemma uint32_small (x : Z) : 0 <= x < 2 ^ 32 -> uint32 x = x.
Proof. intros Hx. unfold uint32, wrap_unsigned. by apply Z.mod_small. Qed.

Lemma int32_small (x : Z) : - 2 ^ 31 <= x < 2 ^ 31 -> int32 x = x.
Proof.
  intros Hx. unfold int32, wrap_signed.
  change (2 ^ (32 - 1)) with (2 ^ 31). change (2 ^ 32) with (2 * 2 ^ 31).
  rewrite Z.mod_small; lia.
Qed.

Lemma uint32_range (x : Z) : 0 <= uint32 x < 2 ^ 32.
Proof. unfold uint32, wrap_unsigned. apply Z.mod_pos_bound. lia. Qed.

Lemma int64_small (x : Z) : - 2 ^ 63 <= x < 2 ^ 63 -> int64 x = x.
Proof.
  intros Hx. unfold int64, wrap_signed.
  change (2 ^ (64 - 1)) with (2 ^ 63). change (2 ^ 64) with (2 * 2 ^ 63).
  rewrite Z.mod_small; lia.
Qed.

Lemma DoS_nDoS st level ret code reason corruption debug :
  nDoS (DoS st level ret code reason corruption debug).2
  = match mode st with MODE_ERROR => nDoS st | _ => nDoS st + level end.
Proof. unfold DoS. by destruct (mode st). Qed.

Lemma DoS_debug st level ret code reason corruption debug :
  strDebugMessage (DoS st level ret code reason corruption debug).2 = debug.
Proof. unfold DoS. by destruct (mode st). Qed.

Lemma DoS_mode st level ret code reason corruption debug :
  mode (DoS st level ret code reason corruption debug).2 <> MODE_VALID.
Proof. unfold DoS. by destruct (mode st). Qed.

Lemma Error_mode st msg : mode (Error st msg).2 = MODE_ERROR.
Proof. reflexivity. Qed.

Lemma Error_ret st msg : (Error st msg).1 = false.
Proof. reflexivity. Qed.

(** ** Sequence locks: the vector of heights and the verdict *)

Section SequenceLockMore.
Context `{Consensus}.

(** The vector of heights through the loop: an entry is overwritten
    with 0 at a disabled input and kept elsewhere. *)
Lemma sequence_lock_loop_heights (block : CBlockIndex) (ins : list CTxIn) :
  forall (idxs : list nat) (st st' : LockLoop),
    sequence_lock_loop block ins idxs st = Some st' ->
    length (heights st') = length (heights st)
    /\ forall j,
        heights st' !! j
        = match ins !! j with
          | Some txin =>
              if bool_decide (j ∈ idxs)
                 && has_flag (nSequence txin) SEQUENCE_LOCKTIME_DISABLE_FLAG
                 && bool_decide (j < length (heights st))%nat
              then Some 0 else heights st !! j
          | None => heights st !! j
          end.
Proof.
  induction idxs as [|i rest IH]; intros st st'; simpl.
  - intros [= <-]. split; [reflexivity|]. intros j.
    destruct (ins !! j); reflexivity.
  - destruct (sequence_lock_step block ins st i) as [st1|] eqn:Hstep; [|discriminate].
    intros Hrest. apply IH in Hrest as [Hlen Hrest].
    unfold sequence_lock_step in Hstep.
    destruct (ins !! i) as [txin|] eqn:Hi; simpl in Hstep; [|discriminate].
    destruct (has_flag (nSequence txin) SEQUENCE_LOCKTIME_DISABLE_FLAG) eqn:Hd.
    + destruct (decide (i < length (heights st))%nat) as [Hin|]; [|discriminate].
      injection Hstep as <-. simpl in *. rewrite length_insert in Hlen.
      split; [exact Hlen|]. intros j. rewrite Hrest, length_insert.
      destruct (ins !! j) as [txj|] eqn:Hj.
      * destruct (decide (j = i)) as [->|Hne].
        -- assert (txj = txin) by congruence. subst txj. rewrite Hd.
           rewrite (bool_decide_eq_true_2 (i ∈ i :: rest)) by (apply elem_of_cons; by left).
           rewrite (bool_decide_eq_true_2 (i < length (heights st))%nat) by assumption.
           rewrite list_lookup_insert_eq by assumption.
           simpl. by destruct (bool_decide (i ∈ rest)).
        -- rewrite list_lookup_insert_ne by congruence.
           assert (Hmem : bool_decide (j ∈ i :: rest) = bool_decide (j ∈ rest)).
           { apply bool_decide_ext. rewrite elem_of_cons. intuition congruence. }
           by rewrite Hmem.
      * destruct (decide (j = i)) as [->|Hne]; [congruence|].
        by rewrite list_lookup_insert_ne by congruence.
    + simpl in Hstep.
      assert (Hhs : heights st1 = heights st).
      { destruct (heights st !! i) as [h|]; simpl in Hstep; [|discriminate].
        destruct (has_flag (nSequence txin) SEQUENCE_LOCKTIME_TYPE_FLAG).
        - destruct (GetAncestor block _); simpl in Hstep; [|discriminate].
          by injection Hstep as <-.
        - by injection Hstep as <-. }
      rewrite Hhs in *. split; [exact Hlen|]. intros j. rewrite Hrest.
      destruct (ins !! j) as [txj|] eqn:Hj; [|reflexivity].
      destruct (decide (j = i)) as [->|Hne].
      * assert (txj = txin) by congruence. subst txj. rewrite Hd.
        by rewrite !andb_false_r.
      * assert (Hmem : bool_decide (j ∈ i :: rest) = bool_decide (j ∈ rest)).
        { apply bool_decide_ext. rewrite elem_of_cons. intuition congruence. }
        by rewrite Hmem.
Qed.

(** A contributing input bounds the element-wise maximum from below. *)
Lemma spec_sequence_locks_bound (block : CBlockIndex) (l : list (CTxIn * Z)) :
  forall i txin h,
    l !! i = Some (txin, h) ->
    contributes txin = true ->
    if has_flag (nSequence txin) SEQUENCE_LOCKTIME_TYPE_FLAG
    then forall t, coin_time block h = Some t ->
                   time_constraint txin t <= (spec_sequence_locks block l).2
    else height_constraint txin h <= (spec_sequence_locks block l).1.
Proof.
  induction l as [|[txin0 h0] rest IH]; intros i txin h Hi Hc; [done|].
  destruct i as [|i]; simpl in Hi.
  - injection Hi as -> ->. simpl.
    destruct (spec_sequence_locks block rest) as [mh mt]. rewrite Hc.
    destruct (has_flag (nSequence txin) SEQUENCE_LOCKTIME_TYPE_FLAG).
    + intros t ->. simpl. lia.
    + simpl. lia.
  - specialize (IH i txin h Hi Hc). simpl.
    destruct (spec_sequence_locks block rest) as [mh mt]. simpl in IH.
    destruct (has_flag (nSequence txin) SEQUENCE_LOCKTIME_TYPE_FLAG).
    + intros t Ht. specialize (IH t Ht).
      destruct (contributes txin0); [|simpl; lia].
      destruct (has_flag (nSequence txin0) SEQUENCE_LOCKTIME_TYPE_FLAG);
        [destruct (coin_time block h0)|]; simpl; lia.
    + destruct (contributes txin0); [|simpl; lia].
      destruct (has_flag (nSequence txin0) SEQUENCE_LOCKTIME_TYPE_FLAG);
        [destruct (coin_time block h0)|]; simpl; lia.
Qed.

(** [CalculateSequenceLocks] returns only on a vector of heights with
    one entry per input. *)
Lemma CalculateSequenceLocks_length (tx : CTransaction) (flags : Z) (prevHeights : list Z)
      (block : CBlockIndex) (r : Z * Z * list Z) :
  CalculateSequenceLocks tx flags prevHeights block = Some r ->
  length prevHeights = length (vin tx).
Proof.
  unfold CalculateSequenceLocks.
  destruct (Nat.eqb_spec (length prevHeights) (length (vin tx))) as [Hlen|]; simpl;
    [by intros _ | discriminate].
Qed.
End SequenceLockMore.

(** X1.  [CalculateSequenceLocks] returns only when the vector of heights
    has one entry per input; the vector it leaves has the same length,
    holds 0 at every input whose disable bit is set when BIP68 is
    enforced, and is unchanged at every other position. *)
Theorem CalculateSequenceLocks_prevHeights `{Consensus}
        (tx : CTransaction) (flags : Z) (prevHeights : list Z)
        (block : CBlockIndex) (lp : Z * Z) (hs : list Z) :
  CalculateSequenceLocks tx flags prevHeights block = Some (lp, hs) ->
  length prevHeights = length (vin tx)
  /\ length hs = length prevHeights
  /\ forall i txin,
      vin tx !! i = Some txin ->
      hs !! i = if fEnforceBIP68 tx flags
                   && has_flag (nSequence txin) SEQUENCE_LOCKTIME_DISABLE_FLAG
                then Some 0 else prevHeights !! i.
Proof.
  unfold CalculateSequenceLocks.
  destruct (Nat.eqb_spec (length prevHeights) (length (vin tx))) as [Hlen|]; simpl;
    [|discriminate].
  destruct (fEnforceBIP68 tx flags); simpl.
  - destruct (sequence_lock_loop _ _ _ _) as [st|] eqn:Hloop; simpl; [|discriminate].
    intros [= <- <-]. apply sequence_lock_loop_heights in Hloop as [Hl Hall].
    simpl in *. split; [exact Hlen|]. split; [exact Hl|].
    intros i txin Hi. rewrite Hall, Hi.
    assert (Hlt : (i < length (vin tx))%nat) by (apply lookup_lt_is_Some; by eexists).
    rewrite (bool_decide_eq_true_2 (i ∈ seq 0 (length (vin tx))))
      by (apply elem_of_seq; lia).
    rewrite (bool_decide_eq_true_2 (i < length prevHeights)%nat) by lia.
    by rewrite andb_true_r.
  - intros [= <- <-]. split; [exact Hlen|]. split; [reflexivity|]. done.
Qed.

(** X2.  A transaction passes [SequenceLocks] under enforcement only if
    the block lies beyond the lock of every input whose disable bit is
    clear: its height is above coin height plus the masked sequence
    number minus one for a height-based input, and the median time past
    of its parent is above the coin time plus the masked sequence number
    in units of 512 seconds minus one for a time-based input. *)
Theorem SequenceLocks_respects_every_input `{Consensus}
        (tx : CTransaction) (flags : Z) (prevHeights hs : list Z)
        (block prev : CBlockIndex) (i : nat) (txin : CTxIn) (h : Z) :
  fEnforceBIP68 tx flags = true ->
  SequenceLocks tx flags prevHeights block = Some (true, hs) ->
  pprev block = Some prev ->
  vin tx !! i = Some txin ->
  prevHeights !! i = Some h ->
  contributes txin = true ->
  if has_flag (nSequence txin) SEQUENCE_LOCKTIME_TYPE_FLAG
  then exists t, coin_time block h = Some t
                 /\ time_constraint txin t < GetMedianTimePast prev
  else height_constraint txin h < nHeight block.
Proof.
  intros Henf Hrun Hprev Hi Hh Hc. unfold SequenceLocks in Hrun.
  destruct (CalculateSequenceLocks tx flags prevHeights block) as [[lp hs']|] eqn:Hcalc;
    simpl in Hrun; [|discriminate].
  pose proof (CalculateSequenceLocks_length tx flags prevHeights block _ Hcalc) as Hlen.
  pose proof (CalculateSequenceLocks_fold tx flags prevHeights block Hlen Henf) as Hfold.
  rewrite Hcalc in Hfold. simpl in Hfold. symmetry in Hfold.
  destruct lp as [mh mt].
  pose proof Hfold as Hspec. apply lock_fold_spec in Hspec as [Hmh Hmt]; [|lia..].
  pose proof (spec_sequence_locks_ge block (zip (vin tx) prevHeights)) as [Hg1 Hg2].
  unfold EvaluateSequenceLocks in Hrun. rewrite Hprev in Hrun. simpl in Hrun.
  destruct (Z.leb_spec (nHeight block) mh); simpl in Hrun; [discriminate|].
  destruct (Z.leb_spec (GetMedianTimePast prev) mt); simpl in Hrun; [discriminate|].
  assert (Hz : zip (vin tx) prevHeights !! i = Some (txin, h)) by (by apply lookup_zip_Some).
  pose proof (spec_sequence_locks_bound block _ i txin h Hz Hc) as Hb.
  destruct (has_flag (nSequence txin) SEQUENCE_LOCKTIME_TYPE_FLAG) eqn:Ht.
  - assert (Hdef : lock_defined block (zip (vin tx) prevHeights)).
    { apply (lock_fold_is_Some _ _ (-1) (-1)). by eexists. }
    assert (Hct : is_Some (coin_time block h)).
    { clear -Hdef Hz Hc Ht. revert i Hz.
      induction (zip (vin tx) prevHeights) as [|[tx0 h0] rest IH]; intros i Hz; [done|].
      destruct Hdef as [Hhd Htl]. destruct i as [|i]; simpl in Hz.
      - injection Hz as -> ->. by apply Hhd.
      - by apply (IH Htl i). }
    destruct Hct as [t Hct]. exists t. split; [exact Hct|].
    specialize (Hb t Hct). lia.
  - lia.
Qed.

(** X3.  Without enforcement (version below 2 as an unsigned number, or
    the verify-sequence flag unset) sequence numbers hold no transaction
    back. *)
Theorem SequenceLocks_not_enforced `{Consensus}
        (tx : CTransaction) (flags : Z) (prevHeights : list Z)
        (block prev : CBlockIndex) :
  fEnforceBIP68 tx flags = false ->
  length prevHeights = length (vin tx) ->
  pprev block = Some prev ->
  SequenceLocks tx flags prevHeights block
  = Some ((0 <=? nHeight block) && (0 <=? GetMedianTimePast prev), prevHeights).
Proof.
  intros Henf Hlen Hprev. unfold SequenceLocks, CalculateSequenceLocks.
  rewrite Hlen, Nat.eqb_refl, Henf. simpl.
  unfold EvaluateSequenceLocks. rewrite Hprev. simpl.
  destruct (Z.leb_spec (nHeight block) (-1)), (Z.leb_spec 0 (nHeight block)); try lia;
    destruct (Z.leb_spec (GetMedianTimePast prev) (-1)),
             (Z.leb_spec 0 (GetMedianTimePast prev)); try lia; reflexivity.
Qed.

(** ** Input checks: values, missing inputs and the score of a script failure *)

(** A rejection through [DoS] or [Invalid] cannot be the value true. *)
Ltac returns_false Hrun :=
  injection Hrun as Hrun; apply (f_equal fst) in Hrun; simpl in Hrun;
  rewrite ?Invalid_ret, ?DoS_ret in Hrun; discriminate.

Section InputCheckMore.
Context `{Consensus} `{Node}.

Lemma MoneyRange_spec (v : Z) : MoneyRange v = true <-> 0 <= v <= MAX_MONEY.
Proof. unfold MoneyRange. rewrite andb_true_iff, !Z.leb_le. tauto. Qed.

(** The loop over the inputs adds up the exact values of the coins: no
    partial sum leaves the range of money. *)
Lemma check_tx_inputs_loop_sum tx state inputs (ins : list CTxIn) :
  MAX_MONEY < 2 ^ 62 ->
  forall sh v sh' v',
    0 <= v <= MAX_MONEY ->
    check_tx_inputs_loop tx state inputs ins sh v = Some (InputPassed sh' v') ->
    exists coins,
      Forall2 (fun txin coin => AccessCoin inputs (prevout txin) = Some coin) ins coins
      /\ Forall (fun coin => 0 <= nValue (coin_out coin) <= MAX_MONEY) coins
      /\ v' = v + total_value coins
      /\ 0 <= v' <= MAX_MONEY.
Proof.
  intros Hmax. induction ins as [|txin rest IH]; intros sh v sh' v' Hv; simpl.
  - intros [= <- <-]. exists []. repeat split; [constructor | constructor | simpl; lia | lia | lia].
  - destruct (check_tx_input tx state inputs txin sh v) as [[res|sh1 v1]|] eqn:Hstep;
      [discriminate| |discriminate].
    intros Hrest. unfold check_tx_input in Hstep.
    destruct (AccessCoin inputs (prevout txin)) as [coin|] eqn:Hcoin; simpl in Hstep;
      [|discriminate].
    assert (Hpass : negb (MoneyRange (nValue (coin_out coin)))
                    || negb (MoneyRange (int64 (v + nValue (coin_out coin)))) = false
                    /\ v1 = int64 (v + nValue (coin_out coin))).
    { destruct (coin_IsCoinBase coin || IsCoinStake tx); simpl in Hstep.
      - destruct (if sh =? -1 then GetSpendHeight inputs else Some sh) as [s|];
          simpl in Hstep; [|discriminate].
        destruct (int64 (s - coin_nHeight coin) <? COINBASE_MATURITY).
        + destruct chainActive_Tip as [tip|]; simpl in Hstep; [|discriminate].
          destruct (1600000 <? nHeight tip); simpl in Hstep; [discriminate|].
          destruct (_ || _); [discriminate|]. by injection Hstep as _ <-.
        + simpl in Hstep. destruct (_ || _); [discriminate|]. by injection Hstep as _ <-.
      - destruct (_ || _); [discriminate|]. by injection Hstep as _ <-. }
    destruct Hpass as [Hrange ->].
    apply orb_false_iff in Hrange as [Hr1 Hr2].
    apply negb_false_iff, MoneyRange_spec in Hr1.
    apply negb_false_iff, MoneyRange_spec in Hr2.
    rewrite int64_small in Hr2, Hrest by lia.
    apply IH in Hrest as (coins & Hall & Hvals & -> & Hfinal); [|lia].
    exists (coin :: coins). split; [by constructor|]. split; [by constructor|].
    simpl. lia.
Qed.

(** The script loop, from any start index: a false return names an input
    whose script fails under the flags, and the score depends on whether
    the script passes without the non-mandatory flags. *)
Lemma check_scripts_loop_failure tx inputs flags :
  forall ins i0 state st',
    check_scripts_loop tx state inputs flags false i0 ins = Some (false, st') ->
    exists k txin coin,
      ins !! k = Some txin
      /\ AccessCoin inputs (prevout txin) = Some coin
      /\ VerifyScript tx (i0 + k) coin flags = false
      /\ st' = (if has_flag flags STANDARD_NOT_MANDATORY_VERIFY_FLAGS
                   && VerifyScript tx (i0 + k) coin
                        (Z.land flags (Z.lnot STANDARD_NOT_MANDATORY_VERIFY_FLAGS))
                then Invalid state false REJECT_NONSTANDARD
                       ("non-mandatory-script-verify-flag ("
                          +:+ ScriptErrorString tx (i0 + k) coin flags +:+ ")") ""
                else DoS state 100 false REJECT_INVALID
                       ("mandatory-script-verify-flag-failed ("
                          +:+ ScriptErrorString tx (i0 + k) coin flags +:+ ")") false "").2.
Proof.
  induction ins as [|txin rest IH]; intros i0 state st'; simpl; [discriminate|].
  unfold check_input_script.
  destruct (AccessCoin inputs (prevout txin)) as [coin|] eqn:Hcoin; simpl; [|discriminate].
  destruct (VerifyScript tx i0 coin flags) eqn:Hv; simpl.
  - intros Hrest. apply IH in Hrest as (k & txk & ck & Hk & Hck & Hfail & Hst).
    exists (S k), txk, ck. replace (i0 + S k)%nat with (S i0 + k)%nat by lia.
    by repeat split.
  - intros Hres. exists 0%nat, txin, coin. rewrite Nat.add_0_r.
    split; [reflexivity|]. split; [exact Hcoin|]. split; [exact Hv|].
    destruct (_ && _); injection Hres as Hres; apply (f_equal snd) in Hres;
      simpl in Hres; by rewrite <- Hres.
Qed.
End InputCheckMore.

(** X4.  [Consensus::CheckTxInputs] accepts a transaction that is not a
    coinstake only if every input has its coin in the view, every coin
    value and the exact sum of the coin values lie between 0 and
    [MAX_MONEY], and the sum covers the value of the outputs; the
    validation state is then untouched. *)
Theorem CheckTxInputs_conserves_value `{Consensus} `{Node}
        (tx : CTransaction) (state st' : CValidationState)
        (inputs : CCoinsViewCache) (nSpendHeight : Z) :
  0 <= MAX_MONEY < 2 ^ 62 ->
  IsCoinStake tx = false ->
  CheckTxInputs tx state inputs nSpendHeight = Some (true, st') ->
  st' = state
  /\ exists coins,
      Forall2 (fun txin coin => AccessCoin inputs (prevout txin) = Some coin) (vin tx) coins
      /\ Forall (fun coin => 0 <= nValue (coin_out coin) <= MAX_MONEY) coins
      /\ GetValueOut tx <= total_value coins <= MAX_MONEY.
Proof.
  intros Hmax Hcs Hrun. split; [by apply (CheckTxInputs_accepts _ _ _ _ _ Hrun)|].
  unfold CheckTxInputs in Hrun.
  destruct (negb (HaveInputs inputs tx)).
  { returns_false Hrun. }
  simpl in Hrun.
  destruct (check_tx_inputs_loop tx state inputs (vin tx) (-1) 0)
    as [[res|sh v]|] eqn:Hloop; simpl in Hrun; [| |discriminate].
  { injection Hrun as ->. apply check_tx_inputs_loop_rejected_false in Hloop. discriminate. }
  apply check_tx_inputs_loop_sum in Hloop as (coins & Hall & Hvals & -> & Hfinal); [|lia..].
  exists coins. split; [exact Hall|]. split; [exact Hvals|].
  rewrite Hcs in Hrun. simpl in Hrun.
  destruct (Z.ltb_spec (0 + total_value coins) (GetValueOut tx)).
  { returns_false Hrun. }
  lia.
Qed.

(** X5.  A transaction that is not a coinbase and has an input whose coin
    the view does not hold is rejected by [Consensus::CheckTxInputs],
    and so by [CheckInputs] before any script is run, as
    [Inputs unavailable] with no reason code and no addition to the
    misbehaviour score. *)
Theorem CheckInputs_missing_input `{Consensus} `{Node}
        (tx : CTransaction) (state : CValidationState) (inputs : CCoinsViewCache)
        (txin : CTxIn) (spend : Z) (fScriptChecks cacheStore pvChecks : bool) (flags : Z) :
  IsCoinBase tx = false ->
  txin ∈ vin tx ->
  AccessCoin inputs (prevout txin) = None ->
  GetSpendHeight inputs = Some spend ->
  exists st',
    CheckTxInputs tx state inputs spend = Some (false, st')
    /\ CheckInputs tx state inputs fScriptChecks flags cacheStore pvChecks = Some (false, st')
    /\ strDebugMessage st' = "Inputs unavailable"
    /\ chRejectCode st' = REJECT_NONE
    /\ nDoS st' = nDoS state.
Proof.
  intros Hcb Hin Hnone Hspend.
  assert (Hhave : HaveInputs inputs tx = false).
  { unfold HaveInputs. rewrite Hcb. simpl. apply not_true_is_false. intros Hall.
    rewrite forallb_forall in Hall. apply list_elem_of_In in Hin.
    specialize (Hall txin Hin). unfold HaveCoin in Hall.
    apply bool_decide_eq_true in Hall as [c Hc].
    unfold AccessCoin in Hnone. congruence. }
  exists (Invalid state false REJECT_NONE "" "Inputs unavailable").2.
  assert (Hrun : CheckTxInputs tx state inputs spend
                 = Some (false, (Invalid state false REJECT_NONE "" "Inputs unavailable").2)).
  { unfold CheckTxInputs. rewrite Hhave. simpl. f_equal.
    rewrite (surjective_pairing (Invalid _ _ _ _ _)) at 1. by rewrite Invalid_ret. }
  split; [exact Hrun|]. split.
  - unfold CheckInputs. rewrite Hcb, Hspend. simpl. rewrite Hrun. reflexivity.
  - unfold Invalid. rewrite DoS_debug, DoS_code, DoS_nDoS.
    repeat split. destruct (mode state); lia.
Qed.

(** X6.  When [CheckInputs] runs the scripts itself and returns false
    after [Consensus::CheckTxInputs] has passed, some input's script
    fails under the flags.  The rejection adds 100 to the misbehaviour
    score with code [REJECT_INVALID], unless non-mandatory flags were
    among the flags and the script passes without them: then the code is
    [REJECT_NONSTANDARD] and the score stays as it was. *)
Theorem CheckInputs_script_failure_score `{Consensus} `{Node}
        (tx : CTransaction) (state st' : CValidationState) (inputs : CCoinsViewCache)
        (spend : Z) (flags : Z) (cacheStore : bool) :
  mode state = MODE_VALID ->
  GetSpendHeight inputs = Some spend ->
  CheckTxInputs tx state inputs spend = Some (true, state) ->
  CheckInputs tx state inputs true flags cacheStore false = Some (false, st') ->
  exists i txin coin,
    vin tx !! i = Some txin
    /\ AccessCoin inputs (prevout txin) = Some coin
    /\ VerifyScript tx i coin flags = false
    /\ if has_flag flags STANDARD_NOT_MANDATORY_VERIFY_FLAGS
          && VerifyScript tx i coin
               (Z.land flags (Z.lnot STANDARD_NOT_MANDATORY_VERIFY_FLAGS))
       then chRejectCode st' = REJECT_NONSTANDARD /\ nDoS st' = nDoS state
       else chRejectCode st' = REJECT_INVALID /\ nDoS st' = nDoS state + 100.
Proof.
  intros Hmode Hspend Htx Hrun. unfold CheckInputs in Hrun.
  destruct (negb (IsCoinBase tx)); [|discriminate].
  rewrite Hspend in Hrun. simpl in Hrun. rewrite Htx in Hrun. simpl in Hrun.
  apply check_scripts_loop_failure in Hrun as (k & txin & coin & Hk & Hcoin & Hfail & ->).
  exists k, txin, coin. simpl in *. repeat (split; [assumption|]).
  destruct (_ && _); unfold Invalid; rewrite DoS_code, DoS_nDoS, Hmode; split;
    [reflexivity | lia | reflexivity | reflexivity].
Qed.

(** ** The context-free block check: limits, the cached verdict, rejections *)

(** A branch that returns what [DoS] or [Invalid] hands back is not an
    acceptance. *)
Ltac rejects := by (simpl; rewrite ?DoS_ret, ?Invalid_ret).

Section BlockCheckMore.
Context `{Consensus} `{BlockChecks}.

Lemma check_block_transactions_structure (S : ServiceChannel) (block : CBlock)
      (txs : list CTransaction) :
  forall st ev st' ev',
    check_block_transactions S block txs st ev = inr (st', ev') ->
    Forall (fun tx => CheckTransaction tx = None) txs.
Proof.
  induction txs as [|tx rest IH]; intros st ev st' ev'; simpl; [constructor|].
  destruct (CheckTransaction tx) as [r|] eqn:Hct; simpl; [discriminate|].
  destruct (if nVersion tx =? 2
            then check_service_reference S block tx st ev
            else (st, ev)) as [st1 ev1].
  destruct (GetBlockTime block <? nTime tx); simpl; [discriminate|].
  intros Hrest. constructor; [exact Hct | eapply IH; eauto].
Qed.

Lemma check_block_transactions_marks (S : ServiceChannel) (block : CBlock)
      (txs : list CTransaction) :
  forall st ev ret st' ev',
    check_block_transactions S block txs st ev = inl (ret, st', ev') ->
    mode st' <> MODE_VALID.
Proof.
  induction txs as [|tx rest IH]; intros st ev ret st' ev'; simpl; [discriminate|].
  destruct (CheckTransaction tx) as [r|]; simpl.
  - intros [= _ <- _]. apply DoS_mode.
  - destruct (if nVersion tx =? 2
              then check_service_reference S block tx st ev
              else (st, ev)) as [st1 ev1].
    destruct (GetBlockTime block <? nTime tx); simpl.
    + intros [= _ <- _]. apply DoS_mode.
    + apply IH.
Qed.
End BlockCheckMore.

(** X7.  A block that is not marked as checked is accepted by
    [CheckBlock] only within every context-free limit: the header check
    passes, the proof of work and the merkle root hold when they are
    asked for, the block has at least one and at most [MAX_BLOCK_SIZE]
    transactions and a serialized size of at most [MAX_BLOCK_SIZE],
    every transaction passes [CheckTransaction], the legacy signature
    operations sum to at most [MAX_BLOCK_SIGOPS], and the block signature
    holds. *)
Theorem CheckBlock_accepts_within_limits `{Consensus} `{BlockChecks}
        (S : ServiceChannel) (block : CBlock) (state : CValidationState)
        (fCheckPOW fCheckMerkleRoot : bool) :
  fChecked block = false ->
  cb_result (CheckBlock S block state fCheckPOW fCheckMerkleRoot) = true ->
  CheckBlockHeader (header block) fCheckPOW = None
  /\ (fCheckPOW = true -> IsProofOfWork (vtx block) = true ->
      CheckProofOfWork (header block) = true)
  /\ (fCheckMerkleRoot = true ->
      BlockMerkleRoot (vtx block) = (hashMerkleRoot (header block), false))
  /\ (1 <= Z.of_nat (length (vtx block)) <= MAX_BLOCK_SIZE)
  /\ GetSerializeSize (header block) (vtx block) <= MAX_BLOCK_SIZE
  /\ Forall (fun tx => CheckTransaction tx = None) (vtx block)
  /\ block_sigops (vtx block) <= MAX_BLOCK_SIGOPS
  /\ CheckBlockSignature (header block) (vtx block) (vchBlockSig block) = true.
Proof.
  intros Hc. unfold CheckBlock. rewrite Hc.
  destruct (IsProofOfWork (vtx block) && fCheckPOW && negb (CheckProofOfWork _)) eqn:Hpow;
    [rejects|].
  destruct (CheckBlockHeader _ _) eqn:Hhdr; [done|].
  destruct (fCheckMerkleRoot
            && negb (hashMerkleRoot (header block) =? (BlockMerkleRoot (vtx block)).1))
    eqn:Hroot; [rejects|].
  destruct (fCheckMerkleRoot && (BlockMerkleRoot (vtx block)).2) eqn:Hmut; [rejects|].
  destruct (bool_decide (vtx block = [])
            || (MAX_BLOCK_SIZE <? Z.of_nat (length (vtx block)))
            || (MAX_BLOCK_SIZE <? GetSerializeSize (header block) (vtx block)))
    eqn:Hsize; [rejects|].
  destruct (match vtx block with [] => true | _ => _ end); [rejects|].
  destruct (existsb IsCoinBase _); [rejects|].
  destruct (existsb IsCoinStake _); [rejects|].
  destruct (IsProofOfStake _ && _); [rejects|].
  destruct (check_block_transactions S block (vtx block) state [])
    as [[[r s] e]|[s e]] eqn:Hloop.
  { simpl. intros ->. by apply check_block_transactions_rejects in Hloop. }
  destruct (Z.ltb_spec MAX_BLOCK_SIGOPS (block_sigops (vtx block))); [rejects|].
  destruct (CheckBlockSignature _ _ _) eqn:Hsig; [|rejects].
  intros _.
  apply orb_false_iff in Hsize as [Hsize Hser].
  apply orb_false_iff in Hsize as [Hempty Hcount].
  apply bool_decide_eq_false in Hempty.
  apply Z.ltb_ge in Hcount. apply Z.ltb_ge in Hser.
  split; [reflexivity|]. split.
  { intros -> Hw. rewrite Hw in Hpow. simpl in Hpow. by apply negb_false_iff in Hpow. }
  split.
  { intros ->. simpl in Hroot, Hmut. apply negb_false_iff, Z.eqb_eq in Hroot.
    destruct (BlockMerkleRoot (vtx block)) as [root mutated]; simpl in *. by subst. }
  split.
  { split; [|assumption]. destruct (vtx block); [done | simpl; lia]. }
  split; [assumption|].
  split; [by eapply check_block_transactions_structure|].
  split; [assumption | reflexivity].
Qed.

(** X8.  The cached verdict: once [CheckBlock] has accepted a block with
    both the proof-of-work and the merkle-root checks on, every later
    call on the block it leaves returns true at once, whatever its
    flags, with the validation state untouched and nothing logged or
    requested.  The flag is set in no other way, and the header, the
    transactions and the signature of the block are never changed. *)
Theorem CheckBlock_cached_verdict `{Consensus} `{BlockChecks}
        (S : ServiceChannel) (block : CBlock) (state : CValidationState)
        (fCheckPOW fCheckMerkleRoot : bool) :
  let r := CheckBlock S block state fCheckPOW fCheckMerkleRoot in
  (cb_result r = true -> fCheckPOW = true -> fCheckMerkleRoot = true ->
   forall S' state' fCheckPOW' fCheckMerkleRoot',
     CheckBlock S' (cb_block r) state' fCheckPOW' fCheckMerkleRoot'
     = mkCheckBlockResult true state' (cb_block r) [])
  /\ (fChecked block = false -> fChecked (cb_block r) = true ->
      cb_result r = true /\ fCheckPOW = true /\ fCheckMerkleRoot = true)
  /\ header (cb_block r) = header block
  /\ vtx (cb_block r) = vtx block
  /\ vchBlockSig (cb_block r) = vchBlockSig block.
Proof.
  intros r.
  assert (Hblock : cb_block r = block
                   \/ (cb_block r = set_fChecked block true /\ cb_result r = true
                       /\ fCheckPOW = true /\ fCheckMerkleRoot = true
                       /\ fChecked block = false)).
  { subst r. unfold CheckBlock.
    destruct (fChecked block) eqn:Hc; [by left|].
    repeat match goal with
           | |- context [if ?c then _ else _] => destruct c eqn:?
           | |- context [match ?x with inl _ => _ | inr _ => _ end] =>
               destruct x as [[[? ?] ?]|[? ?]] eqn:?
           | |- context [match CheckBlockHeader ?a ?b with _ => _ end] =>
               destruct (CheckBlockHeader a b) eqn:?
           end; simpl; auto.
    right. destruct fCheckPOW, fCheckMerkleRoot; try discriminate. auto. }
  split; [|split].
  - intros Hacc -> -> S' state' f1 f2.
    assert (Hset : fChecked (cb_block r) = true).
    { destruct Hblock as [Heq | (Heq & _)]; rewrite Heq; [|reflexivity].
      destruct (fChecked block) eqn:Hc; [reflexivity|].
      exfalso. revert Hacc Heq. subst r. unfold CheckBlock. rewrite Hc.
      repeat match goal with
             | |- context [if ?c then _ else _] => destruct c eqn:?
             | |- context [match ?x with inl _ => _ | inr _ => _ end] =>
                 destruct x as [[[? ?] ?]|[? ?]] eqn:?
             | |- context [match CheckBlockHeader ?a ?b with _ => _ end] =>
                 destruct (CheckBlockHeader a b) eqn:?
             end; simpl; rewrite ?DoS_ret; try discriminate.
      all: try (intros _ Heq; apply (f_equal fChecked) in Heq; simpl in Heq; congruence).
      all: try (intros ->; match goal with
                           | Hl : check_block_transactions _ _ _ _ _ = inl _ |- _ =>
                               apply check_block_transactions_rejects in Hl; discriminate
                           end). }
    unfold CheckBlock at 1. by rewrite Hset.
  - intros Hc Hset. destruct Hblock as [Heq | (Heq & Hacc & -> & -> & _)].
    + rewrite Heq in Hset. congruence.
    + done.
  - destruct Hblock as [-> | (-> & _)]; done.
Qed.

(** X9.  [CheckBlock] never returns false on a validation state that it
    leaves valid: every rejection marks the state invalid (or keeps it
    in error), and leaves the block as it was. *)
Theorem CheckBlock_rejection_marks_state `{Consensus} `{BlockChecks}
        (S : ServiceChannel) (block : CBlock) (state : CValidationState)
        (fCheckPOW fCheckMerkleRoot : bool) :
  cb_result (CheckBlock S block state fCheckPOW fCheckMerkleRoot) = false ->
  mode (cb_state (CheckBlock S block state fCheckPOW fCheckMerkleRoot)) <> MODE_VALID
  /\ cb_block (CheckBlock S block state fCheckPOW fCheckMerkleRoot) = block.
Proof.
  unfold CheckBlock.
  destruct (fChecked block); [discriminate|].
  destruct (_ && _ && negb (CheckProofOfWork _)); [intros _; split; [apply DoS_mode|done]|].
  destruct (CheckBlockHeader _ _); [intros _; split; [apply DoS_mode|done]|].
  destruct (fCheckMerkleRoot && negb _); [intros _; split; [apply DoS_mode|done]|].
  destruct (fCheckMerkleRoot && _); [intros _; split; [apply DoS_mode|done]|].
  destruct (_ || _ || _); [intros _; split; [apply DoS_mode|done]|].
  destruct (match vtx block with [] => true | _ => _ end);
    [intros _; split; [apply DoS_mode|done]|].
  destruct (existsb IsCoinBase _); [intros _; split; [apply DoS_mode|done]|].
  destruct (existsb IsCoinStake _); [intros _; split; [apply DoS_mode|done]|].
  destruct (IsProofOfStake _ && _); [intros _; split; [apply DoS_mode|done]|].
  destruct (check_block_transactions S block (vtx block) state [])
    as [[[r s] e]|[s e]] eqn:Hloop.
  { intros _. split; [|done]. simpl. by eapply check_block_transactions_marks. }
  destruct (_ <? _); [intros _; split; [apply DoS_mode|done]|].
  destruct (negb _); [intros _; split; [apply DoS_mode|done]|].
  discriminate.
Qed.

(** ** Admission: what enters the pool *)

Section AdmissionMore.
Context `{Consensus} `{Node} `{BlockChecks} `{Policy}.

Lemma ef_ret {A} (a : A) : returns_false_early (adm_ret a).
Proof. by intros w b w'. Qed.

Lemma ef_return {A} : returns_false_early (adm_return (A:=A) false).
Proof. by intros w b w' [= <- _]. Qed.

Lemma ef_reject {A} f :
  (forall st, (f st).1 = false) -> returns_false_early (adm_reject (A:=A) f).
Proof. intros Hf w b w' [= <- _]. apply Hf. Qed.

Lemma ef_crash {A} : returns_false_early (adm_crash (A:=A)).
Proof. by intros w b w'. Qed.

Lemma ef_get : returns_false_early adm_get.
Proof. by intros w b w'. Qed.

Lemma ef_modify f : returns_false_early (adm_modify f).
Proof. by intros w b w'. Qed.

Lemma ef_state {A} (f : World -> A * World) : returns_false_early (adm_state f).
Proof. by intros w b w'. Qed.

Lemma ef_bind {A B} (m : Adm A) (k : A -> Adm B) :
  returns_false_early m -> (forall a, returns_false_early (k a)) ->
  returns_false_early (adm_bind m k).
Proof.
  intros Hm Hk w b w'. unfold adm_bind.
  destruct (m w) as [[[b1|a] w1]|] eqn:Hmw; [| |discriminate].
  - intros [= <- <-]. by eapply Hm.
  - apply Hk.
Qed.

Lemma ef_when (c : bool) (m : Adm unit) :
  returns_false_early m -> returns_false_early (adm_when c m).
Proof. intros Hm. destruct c; [exact Hm | apply ef_ret]. Qed.

Ltac early_false :=
  repeat first
    [ apply ef_ret | apply ef_return | apply ef_crash | apply ef_get
    | apply ef_modify | apply ef_state
    | apply ef_reject; intros ?; unfold reject_with;
      rewrite ?DoS_ret, ?Invalid_ret; reflexivity
    | apply ef_when
    | apply ef_bind; [|intros ?]
    | match goal with
      | |- returns_false_early (match ?x with _ => _ end) => destruct x
      end ].

Lemma admission_before_scripts_early tx fLimitFree fRejectAbsurdFee :
  returns_false_early (admission_before_scripts tx fLimitFree fRejectAbsurdFee).
Proof.
  unfold admission_before_scripts, admission_prechecks, admission_inputs_exist,
    admission_policy, CheckSequenceLocks.
  early_false.
Qed.

Lemma run_CheckInputs_early tx view flags :
  returns_false_early (run_CheckInputs tx view flags).
Proof.
  intros w b w'. unfold run_CheckInputs.
  by destruct (CheckInputs _ _ _ _ _ _ _) as [[ok st]|].
Qed.

Lemma run_CheckInputs_pool tx view flags :
  preserves_pool (run_CheckInputs tx view flags).
Proof.
  intros w r w'. unfold run_CheckInputs.
  destruct (CheckInputs _ _ _ _ _ _ _) as [[ok st]|]; [|discriminate].
  by intros [= _ <-].
Qed.

Lemma admission_scripts_early tx view : returns_false_early (admission_scripts tx view).
Proof.
  unfold admission_scripts. apply ef_bind; [apply run_CheckInputs_early|].
  intros ok. destruct (negb ok); [early_false|].
  apply ef_bind; [apply run_CheckInputs_early|].
  intros ok2. early_false.
Qed.

Lemma admission_scripts_pool tx view : preserves_pool (admission_scripts tx view).
Proof.
  unfold admission_scripts. apply pp_bind; [apply run_CheckInputs_pool|].
  intros ok. destruct (negb ok).
  - apply pp_bind; [apply pp_modify; by intros ? | intros ?; apply pp_return].
  - apply pp_bind; [apply run_CheckInputs_pool|].
    intros ok2. destruct (negb ok2); [|apply pp_ret].
    apply pp_bind; [apply pp_modify; by intros ? | intros ?; apply pp_return].
Qed.

(** The last stage: what the pool holds when it returns. *)
Lemma admission_insert_outcome tx hash fOverrideMempoolLimit w res w' :
  adm_run (admission_insert tx hash fOverrideMempoolLimit) w = Some (res, w') ->
  if res
  then pool_exists (w_pool w') hash = true
       /\ last (w_events w') = Some (EvTransactionAddedToMempool hash)
  else w_pool w' = w_pool w
       \/ (pool_exists (w_pool w') hash = false
           /\ strRejectReason (w_state w') = "mempool full").
Proof.
  unfold adm_run, admission_insert, LimitMempoolSize, adm_bind, adm_get, adm_when,
    adm_modify, adm_reject, adm_return, adm_ret.
  simpl.
  destruct (CalculateMemPoolAncestors (w_pool w) tx).
  { intros [= <- <-]. rewrite DoS_ret. by left. }
  destruct fOverrideMempoolLimit; simpl.
  { intros [= <- <-]. simpl. split; [|by rewrite last_snoc].
    unfold pool_exists, addUnchecked. simpl.
    apply bool_decide_eq_true. rewrite lookup_insert_eq. by eexists. }
  destruct (pool_Expire _ _) as [[pool1 vCoinsToUncache] expired].
  destruct (negb (expired =? 0)); simpl;
    destruct (pool_TrimToSize _ _) as [pool2 vNoSpendsRemaining]; simpl;
    destruct (pool_exists pool2 hash) eqn:Hin; simpl; intros [= <- <-]; simpl;
    rewrite ?DoS_ret, ?DoS_reason, ?last_snoc; auto.
Qed.
End AdmissionMore.

(** X10.  [AcceptToMemoryPool] returns true only for a transaction that
    was not in the pool, is in the pool afterwards and has been
    announced as the last event.  When it returns false the pool is the
    pool it started from, unless the rejection is [mempool full]: then
    the pool has been trimmed and does not hold the transaction. *)
Theorem AcceptToMemoryPool_pool_membership
        `{Consensus} `{Node} `{BlockChecks} `{Policy}
        (w w' : World) (tx : CTransaction)
        (fLimitFree fOverrideMempoolLimit fRejectAbsurdFee : bool) (res : bool) :
  AcceptToMemoryPool w tx fLimitFree fOverrideMempoolLimit fRejectAbsurdFee
  = Some (res, w') ->
  if res
  then pool_exists (w_pool w) (GetHash tx) = false
       /\ pool_exists (w_pool w') (GetHash tx) = true
       /\ last (w_events w') = Some (EvTransactionAddedToMempool (GetHash tx))
  else w_pool w' = w_pool w
       \/ (pool_exists (w_pool w') (GetHash tx) = false
           /\ strRejectReason (w_state w') = "mempool full").
Proof.
  intros Hrun.
  assert (Hworker : exists w1,
             AcceptToMemoryPoolWorker (set_uncache_empty w) tx fLimitFree
               fOverrideMempoolLimit fRejectAbsurdFee = Some (res, w1)
             /\ w_pool w' = w_pool w1 /\ w_state w' = w_state w1
             /\ w_events w' = w_events w1).
  { unfold AcceptToMemoryPool in Hrun.
    destruct (AcceptToMemoryPoolWorker _ _ _ _ _) as [[res1 w1]|]; simpl in Hrun;
      [|discriminate].
    destruct (match w_missing w1 with Some m => _ | None => _ end);
      injection Hrun as <- <-; exists w1; by repeat split. }
  destruct Hworker as (w1 & Hw & -> & -> & ->).
  change (w_pool w) with (w_pool (set_uncache_empty w)).
  revert Hw. generalize (set_uncache_empty w). clear w Hrun w'. intros w.
  unfold AcceptToMemoryPoolWorker, adm_run, AcceptToMemoryPoolWorker_steps.
  unfold adm_bind at 1.
  destruct (admission_before_scripts tx fLimitFree fRejectAbsurdFee w)
    as [[[b|hv] w2]|] eqn:Hbefore; [| |discriminate].
  { intros [= <- <-].
    rewrite (admission_before_scripts_early _ _ _ _ _ _ Hbefore).
    left. by apply (admission_before_scripts_pool _ _ _ _ _ _ Hbefore). }
  pose proof (admission_before_scripts_pool _ _ _ _ _ _ Hbefore) as Hpool2.
  apply admission_before_scripts_passed in Hbefore as (Hhash & _ & Hnew & _).
  unfold adm_bind at 1.
  destruct (admission_scripts tx hv.2 w2) as [[[b|[]] w3]|] eqn:Hscripts; [| |discriminate].
  { intros [= <- <-].
    rewrite (admission_scripts_early _ _ _ _ _ Hscripts).
    left. rewrite <- Hpool2. by apply (admission_scripts_pool _ _ _ _ _ Hscripts). }
  pose proof (admission_scripts_pool _ _ _ _ _ Hscripts) as Hpool3.
  intros Hinsert.
  pose proof (admission_insert_outcome tx hv.1 fOverrideMempoolLimit w3 res w1) as Hout.
  unfold adm_run in Hout. specialize (Hout Hinsert).
  rewrite Hhash in Hout. destruct res.
  - destruct Hout as [Hin Hev]. by repeat split.
  - destruct Hout as [Hsame | Hfull]; [left; congruence | by right].
Qed.

(** X11.  A coinbase or a coinstake never enters the memory pool. *)
Theorem AcceptToMemoryPool_never_admits_coinbase
        `{Consensus} `{Node} `{BlockChecks} `{Policy}
        (w w' : World) (tx : CTransaction)
        (fLimitFree fOverrideMempoolLimit fRejectAbsurdFee : bool) (res : bool) :
  IsCoinBase tx || IsCoinStake tx = true ->
  AcceptToMemoryPool w tx fLimitFree fOverrideMempoolLimit fRejectAbsurdFee
  = Some (res, w') ->
  res = false /\ w_pool w' = w_pool w
  /\ (CheckTransaction tx = None ->
      strRejectReason (w_state w') = "coinbase"
      /\ chRejectCode (w_state w') = REJECT_INVALID).
Proof.
  intros Hcb Hrun.
  unfold AcceptToMemoryPool in Hrun.
  destruct (AcceptToMemoryPoolWorker _ _ _ _ _) as [[res1 w1]|] eqn:Hw; simpl in Hrun;
    [|discriminate].
  assert (Hres : res = res1 /\ w_pool w' = w_pool w1 /\ w_state w' = w_state w1).
  { destruct (match w_missing w1 with Some m => _ | None => _ end);
      by injection Hrun as <- <-. }
  destruct Hres as (-> & -> & ->). clear Hrun.
  unfold AcceptToMemoryPoolWorker, adm_run, AcceptToMemoryPoolWorker_steps,
    admission_before_scripts in Hw.
  unfold adm_bind at 1 2 in Hw.
  destruct (admission_prechecks tx (set_uncache_empty w)) as [[[b|hash] w2]|] eqn:Hpre;
    [| |discriminate].
  2:{ apply admission_prechecks_passed in Hpre as (_ & _ & _ & Hno & _). congruence. }
  injection Hw as <- <-.
  split; [|split].
  - revert Hpre. unfold admission_prechecks.
    destruct (CheckTransaction tx) as [r|].
    + unfold adm_reject. intros [= <- _]. unfold reject_with. apply DoS_ret.
    + unfold adm_bind, adm_when, adm_reject. rewrite Hcb. intros [= <- _]. apply DoS_ret.
  - by apply (admission_prechecks_pool _ _ _ _ Hpre).
  - intros Hct. revert Hpre. unfold admission_prechecks. rewrite Hct.
    unfold adm_bind, adm_when, adm_reject. rewrite Hcb. intros [= _ <-]. simpl.
    by rewrite DoS_reason, DoS_code.
Qed.

(** X12.  A transaction that spends an outpoint which a transaction of the
    pool already spends never enters the pool, and the pool it would
    conflict with is left as it is. *)
Theorem AcceptToMemoryPool_never_admits_conflict
        `{Consensus} `{Node} `{BlockChecks} `{Policy}
        (w w' : World) (tx : CTransaction) (txin : CTxIn)
        (fLimitFree fOverrideMempoolLimit fRejectAbsurdFee : bool) (res : bool) :
  txin ∈ vin tx ->
  is_Some (mapNextTx (w_pool w) !! prevout txin) ->
  AcceptToMemoryPool w tx fLimitFree fOverrideMempoolLimit fRejectAbsurdFee
  = Some (res, w') ->
  res = false /\ w_pool w' = w_pool w.
Proof.
  intros Hin Hspent Hrun.
  unfold AcceptToMemoryPool in Hrun.
  destruct (AcceptToMemoryPoolWorker _ _ _ _ _) as [[res1 w1]|] eqn:Hw; simpl in Hrun;
    [|discriminate].
  assert (Hres : res = res1 /\ w_pool w' = w_pool w1).
  { destruct (match w_missing w1 with Some m => _ | None => _ end);
      by injection Hrun as <- <-. }
  destruct Hres as (-> & ->). clear Hrun.
  unfold AcceptToMemoryPoolWorker, adm_run, AcceptToMemoryPoolWorker_steps,
    admission_before_scripts in Hw.
  unfold adm_bind at 1 2 in Hw.
  destruct (admission_prechecks tx (set_uncache_empty w)) as [[[b|hash] w2]|] eqn:Hpre;
    [| |discriminate].
  - injection Hw as <- <-. split.
    + revert Hpre. generalize (set_uncache_empty w). intros w0 Hpre.
      by apply (admission_before_scripts_early tx fLimitFree fRejectAbsurdFee w0 b w2);
        unfold admission_before_scripts, adm_bind at 1; rewrite Hpre.
    + by apply (admission_prechecks_pool _ _ _ _ Hpre).
  - apply admission_prechecks_passed in Hpre as (_ & _ & _ & _ & _ & Hconf).
    exfalso. apply not_true_iff_false in Hconf. apply Hconf.
    apply existsb_exists. exists txin. split; [by apply list_elem_of_In|].
    by apply bool_decide_eq_true.
Qed.

(** ** The flush: idle calls, the first periodic call, the outcome *)

(** Every case of what the storage layer answers during a flush. *)
Ltac flush_cases :=
  repeat match goal with
         | |- context [match CheckDiskSpace ?n with _ => _ end] =>
             destruct (CheckDiskSpace n)
         | |- context [match WriteBatchSync ?a ?b ?c with _ => _ end] =>
             destruct (WriteBatchSync a b c)
         | |- context [match CoinsFlush with _ => _ end] => destruct CoinsFlush
         | |- context [if ?c then _ else _] => destruct c
         end.

(** X13.  A call of [FlushStateToDisk] in mode NONE, or in mode IF_NEEDED
    while the coin cache is within its limit, touches nothing: it
    returns true with the validation state as it was, no file, batch or
    cache is written, no observer is told, and the dirty sets are kept. *)
Theorem FlushStateToDisk_idle `{FlushEnv}
        (g : FlushGlobals) (state : CValidationState) (mode : FlushStateMode) :
  mode = FLUSH_STATE_NONE
  \/ (mode = FLUSH_STATE_IF_NEEDED /\ DynamicMemoryUsage <= nCoinCacheUsage g) ->
  FlushStateToDisk g state mode = mkFlushResult true state (init_statics g) [].
Proof.
  intros [-> | [-> Hsmall]]; unfold FlushStateToDisk, fDoFullFlush, fCacheLarge,
    fCacheCritical, fPeriodicWrite, fPeriodicFlush, flush_chainstate, set_best_chain;
    simpl; [reflexivity|].
  change (nCoinCacheUsage (init_statics g)) with (nCoinCacheUsage g).
  destruct (Z.ltb_spec (nCoinCacheUsage g) DynamicMemoryUsage); [lia|reflexivity].
Qed.

(** X14.  "Avoid writing/flushing immediately after startup": the first
    periodic call, with the three timestamps still zero and the cache
    not close to its limit, only records the time. *)
Theorem FlushStateToDisk_startup `{FlushEnv}
        (g : FlushGlobals) (state : CValidationState) :
  nLastWrite g = 0 -> nLastFlush g = 0 -> nLastSetChain g = 0 ->
  projected_over DynamicMemoryUsage (nCoinCacheUsage g) = false ->
  0 <= DATABASE_WRITE_INTERVAL * 1000000 < 2 ^ 62 ->
  0 <= DATABASE_FLUSH_INTERVAL * 1000000 < 2 ^ 62 ->
  0 <= GetTimeMicros < 2 ^ 62 ->
  let r := FlushStateToDisk g state FLUSH_STATE_PERIODIC in
  fl_result r = true /\ fl_state r = state /\ fl_events r = []
  /\ nLastWrite (fl_globals r) = GetTimeMicros
  /\ nLastFlush (fl_globals r) = GetTimeMicros
  /\ nLastSetChain (fl_globals r) = GetTimeMicros
  /\ setDirtyBlockIndex (fl_globals r) = setDirtyBlockIndex g
  /\ setDirtyFileInfo (fl_globals r) = setDirtyFileInfo g.
Proof.
  intros Hw Hf Hs Hcache Hwi Hfi Hnow r. subst r.
  assert (Hnw : forall d, 0 <= d < 2 ^ 62 ->
                  (int64 ((if 0 =? 0 then GetTimeMicros else 0) + int64 d) <? GetTimeMicros)
                  = false).
  { intros d Hd. simpl. rewrite (int64_small d) by lia.
    rewrite int64_small by lia. apply Z.ltb_ge. lia. }
  unfold FlushStateToDisk, fDoFullFlush, fCacheLarge, fCacheCritical, fPeriodicWrite,
    fPeriodicFlush, flush_chainstate, set_best_chain, init_statics.
  rewrite Hw, Hf, Hs. simpl. rewrite Hcache.
  rewrite !(int64_small (DATABASE_WRITE_INTERVAL * 1000000)) by lia.
  rewrite !(int64_small (DATABASE_FLUSH_INTERVAL * 1000000)) by lia.
  rewrite !int64_small by lia.
  destruct (Z.ltb_spec (GetTimeMicros + DATABASE_FLUSH_INTERVAL * 1000000) GetTimeMicros);
    [lia|].
  destruct (Z.ltb_spec (GetTimeMicros + DATABASE_WRITE_INTERVAL * 1000000) GetTimeMicros);
    [lia|].
  simpl. by repeat split.
Qed.

(** X15.  What a call of [FlushStateToDisk] leaves behind.  A call that
    returns true leaves the validation state as it was and has not
    aborted the node; a call that returns false leaves the state in
    error and has aborted the node.  Once the block-index batch has
    been written the dirty sets are empty and the time of the last
    write is the time of the call, whatever comes after the write; and
    once the cache has reached the store the call returns true and the
    time of the last flush is the time of the call. *)
Theorem FlushStateToDisk_outcome `{FlushEnv}
        (g : FlushGlobals) (state : CValidationState) (flushMode : FlushStateMode) :
  let r := FlushStateToDisk g state flushMode in
  (fl_result r = true -> fl_state r = state /\ ~ node_aborted r)
  /\ (fl_result r = false -> mode (fl_state r) = MODE_ERROR /\ node_aborted r)
  /\ ((exists vFiles n vBlocks, EvWriteBatchSync vFiles n vBlocks true ∈ fl_events r) ->
      setDirtyBlockIndex (fl_globals r) = ∅
      /\ setDirtyFileInfo (fl_globals r) = ∅
      /\ nLastWrite (fl_globals r) = GetTimeMicros)
  /\ (cache_flushed r ->
      fl_result r = true /\ nLastFlush (fl_globals r) = GetTimeMicros).
Proof.
  intros r. subst r.
  unfold FlushStateToDisk, flush_chainstate, set_best_chain, system_error,
    out_of_disk_space, AbortNode, node_aborted, cache_flushed.
  destruct (fDoFullFlush (init_statics g) flushMode), (fPeriodicWrite (init_statics g) flushMode);
    cbn [orb]; flush_cases; cbn [fl_result fl_state fl_events fl_globals
                                  setDirtyBlockIndex setDirtyFileInfo nLastWrite nLastFlush];
    (split; [|split; [|split]]).
  all: try (intros Hres;
            first [ discriminate Hres
                  | split; [reflexivity|]; intros [msg Hin]; by not_in_trace Hin
                  | split; [reflexivity|]; eexists; in_trace ]).
  all: try (intros [vf [n [vb Hin]]];
            first [ by repeat split | by not_in_trace Hin ]).
  all: try (intros Hin; first [ by split | by not_in_trace Hin ]).
Qed.

(** ** The majority rule and the nearest block of a kind *)

Section ChainRuleFacts.
Context `{ChainContext}.

Lemma chain_of_Some (b : CBlockIndex) : chain_of (Some b) = b :: chain_of (pprev b).
Proof. simpl. by destruct b as [id h [p|]]. Qed.

(** The loop counts until the requirement is met. *)
Lemma super_majority_loop_spec (minVersion nRequired : Z) :
  nRequired < 2 ^ 32 ->
  forall (window : nat) (pstart : option CBlockIndex) (nFound : Z),
    0 <= nFound <= nRequired ->
    super_majority_loop window minVersion pstart nRequired nFound
    = Z.min nRequired
        (nFound + Z.of_nat (length (filter (fun b => minVersion <= index_nVersion b)
                                           (take window (chain_of pstart))))).
Proof.
  intros Hreq. induction window as [|window IH]; intros pstart nFound Hfound.
  - simpl. lia.
  - cbn [super_majority_loop].
    destruct (Z.ltb_spec nFound nRequired) as [Hlt|Hge]; [|lia].
    destruct pstart as [b|]; [|simpl; lia].
    rewrite chain_of_Some. cbn [take]. rewrite filter_cons.
    destruct (Z.leb_spec minVersion (index_nVersion b)) as [Hv|Hv].
    + rewrite decide_True by assumption. rewrite uint32_small by lia.
      rewrite IH by lia. simpl length. lia.
    + rewrite decide_False by lia. by rewrite IH.
Qed.

(** Induction along the [pprev] links. *)
Lemma CBlockIndex_chain_ind (P : CBlockIndex -> Prop) :
  (forall b, (forall p, pprev b = Some p -> P p) -> P b) -> forall b, P b.
Proof.
  intros step. fix rec 1. intros b. apply step. intros p Hp.
  destruct b as [id h [q|]]; simpl in Hp; [|discriminate].
  injection Hp as <-. apply rec.
Qed.

Lemma ancestry_unfold (b : CBlockIndex) : ancestry b = b :: chain_of (pprev b).
Proof. by destruct b as [id h [p|]]. Qed.

Lemma last_block_index_unfold (b : CBlockIndex) (fProofOfStake : bool) :
  last_block_index b fProofOfStake
  = match pprev b with
    | Some p =>
        if negb (eqb (index_IsProofOfStake b) fProofOfStake)
        then last_block_index p fProofOfStake
        else b
    | None => b
    end.
Proof. by destruct b as [id h [p|]]. Qed.

(** The entry [GetLastBlockIndex] returns sits in the ancestry of its
    argument behind entries of the other kind only. *)
Lemma last_block_index_spec (fProofOfStake : bool) (b : CBlockIndex) :
  exists skipped rest,
    ancestry b = skipped ++ last_block_index b fProofOfStake :: rest
    /\ ancestry (last_block_index b fProofOfStake)
       = last_block_index b fProofOfStake :: rest
    /\ Forall (fun x => index_IsProofOfStake x <> fProofOfStake) skipped
    /\ (index_IsProofOfStake (last_block_index b fProofOfStake) = fProofOfStake
        \/ rest = []).
Proof.
  induction b as [b IH] using CBlockIndex_chain_ind.
  rewrite last_block_index_unfold, (ancestry_unfold b).
  destruct (pprev b) as [p|] eqn:Hp.
  - destruct (eqb (index_IsProofOfStake b) fProofOfStake) eqn:Hkind; simpl.
    + exists [], (ancestry p). rewrite (ancestry_unfold b), Hp. simpl.
      repeat split; [constructor|]. left. by apply eqb_prop.
    + destruct (IH p eq_refl) as (skipped & rest & Hsplit & Hself & Hall & Hlast).
      exists (b :: skipped), rest. rewrite Hsplit. repeat split; try assumption.
      constructor; [|assumption]. intros Heq. rewrite Heq, eqb_reflx in Hkind. discriminate.
  - exists [], []. rewrite (ancestry_unfold b), Hp. simpl.
    repeat split; [constructor|]. by right.
Qed.
End ChainRuleFacts.

(** X16.  [IsSuperMajority] answers whether at least [nRequired] of the
    last [nMajorityWindow] blocks, counted backwards from [pstart] along
    the chain as far as it reaches, have version [minVersion] or above;
    leaving the loop early does not change the answer. *)
Theorem IsSuperMajority_counts `{ChainContext}
        (minVersion : Z) (pstart : option CBlockIndex) (nRequired : Z) :
  0 <= nRequired < 2 ^ 32 ->
  IsSuperMajority minVersion pstart nRequired
  = bool_decide (nRequired <= Z.of_nat (majority_count minVersion pstart)).
Proof.
  intros Hreq. unfold IsSuperMajority, majority_count.
  rewrite super_majority_loop_spec by lia.
  set (c := Z.of_nat (length _)).
  destruct (Z.leb_spec nRequired (Z.min nRequired (0 + c)));
    [rewrite bool_decide_eq_true_2 | rewrite bool_decide_eq_false_2]; lia.
Qed.

(** X17.  [GetLastBlockIndex] returns null only for null; otherwise it
    returns the nearest entry of the requested kind (proof of stake or
    proof of work) in the ancestry of its argument, the argument
    included, or the first entry of the chain when there is none. *)
Theorem GetLastBlockIndex_nearest `{ChainContext}
        (pindex : option CBlockIndex) (fProofOfStake : bool) :
  match GetLastBlockIndex pindex fProofOfStake with
  | None => pindex = None
  | Some found =>
      exists skipped rest,
        chain_of pindex = skipped ++ found :: rest
        /\ Forall (fun x => index_IsProofOfStake x <> fProofOfStake) skipped
        /\ (index_IsProofOfStake found = fProofOfStake
            \/ (rest = [] /\ pprev found = None))
  end.
Proof.
  destruct pindex as [b|]; simpl; [|reflexivity].
  destruct (last_block_index_spec fProofOfStake b)
    as (skipped & rest & Hsplit & Hself & Hall & Hlast).
  exists skipped, rest. split; [exact Hsplit|]. split; [exact Hall|].
  destruct Hlast as [Hkind | ->]; [by left|]. right. split; [reflexivity|].
  rewrite ancestry_unfold in Hself.
  destruct (pprev (last_block_index b fProofOfStake)) as [p|]; [|reflexivity].
  rewrite chain_of_Some in Hself. discriminate.
Qed.

(** ** The contextual block check and the replay of lock points *)

Section ContextFacts.
Context `{Consensus} `{ChainContext}.

(** The cutoff of [ContextualCheckBlock]: the median time past of the
    parent, the flag being a non-zero constant. *)
Lemma lock_time_cutoff_flag :
  has_flag (Z.lor 0 LOCKTIME_MEDIAN_TIME_PAST) LOCKTIME_MEDIAN_TIME_PAST
  = negb (LOCKTIME_MEDIAN_TIME_PAST =? 0).
Proof. unfold has_flag. by rewrite Z.lor_0_l, Z.land_diag. Qed.
End ContextFacts.

(** X18.  [ContextualCheckBlock] rejects a block that holds a transaction
    which is not final at the height after the parent and at the
    parent's median time past: it returns false with reason
    [bad-txns-nonfinal], code [REJECT_INVALID] and 10 added to the
    misbehaviour score. *)
Theorem ContextualCheckBlock_rejects_non_final `{Consensus} `{ChainContext}
        (block : CBlock) (state : CValidationState) (prev : CBlockIndex)
        (tx : CTransaction) :
  LOCKTIME_MEDIAN_TIME_PAST <> 0 ->
  mode state = MODE_VALID ->
  tx ∈ vtx block ->
  IsFinalTx tx (int32 (nHeight prev + 1)) (GetMedianTimePast prev) = false ->
  exists st' events,
    ContextualCheckBlock block state (Some prev) = Some (false, st', events)
    /\ strRejectReason st' = "bad-txns-nonfinal"
    /\ chRejectCode st' = REJECT_INVALID
    /\ nDoS st' = nDoS state + 10.
Proof.
  intros Hflag Hmode Hin Hnf. unfold ContextualCheckBlock.
  rewrite lock_time_cutoff_flag.
  destruct (Z.eqb_spec LOCKTIME_MEDIAN_TIME_PAST 0); [done|]. simpl.
  assert (Hall : forallb (fun tx => IsFinalTx tx (int32 (nHeight prev + 1))
                                              (GetMedianTimePast prev)) (vtx block) = false).
  { apply not_true_is_false. intros Hall. rewrite forallb_forall in Hall.
    apply list_elem_of_In in Hin. rewrite (Hall tx Hin) in Hnf. discriminate. }
  rewrite Hall. simpl. eexists _, _. split.
  - rewrite (surjective_pairing (DoS _ _ _ _ _ _ _)) at 1. rewrite DoS_ret. reflexivity.
  - rewrite DoS_reason, DoS_code, DoS_nDoS, Hmode. by repeat split.
Qed.

(** X19.  A block that [ContextualCheckBlock] accepts has a parent, every
    transaction of it is final at the height after the parent and at the
    parent's median time past, and, when its version is 2 or more and
    the supermajority of the recent blocks is, the script of the first
    input of its first transaction starts with the serialized height.
    The validation state is untouched and nothing is logged. *)
Theorem ContextualCheckBlock_accepts `{Consensus} `{ChainContext}
        (block : CBlock) (state st' : CValidationState)
        (pindexPrev : option CBlockIndex) (events : list Event) :
  LOCKTIME_MEDIAN_TIME_PAST <> 0 ->
  ContextualCheckBlock block state pindexPrev = Some (true, st', events) ->
  st' = state /\ events = []
  /\ exists prev,
      pindexPrev = Some prev
      /\ Forall (fun tx => IsFinalTx tx (int32 (nHeight prev + 1))
                                     (GetMedianTimePast prev) = true) (vtx block)
      /\ (2 <= block_nVersion (header block) ->
          IsSuperMajority 2 pindexPrev (uint32 nMajorityEnforceBlockUpgrade) = true ->
          exists tx0 txin0,
            vtx block !! 0%nat = Some tx0 /\ vin tx0 !! 0%nat = Some txin0
            /\ take (length (height_script (int32 (nHeight prev + 1)))) (scriptSig txin0)
               = height_script (int32 (nHeight prev + 1))).
Proof.
  intros Hflag. unfold ContextualCheckBlock. rewrite lock_time_cutoff_flag.
  destruct (Z.eqb_spec LOCKTIME_MEDIAN_TIME_PAST 0); [done|]. simpl.
  destruct pindexPrev as [prev|]; simpl; [|discriminate].
  destruct (forallb _ (vtx block)) eqn:Hall; simpl.
  2:{ intros [= Hr _]. apply (f_equal fst) in Hr. rewrite DoS_ret in Hr. discriminate. }
  assert (Hfinal : Forall (fun tx => IsFinalTx tx (int32 (nHeight prev + 1))
                                               (GetMedianTimePast prev) = true) (vtx block)).
  { apply Forall_forall. intros tx Hin. rewrite forallb_forall in Hall.
    apply Hall. by apply list_elem_of_In. }
  destruct ((2 <=? block_nVersion (header block)) && IsSuperMajority 2 (Some prev) _)
    eqn:Hrule.
  - destruct (vtx block !! 0%nat) as [tx0|] eqn:Htx0; simpl; [|discriminate].
    destruct (vin tx0 !! 0%nat) as [txin0|] eqn:Hin0; simpl; [|discriminate].
    destruct (_ || _) eqn:Hprefix.
    { intros [= Hr _]. apply (f_equal fst) in Hr. rewrite DoS_ret in Hr. discriminate. }
    intros [= <- <-]. split; [reflexivity|]. split; [reflexivity|].
    exists prev. split; [reflexivity|]. split; [exact Hfinal|].
    intros _ _. exists tx0, txin0. split; [reflexivity|]. split; [exact Hin0|].
    apply orb_false_iff in Hprefix as [_ Hp].
    by apply negb_false_iff, bool_decide_eq_true in Hp.
  - intros [= <- <-]. split; [reflexivity|]. split; [reflexivity|].
    exists prev. split; [reflexivity|]. split; [exact Hfinal|].
    intros Hv Hm. rewrite Hm, andb_true_r in Hrule. apply Z.leb_gt in Hrule. lia.
Qed.

(** X20.  A call of [CheckSequenceLocks] that computes lock points either
    misses the coin of an input, and then returns false, logs the error
    and leaves the lock points of the caller as they were; or it stores
    lock points that can be replayed: a second call that reuses them
    returns the same verdict without looking up a coin and leaves the
    world as it is, and they pass [TestLockPointValidity] while every
    ancestor of the tip is in the active chain. *)
Theorem CheckSequenceLocks_replay
        `{Consensus} `{Node} `{BlockChecks} `{Policy} `{ChainContext}
        (tx : CTransaction) (flags : Z) (lp0 : LockPoints) (w w' : World)
        (verdict : bool) (lp : option LockPoints) :
  CheckSequenceLocks tx flags (Some lp0) false w = Some (inr (verdict, lp), w') ->
  (verdict = false /\ lp = Some lp0
   /\ last (w_events w') = Some (EvError "CheckSequenceLocks: Missing input"))
  \/ ((exists lp', lp = Some lp')
      /\ CheckSequenceLocks tx flags lp true w' = Some (inr (verdict, lp), w')
      /\ ((forall tip h b, chainActive_Tip = Some tip -> GetAncestor tip h = Some b ->
                           chainActive_Contains b = true) ->
          TestLockPointValidity lp = Some true)).
Proof.
  unfold CheckSequenceLocks.
  destruct chainActive_Tip as [tip|] eqn:Htip; [|discriminate].
  unfold adm_bind, adm_get, adm_modify, adm_ret, adm_crash. simpl.
  destruct (collect_prevheights (w_pool w) (w_tip w) (nHeight tip) (vin tx))
    as [tip' [prevheights|]] eqn:Hcollect.
  2:{ intros [= <- <- <-]. left. simpl. by rewrite last_snoc. }
  simpl.
  destruct (CalculateSequenceLocks tx flags prevheights _) as [[[mh mt] hs]|];
    [|discriminate].
  destruct (EvaluateSequenceLocks _ (mh, mt)) as [b|] eqn:Heval; [|discriminate].
  intros [= <- <- <-]. right. split; [by eexists|]. split.
  - cbn [lp_height lp_time fst snd]. by rewrite Heval.
  - intros Hchain. unfold TestLockPointValidity. simpl.
    destruct (GetAncestor tip _) as [anc|] eqn:Hanc; [|reflexivity].
    by rewrite (Hchain tip _ anc eq_refl Hanc).
Qed.

(** ** The proof-of-stake reward *)

(** X21.  From height 1005000 on the proof-of-stake reward is the yearly
    25% on the coin age, cut so that the money supply of the tip plus
    the reward does not pass [MAX_MONEY]: the reward is the smaller of
    the subsidy and the room left below [MAX_MONEY], it never lifts the
    supply above [MAX_MONEY], and it does not decrease when the coin
    age grows. *)
Theorem GetProofOfStakeReward_capped
        `{Consensus} `{Node} `{ChainContext} `{Reward.Amounts}
        (tip : CBlockIndex) (nCoinAge nHeight : Z) :
  chainActive_Tip = Some tip ->
  1005000 <= nHeight ->
  0 <= Reward.CENT -> 0 <= nCoinAge ->
  nCoinAge * (25 * Reward.CENT) < 2 ^ 62 ->
  0 <= nMoneySupply tip < 2 ^ 62 -> 0 <= MAX_MONEY < 2 ^ 62 ->
  Reward.GetProofOfStakeReward nCoinAge nHeight
  = Some (Z.min (Reward.stake_subsidy nCoinAge) (MAX_MONEY - nMoneySupply tip))
  /\ nMoneySupply tip + Z.min (Reward.stake_subsidy nCoinAge)
                              (MAX_MONEY - nMoneySupply tip) <= MAX_MONEY
  /\ forall older, nCoinAge <= older -> older * (25 * Reward.CENT) < 2 ^ 62 ->
       Reward.stake_subsidy nCoinAge <= Reward.stake_subsidy older.
Proof.
  intros Htip Hh Hcent Hage Hprod Hcms Hmax.
  assert (Hsub : forall age, 0 <= age -> age * (25 * Reward.CENT) < 2 ^ 62 ->
                   Reward.stake_subsidy age = Z.quot (age * (25 * Reward.CENT)) 365
                   /\ 0 <= Reward.stake_subsidy age < 2 ^ 62).
  { intros age Ha Hp. unfold Reward.stake_subsidy.
    assert (H25 : 0 <= 25 * Reward.CENT) by lia.
    assert (Hc : 25 * Reward.CENT < 2 ^ 62 \/ age = 0).
    { destruct (Z.eq_dec age 0) as [->|Hpos]; [by right|left].
      assert (1 * (25 * Reward.CENT) <= age * (25 * Reward.CENT))
        by (apply Z.mul_le_mono_nonneg_r; lia).
      lia. }
    assert (Hi : int64 (age * int64 (25 * Reward.CENT)) = age * (25 * Reward.CENT)).
    { destruct Hc as [Hc | ->].
      - rewrite (int64_small (25 * Reward.CENT)) by lia. apply int64_small. nia.
      - rewrite !Z.mul_0_l. by apply int64_small. }
    rewrite Hi. split; [reflexivity|].
    assert (Hnn : 0 <= age * (25 * Reward.CENT)) by (apply Z.mul_nonneg_nonneg; lia).
    split; [apply Z.quot_pos; lia|].
    apply Z.quot_lt_upper_bound; lia. }
  destruct (Hsub nCoinAge Hage Hprod) as [Hval Hrange].
  split; [|split].
  - unfold Reward.GetProofOfStakeReward. rewrite Htip. simpl.
    destruct (Z.eqb_spec (nMoneySupply tip) MAX_MONEY) as [Heq|Hne].
    { f_equal. lia. }
    destruct (Z.ltb_spec nHeight 1005000); [lia|]. rewrite andb_false_r.
    destruct (Z.leb_spec 1005000 nHeight); [|lia].
    rewrite (int64_small (nMoneySupply tip + _)) by lia.
    destruct (Z.ltb_spec MAX_MONEY (nMoneySupply tip + Reward.stake_subsidy nCoinAge)).
    + rewrite (int64_small (_ - MAX_MONEY)) by lia.
      rewrite int64_small by lia. f_equal. lia.
    + f_equal. lia.
  - lia.
  - intros older Hle Hp.
    destruct (Hsub older ltac:(lia) Hp) as [Hval' _]. rewrite Hval, Hval'.
    apply Z.quot_le_mono; [lia|]. nia.
Qed.

(** ** Positions in the block files *)

Section BlockFileFacts.
Import BlockFile.
Context `{Storage}.

Lemma size_of_range vinfo file :
  sizes_in_range vinfo -> 0 <= size_of vinfo file < 2 ^ 31.
Proof.
  intros Hall. unfold size_of.
  destruct (vinfo !! Z.to_nat file) as [info|] eqn:Hl; simpl; [|lia].
  by apply (Forall_lookup_1 _ _ _ _ Hall Hl).
Qed.

Lemma grow_spec vinfo file :
  0 <= file < 2 ^ 31 ->
  (Z.to_nat file < length (grow vinfo file))%nat
  /\ (forall f, size_of (grow vinfo file) f = size_of vinfo f)
  /\ (sizes_in_range vinfo -> sizes_in_range (grow vinfo file))
  /\ (length (grow vinfo file) = length vinfo `max` (Z.to_nat file + 1))%nat.
Proof.
  intros Hfile. unfold grow.
  destruct (Z.leb_spec (Z.of_nat (length vinfo)) file) as [Hle|Hgt].
  - rewrite uint32_small by lia.
    rewrite resize_ge by lia. split; [|split; [|split]].
    + rewrite length_app, length_replicate. lia.
    + intros f. unfold size_of.
      destruct (decide (Z.to_nat f < length vinfo)%nat) as [Hin|Hout].
      * by rewrite lookup_app_l.
      * rewrite lookup_app_r by lia. rewrite (lookup_ge_None_2 vinfo) by lia.
        destruct (replicate _ _ !! _) as [x|] eqn:Hx; [|reflexivity].
        apply lookup_replicate in Hx as [-> _]. reflexivity.
    + intros Hall. apply Forall_app. split; [exact Hall|].
      apply Forall_replicate. simpl. lia.
    + rewrite length_app, length_replicate. lia.
  - split; [lia|]. split; [done|]. split; [done|]. lia.
Qed.

(** The search ends at the first file with room, the fresh file behind
    the last one at the latest. *)
Lemma next_file_spec (nAddSize : Z) :
  0 <= nAddSize < MAX_BLOCKFILE_SIZE -> MAX_BLOCKFILE_SIZE <= 2 ^ 31 ->
  forall (fuel : nat) (vinfo : list CBlockFileInfo) (file : Z),
    sizes_in_range vinfo ->
    0 <= file -> (Z.to_nat file < length vinfo)%nat -> Z.of_nat (length vinfo) < 2 ^ 31 ->
    (length vinfo - Z.to_nat file < fuel)%nat ->
    exists vinfo' file',
      next_file fuel vinfo file nAddSize = Some (vinfo', file')
      /\ file <= file' /\ (Z.to_nat file' < length vinfo')%nat
      /\ file' <= Z.of_nat (length vinfo)
      /\ (forall f, size_of vinfo' f = size_of vinfo f)
      /\ sizes_in_range vinfo'
      /\ size_of vinfo file' + nAddSize < MAX_BLOCKFILE_SIZE
      /\ (forall f, file <= f < file' -> MAX_BLOCKFILE_SIZE <= size_of vinfo f + nAddSize).
Proof.
  intros Hadd Hmax. induction fuel as [|fuel IH]; intros vinfo file Hsizes Hfile Hin Hlen Hfuel;
    [lia|].
  cbn [next_file].
  destruct (vinfo !! Z.to_nat file) as [info|] eqn:Hinfo;
    [|apply lookup_ge_None in Hinfo; lia].
  simpl.
  assert (Hsz : size_of vinfo file = nSize info) by (unfold size_of; by rewrite Hinfo).
  pose proof (size_of_range vinfo file Hsizes) as Hr. rewrite Hsz in Hr.
  rewrite (uint32_small (nSize info + nAddSize)) by lia.
  destruct (Z.leb_spec MAX_BLOCKFILE_SIZE (nSize info + nAddSize)) as [Hfull|Hroom].
  - rewrite (uint32_small (file + 1)) by lia.
    destruct (grow_spec vinfo (file + 1) ltac:(lia)) as (Hin1 & Hsame1 & Hrange1 & Hlen1).
    destruct (decide (Z.to_nat file + 1 < length vinfo)%nat) as [Hmore|Hlast].
    + destruct (IH (grow vinfo (file + 1)) (file + 1)) as
        (vinfo' & file' & Hrun & Hle & Hin' & Hup & Hsame & Hrange & Hroom & Hskip);
        [by apply Hrange1 | lia | lia | lia | lia |].
      exists vinfo', file'. split; [exact Hrun|].
      split; [lia|]. split; [exact Hin'|]. split; [lia|].
      split; [intros f; by rewrite Hsame, Hsame1|]. split; [exact Hrange|].
      split; [by rewrite <- Hsame1|].
      intros f Hf. destruct (decide (f = file)) as [->|Hne]; [lia|].
      rewrite <- Hsame1. apply Hskip. lia.
    + (* the next file is a fresh one *)
      assert (Hfresh : size_of (grow vinfo (file + 1)) (file + 1) = 0).
      { rewrite Hsame1. unfold size_of. rewrite lookup_ge_None_2 by lia. reflexivity. }
      destruct fuel as [|fuel]; [lia|]. cbn [next_file].
      destruct (grow vinfo (file + 1) !! Z.to_nat (file + 1)) as [info1|] eqn:Hinfo1;
        [|apply lookup_ge_None in Hinfo1; lia].
      simpl.
      assert (Hz : nSize info1 = 0).
      { unfold size_of in Hfresh. by rewrite Hinfo1 in Hfresh. }
      rewrite Hz, Z.add_0_l, (uint32_small nAddSize) by lia.
      destruct (Z.leb_spec MAX_BLOCKFILE_SIZE nAddSize); [lia|].
      exists (grow vinfo (file + 1)), (file + 1). split; [reflexivity|].
      split; [lia|]. split; [exact Hin1|]. split; [lia|].
      split; [exact Hsame1|]. split; [by apply Hrange1|].
      split.
      * unfold size_of. rewrite lookup_ge_None_2 by lia. simpl. lia.
      * intros f Hf. assert (f = file) as -> by lia. lia.
  - exists vinfo, file. split; [reflexivity|]. split; [lia|]. split; [exact Hin|].
    split; [lia|]. split; [done|]. split; [exact Hsizes|]. split; [lia|].
    intros f Hf. lia.
Qed.

(** Fresh entries take what the entries before them take. *)
Lemma grow_sizes_take (nAddSize : Z) vinfo file :
  0 <= nAddSize < 2 ^ 32 -> sizes_take nAddSize vinfo -> sizes_take nAddSize (grow vinfo file).
Proof.
  intros Hadd Hsizes. unfold grow. destruct (_ <=? _); [|exact Hsizes].
  apply Forall_resize; [simpl; lia | exact Hsizes].
Qed.

(** A block that no file can take keeps the search going for ever. *)
Lemma next_file_oversize (nAddSize : Z) :
  0 <= nAddSize -> MAX_BLOCKFILE_SIZE <= nAddSize < 2 ^ 32 ->
  forall (fuel : nat) (vinfo : list CBlockFileInfo) (file : Z),
    sizes_take nAddSize vinfo ->
    next_file fuel vinfo file nAddSize = None.
Proof.
  intros Hpos Hadd. induction fuel as [|fuel IH]; intros vinfo file Hsizes; [reflexivity|].
  cbn [next_file].
  destruct (vinfo !! Z.to_nat file) as [info|] eqn:Hinfo; [|reflexivity]. simpl.
  pose proof (Forall_lookup_1 _ _ _ _ Hsizes Hinfo) as Hr. simpl in Hr.
  rewrite (uint32_small (nSize info + nAddSize)) by lia.
  destruct (Z.leb_spec MAX_BLOCKFILE_SIZE (nSize info + nAddSize)); [|lia].
  apply IH. apply grow_sizes_take; [lia | exact Hsizes].
Qed.

Lemma FlushBlockFile_returns (files : Files) (fFinalize : bool) :
  (fFinalize = true -> is_Some (info_at (vinfoBlockFile files) (nLastBlockFile files))) ->
  is_Some (FlushBlockFile files fFinalize).
Proof.
  intros Hin. unfold FlushBlockFile.
  destruct fFinalize.
  - destruct (Hin eq_refl) as [info Hinfo]. rewrite Hinfo. simpl.
    destruct (OpenBlockFile _ _), (OpenUndoFile _ _); by eexists.
  - destruct (OpenBlockFile _ _), (OpenUndoFile _ _); by eexists.
Qed.

Lemma FlushBlockFile_no_truncation (files : Files) (events : list FileEvent) :
  FlushBlockFile files false = Some events ->
  forall undo file size, EvTruncateFile undo file size ∉ events.
Proof.
  unfold FlushBlockFile.
  destruct (OpenBlockFile _ _), (OpenUndoFile _ _); simpl; intros [= <-] undo file size Hin;
    repeat (apply elem_of_cons in Hin as [Hin|Hin]; [discriminate|]);
    by apply elem_of_nil in Hin.
Qed.

Lemma CheckDiskSpace_files (files : Files) (n : Z) :
  vinfoBlockFile (CheckDiskSpace files n).1.2 = vinfoBlockFile files
  /\ nLastBlockFile (CheckDiskSpace files n).1.2 = nLastBlockFile files
  /\ setDirtyFileInfo (CheckDiskSpace files n).1.2 = setDirtyFileInfo files
  /\ ((CheckDiskSpace files n).1.1 = false ->
      strMiscWarning (CheckDiskSpace files n).1.2 = "Disk space is low!"
      /\ EvStartShutdown ∈ (CheckDiskSpace files n).2).
Proof.
  unfold CheckDiskSpace, AbortNode. destruct (_ <? _); simpl.
  - do 3 (split; [reflexivity|]). intros _. split; [reflexivity|].
    rewrite !elem_of_cons. tauto.
  - do 3 (split; [reflexivity|]). discriminate.
Qed.

Lemma size_of_set_info vinfo file info f :
  0 <= file -> 0 <= f -> (Z.to_nat file < length vinfo)%nat ->
  size_of (set_info vinfo file info) f
  = if decide (f = file) then nSize info else size_of vinfo f.
Proof.
  intros Hfile Hf Hin. unfold size_of, set_info.
  destruct (decide (f = file)) as [->|Hne].
  - by rewrite list_lookup_insert_eq.
  - rewrite list_lookup_insert_ne by lia. reflexivity.
Qed.
Lemma info_at_is_Some vinfo (i : Z) :
  0 <= i -> (Z.to_nat i < length vinfo)%nat -> is_Some (info_at vinfo i).
Proof.
  intros Hi Hin. unfold info_at. destruct (Z.ltb_spec i 0); [lia|].
  by apply lookup_lt_is_Some_2.
Qed.

Lemma switch_file_spec (files : Files) (file : Z) (fKnown : bool) :
  - 2 ^ 31 <= file < 2 ^ 31 ->
  (fKnown = false -> is_Some (info_at (vinfoBlockFile files) (nLastBlockFile files))) ->
  exists events,
    switch_file files file fKnown = Some (file, events)
    /\ (fKnown = true -> forall undo f size, EvTruncateFile undo f size ∉ events).
Proof.
  intros Hfile Hin. unfold switch_file. rewrite (int32_small file) by lia.
  destruct (Z.eqb_spec file (nLastBlockFile files)) as [->|Hne]; simpl.
  - eexists. split; [reflexivity|]. intros _ undo f size Hx. by apply elem_of_nil in Hx.
  - destruct (FlushBlockFile_returns files (negb fKnown)) as [flushed Hfl].
    { intros Hk. apply Hin. by destruct fKnown. }
    rewrite Hfl. destruct fKnown; simpl.
    + eexists. split; [reflexivity|]. intros _ undo f size Hx.
      by apply (FlushBlockFile_no_truncation _ _ Hfl undo f size).
    + destruct (Hin eq_refl) as [info ->]. simpl.
      eexists. split; [reflexivity|]. discriminate.
Qed.

Lemma record_block_spec (files : Files) (state : CValidationState) (pos : CDiskBlockPos)
      (file nAddSize nHeight nTime : Z) (fKnown : bool) (events : list FileEvent) :
  0 <= file < 2 ^ 31 -> (Z.to_nat file < length (vinfoBlockFile files))%nat ->
  exists r,
    record_block files state pos file nAddSize nHeight nTime fKnown events = Some r
    /\ fr_pos r = pos
    /\ nLastBlockFile (fr_files r) = nLastBlockFile files
    /\ (forall f, 0 <= f ->
          size_of (vinfoBlockFile (fr_files r)) f
          = if decide (f = file)
            then (if fKnown
                  then Z.max (uint32 (nPos pos + nAddSize)) (size_of (vinfoBlockFile files) file)
                  else uint32 (size_of (vinfoBlockFile files) file + nAddSize))
            else size_of (vinfoBlockFile files) f)
    /\ (fr_result r = true ->
        fr_state r = state /\ file ∈ setDirtyFileInfo (fr_files r))
    /\ (fKnown = true -> fr_result r = true /\ fr_events r = events).
Proof.
  intros Hfile Hin. unfold record_block.
  destruct (lookup_lt_is_Some_2 _ _ Hin) as [info Hinfo]. rewrite Hinfo. simpl.
  assert (Hsz : size_of (vinfoBlockFile files) file = nSize info)
    by (unfold size_of; by rewrite Hinfo).
  rewrite (int32_small file) by lia.
  assert (Hsizes : forall sized f, 0 <= f ->
            size_of (set_info (vinfoBlockFile files) file sized) f
            = if decide (f = file) then nSize sized else size_of (vinfoBlockFile files) f).
  { intros sized f Hf. apply size_of_set_info; lia. }
  destruct fKnown; simpl.
  - eexists. split; [reflexivity|]. simpl. split; [reflexivity|]. split; [reflexivity|].
    split; [intros f Hf; rewrite Hsizes by lia; by rewrite Hsz|].
    split; [intros _; split; [reflexivity | apply elem_of_union_l; by apply elem_of_singleton] | done].
  - match goal with
    | |- context [if ?a <? ?b then _ else _] => destruct (a <? b)
    end.
    + match goal with
      | |- context [CheckDiskSpace ?f ?n] =>
          pose proof (CheckDiskSpace_files f n) as (Hv & Hl & Hd & _);
          destruct (CheckDiskSpace f n) as [[ok files3] events2]
      end.
      simpl in Hv, Hl, Hd. destruct ok.
      * eexists. split; [reflexivity|]. simpl. rewrite Hv, Hl.
        split; [reflexivity|]. split; [reflexivity|].
        split; [intros f Hf; rewrite Hsizes by lia; by rewrite Hsz|].
        split; [intros _; split; [reflexivity | apply elem_of_union_l; by apply elem_of_singleton] | discriminate].
      * eexists. split; [reflexivity|]. simpl. rewrite Hv, Hl.
        split; [reflexivity|]. split; [reflexivity|].
        split; [intros f Hf; rewrite Hsizes by lia; by rewrite Hsz|].
        split; discriminate.
    + eexists. split; [reflexivity|]. simpl. split; [reflexivity|]. split; [reflexivity|].
      split; [intros f Hf; rewrite Hsizes by lia; by rewrite Hsz|].
      split; [intros _; split; [reflexivity | apply elem_of_union_l; by apply elem_of_singleton] | discriminate].
Qed.

Lemma record_block_failure (files : Files) (state : CValidationState) (pos : CDiskBlockPos)
      (file nAddSize nHeight nTime : Z) (fKnown : bool) (events : list FileEvent)
      (r : FindResult) :
  record_block files state pos file nAddSize nHeight nTime fKnown events = Some r ->
  fr_result r = false ->
  fKnown = false
  /\ mode (fr_state r) = MODE_ERROR
  /\ strMiscWarning (fr_files r) = "Disk space is low!"
  /\ EvStartShutdown ∈ fr_events r
  /\ setDirtyFileInfo (fr_files r) = setDirtyFileInfo files.
Proof.
  unfold record_block.
  destruct (vinfoBlockFile files !! Z.to_nat file) as [info|]; simpl; [|discriminate].
  destruct fKnown; simpl; [by intros [= <-]|].
  match goal with
  | |- context [if ?a <? ?b then _ else _] => destruct (a <? b)
  end; [|by intros [= <-]].
  match goal with
  | |- context [CheckDiskSpace ?f ?n] =>
      pose proof (CheckDiskSpace_files f n) as (_ & _ & Hd & Hfail);
      destruct (CheckDiskSpace f n) as [[ok files3] events2]
  end.
  simpl in Hd, Hfail. destruct ok; [by intros [= <-]|].
  intros [= <-] _. simpl. destruct (Hfail eq_refl) as [Hw Hev].
  split; [reflexivity|]. split; [reflexivity|]. split; [exact Hw|].
  split; [|exact Hd]. rewrite elem_of_app. by right.
Qed.
End BlockFileFacts.

Section BlockFilePositions.
Import BlockFile.

(** X22.  A block of a size below [MAX_BLOCKFILE_SIZE] gets a position:
    with fuel beyond the number of files [FindBlockPos] returns, the
    file it picks is the first one from [nLastBlockFile] on with room
    for the block (a fresh file at the latest), the position is the size
    that file had, the file grows by the size of the block and no other
    file changes size, and the file becomes the last block file.  When
    the value is true the state is untouched and the file is recorded
    as dirty. *)
Theorem FindBlockPos_new_position `{Storage}
        (fuel : nat) (files : Files) (state : CValidationState) (pos : CDiskBlockPos)
        (nAddSize nHeight nTime : Z) :
  0 <= nAddSize < MAX_BLOCKFILE_SIZE -> MAX_BLOCKFILE_SIZE <= 2 ^ 31 ->
  sizes_in_range (vinfoBlockFile files) ->
  0 <= nLastBlockFile files < 2 ^ 31 - 1 ->
  Z.of_nat (length (vinfoBlockFile files)) < 2 ^ 31 - 1 ->
  (length (vinfoBlockFile files) + 1 < fuel)%nat ->
  exists r,
    FindBlockPos fuel files state pos nAddSize nHeight nTime false = Some r
    /\ nLastBlockFile files <= nFile (fr_pos r)
    /\ nPos (fr_pos r) = size_of (vinfoBlockFile files) (nFile (fr_pos r))
    /\ nPos (fr_pos r) + nAddSize < MAX_BLOCKFILE_SIZE
    /\ (forall f, nLastBlockFile files <= f < nFile (fr_pos r) ->
                  MAX_BLOCKFILE_SIZE <= size_of (vinfoBlockFile files) f + nAddSize)
    /\ size_of (vinfoBlockFile (fr_files r)) (nFile (fr_pos r))
       = nPos (fr_pos r) + nAddSize
    /\ (forall f, 0 <= f -> f <> nFile (fr_pos r) ->
                  size_of (vinfoBlockFile (fr_files r)) f
                  = size_of (vinfoBlockFile files) f)
    /\ nLastBlockFile (fr_files r) = nFile (fr_pos r)
    /\ (fr_result r = true ->
        fr_state r = state /\ nFile (fr_pos r) ∈ setDirtyFileInfo (fr_files r)).
Proof.
  intros Hadd Hmax Hsizes Hlast Hlen Hfuel. unfold FindBlockPos. cbn [negb].
  rewrite (uint32_small (nLastBlockFile files)) by lia.
  destruct (grow_spec (vinfoBlockFile files) (nLastBlockFile files) ltac:(lia))
    as (Hin0 & Hsame0 & Hrange0 & Hlen0).
  destruct (next_file_spec nAddSize Hadd Hmax fuel
              (grow (vinfoBlockFile files) (nLastBlockFile files)) (nLastBlockFile files))
    as (vinfo1 & file & Hrun & Hle & Hin1 & Hup & Hsame1 & Hrange1 & Hroom & Hskip);
    [by apply Hrange0 | lia | exact Hin0 | lia | lia |].
  rewrite Hrun. simpl.
  destruct (vinfo1 !! Z.to_nat file) as [info|] eqn:Hinfo;
    [|apply lookup_ge_None in Hinfo; lia].
  simpl.
  assert (Hsz : nSize info = size_of (vinfoBlockFile files) file).
  { rewrite <- Hsame0, <- Hsame1. unfold size_of. by rewrite Hinfo. }
  pose proof (size_of_range _ file Hsizes) as Hszr. rewrite <- Hsz in Hszr.
  assert (Hfile : int32 file = file) by (apply int32_small; lia).
  rewrite Hfile.
  destruct (switch_file_spec
              (mkFiles vinfo1 (nLastBlockFile files) (setDirtyFileInfo files)
                       (strMiscWarning files)) file false) as (events1 & Hswitch & _);
    [lia | intros _; simpl; apply info_at_is_Some; lia |].
  rewrite Hswitch. simpl.
  destruct (record_block_spec
              (mkFiles vinfo1 file (setDirtyFileInfo files) (strMiscWarning files))
              state (mkPos file (nSize info)) file nAddSize nHeight nTime false events1)
    as (r & Hrec & Hpos & Hl & Hsize & Hok & _); [lia | simpl; lia |].
  exists r. split; [exact Hrec|]. rewrite Hpos, Hl. simpl in *.
  assert (Hold : size_of vinfo1 file = nSize info) by (unfold size_of; by rewrite Hinfo).
  rewrite Hsame0 in Hroom. rewrite <- Hsz in Hroom.
  split; [lia|]. split; [exact Hsz|]. split; [lia|].
  split; [intros f Hf; rewrite <- Hsame0; by apply Hskip|].
  split.
  { rewrite Hsize by lia. rewrite decide_True by done. rewrite Hold.
    apply uint32_small. lia. }
  split.
  { intros f Hf Hne. rewrite Hsize by lia. rewrite decide_False by done.
    by rewrite Hsame1, Hsame0. }
  split; [reflexivity | exact Hok].
Qed.

(** X23.  A block of [MAX_BLOCKFILE_SIZE] bytes or more whose size,
    added to the size of any file, stays below 2^32, so that the
    unsigned sum of the search does not wrap, fits no file:
    [FindBlockPos] walks from file to file, appending fresh entries, and
    does not return, whatever the fuel.  (Where the sum wraps the
    search can end at a file that has no room.) *)
Theorem FindBlockPos_oversize_never_returns `{Storage}
        (files : Files) (state : CValidationState) (pos : CDiskBlockPos)
        (nAddSize nHeight nTime : Z) :
  0 <= nAddSize -> MAX_BLOCKFILE_SIZE <= nAddSize < 2 ^ 32 ->
  sizes_take nAddSize (vinfoBlockFile files) ->
  forall fuel,
    FindBlockPos fuel files state pos nAddSize nHeight nTime false = None.
Proof.
  intros Hpos Hadd Hsizes fuel. unfold FindBlockPos. cbn [negb].
  rewrite next_file_oversize; [reflexivity | assumption | assumption |].
  apply grow_sizes_take; [lia | exact Hsizes].
Qed.

(** X24.  For a block whose position is known [FindBlockPos] keeps the
    position and always returns true: the size of the file becomes the
    larger of its old size and the end of the block, so that it never
    shrinks, no other file changes size, no file is truncated, and the
    file is recorded as dirty and as the last block file. *)
Theorem FindBlockPos_known_position `{Storage}
        (fuel : nat) (files : Files) (state : CValidationState) (pos : CDiskBlockPos)
        (nAddSize nHeight nTime : Z) :
  0 <= nFile pos < 2 ^ 31 - 1 ->
  exists r,
    FindBlockPos fuel files state pos nAddSize nHeight nTime true = Some r
    /\ fr_result r = true /\ fr_state r = state /\ fr_pos r = pos
    /\ size_of (vinfoBlockFile (fr_files r)) (nFile pos)
       = Z.max (uint32 (nPos pos + nAddSize)) (size_of (vinfoBlockFile files) (nFile pos))
    /\ (forall f, 0 <= f -> f <> nFile pos ->
                  size_of (vinfoBlockFile (fr_files r)) f
                  = size_of (vinfoBlockFile files) f)
    /\ nLastBlockFile (fr_files r) = nFile pos
    /\ nFile pos ∈ setDirtyFileInfo (fr_files r)
    /\ (forall undo file size, EvTruncateFile undo file size ∉ fr_events r).
Proof.
  intros Hfile. unfold FindBlockPos. cbn [negb].
  rewrite (uint32_small (nFile pos)) by lia.
  destruct (grow_spec (vinfoBlockFile files) (nFile pos) ltac:(lia))
    as (Hin0 & Hsame0 & _ & _).
  simpl.
  destruct (switch_file_spec
              (mkFiles (grow (vinfoBlockFile files) (nFile pos)) (nLastBlockFile files)
                       (setDirtyFileInfo files) (strMiscWarning files))
              (nFile pos) true) as (events1 & Hswitch & Hnotrunc); [lia | discriminate |].
  rewrite Hswitch. simpl.
  destruct (record_block_spec
              (mkFiles (grow (vinfoBlockFile files) (nFile pos)) (nFile pos)
                       (setDirtyFileInfo files) (strMiscWarning files))
              state pos (nFile pos) nAddSize nHeight nTime true events1)
    as (r & Hrec & Hpos & Hl & Hsize & Hok & Hknown); [lia | simpl; lia |].
  exists r. split; [exact Hrec|]. simpl in *.
  destruct (Hknown eq_refl) as [Hres Hev].
  destruct (Hok Hres) as [Hst Hdirty].
  split; [exact Hres|]. split; [exact Hst|]. split; [exact Hpos|].
  split; [rewrite Hsize by lia; rewrite decide_True by done; by rewrite Hsame0|].
  split.
  { intros f Hf Hne. rewrite Hsize by lia. rewrite decide_False by done. apply Hsame0. }
  split; [exact Hl|]. split; [exact Hdirty|].
  rewrite Hev. by apply Hnotrunc.
Qed.

(** X25.  [FindBlockPos] returns false only when the free disk space does
    not cover the pre-allocation for a block without a known position:
    the node is then being shut down with the warning
    [Disk space is low!], the state is in error, and the file is not
    recorded as dirty. *)
Theorem FindBlockPos_out_of_disk `{Storage}
        (fuel : nat) (files : Files) (state : CValidationState) (pos : CDiskBlockPos)
        (nAddSize nHeight nTime : Z) (fKnown : bool) (r : FindResult) :
  FindBlockPos fuel files state pos nAddSize nHeight nTime fKnown = Some r ->
  fr_result r = false ->
  fKnown = false
  /\ mode (fr_state r) = MODE_ERROR
  /\ strMiscWarning (fr_files r) = "Disk space is low!"
  /\ EvStartShutdown ∈ fr_events r
  /\ setDirtyFileInfo (fr_files r) = setDirtyFileInfo files.
Proof.
  unfold FindBlockPos. intros Hrun Hfalse.
  destruct (if negb fKnown then _ else _) as [[[vinfo1 file] pos1]|]; simpl in Hrun;
    [|discriminate].
  destruct (switch_file _ file fKnown) as [[last events1]|]; simpl in Hrun; [|discriminate].
  by apply (record_block_failure _ _ _ _ _ _ _ _ _ _ Hrun Hfalse).
Qed.
End BlockFilePositions.

(** ** Wallet transactions on disk, and the warnings *)

Section WalletFacts.
Import Wallet.
Context `{Text}.

Lemma erase_reserved_lookup (m : mapValue_t) (k : string) :
  erase_reserved m !! k = if bool_decide (k ∈ reserved_keys) then None else m !! k.
Proof.
  unfold erase_reserved, reserved_keys.
  destruct (bool_decide_reflect (k ∈ ["fromaccount"; "version"; "spent"; "n"; "timesmart"]))
    as [Hin|Hout].
  - repeat (apply elem_of_cons in Hin as [->|Hin];
            [repeat (rewrite lookup_delete_ne by done); apply lookup_delete_eq|]).
    by apply elem_of_nil in Hin.
  - rewrite !lookup_delete_ne; [reflexivity|..];
      intros <-; apply Hout; rewrite !elem_of_cons; tauto.
Qed.

Lemma erase_reserved_insert (m : mapValue_t) (k v : string) :
  k ∈ reserved_keys -> erase_reserved (<[k := v]> m) = erase_reserved m.
Proof.
  intros Hin. apply map_eq. intros j. rewrite !erase_reserved_lookup.
  destruct (bool_decide_reflect (j ∈ reserved_keys)) as [Hj|Hj]; [reflexivity|].
  rewrite lookup_insert_ne; [reflexivity|]. by intros <-.
Qed.

Lemma erase_reserved_written (wtx : CWalletTx) :
  erase_reserved (ser_mapValue (SerializationOp_write wtx).1) = erase_reserved (mapValue wtx).
Proof.
  unfold SerializationOp_write, WriteOrderPos. cbn [fst ser_mapValue].
  destruct (negb (nTimeSmart wtx =? 0)), (nOrderPos wtx =? -1);
    rewrite ?erase_reserved_insert; try reflexivity;
    unfold reserved_keys; rewrite !elem_of_cons; tauto.
Qed.
End WalletFacts.

Section WalletSerialization.
Import Wallet.

(** X26.  A wallet transaction written by [SerializationOp] and read back
    is the same in every field that is stored: the base class, the
    order form, the times, the account, the position in the ordered
    list and the smart time, which travel as entries of [mapValue], and
    [mapValue] itself without the reserved keys.  It needs that the
    conversions to text are undone by [atoi64] for the two numbers, and
    that [mapValue] has no entry of its own under [n] or [timesmart]
    when the transaction has no position or no smart time. *)
Theorem SerializationOp_round_trip `{Text} (wtx other : CWalletTx) :
  (nOrderPos wtx = -1 -> mapValue wtx !! "n" = None) ->
  (nOrderPos wtx <> -1 -> atoi64 (i64tostr (nOrderPos wtx)) = nOrderPos wtx) ->
  (nTimeSmart wtx = 0 -> mapValue wtx !! "timesmart" = None) ->
  (nTimeSmart wtx <> 0 ->
   uint32 (atoi64 (format_unsigned (nTimeSmart wtx))) = nTimeSmart wtx) ->
  let back := SerializationOp_read other (SerializationOp_write wtx).1 in
  merkle back = merkle wtx
  /\ vOrderForm back = vOrderForm wtx
  /\ fTimeReceivedIsTxTime back = fTimeReceivedIsTxTime wtx
  /\ nTimeReceived back = nTimeReceived wtx
  /\ fFromMe back = fFromMe wtx
  /\ strFromAccount back = strFromAccount wtx
  /\ nOrderPos back = nOrderPos wtx
  /\ nTimeSmart back = nTimeSmart wtx
  /\ mapValue back = erase_reserved (mapValue wtx)
  /\ mapValue back = mapValue (SerializationOp_write wtx).2.
Proof.
  intros Hn Hpos Ht Hsmart back.
  assert (Hmap : mapValue back = erase_reserved (mapValue wtx))
    by apply erase_reserved_written.
  do 5 (split; [reflexivity|]).
  split; [|split; [|split; [|split; [exact Hmap|]]]];
    [..| rewrite Hmap; symmetry; apply erase_reserved_written];
    subst back; unfold SerializationOp_read, SerializationOp_write, WriteOrderPos, ReadOrderPos;
    cbn [fst snd ser_mapValue strFromAccount nOrderPos nTimeSmart mapValue set_mapValue].
  - destruct (negb (nTimeSmart wtx =? 0)), (nOrderPos wtx =? -1);
      repeat (rewrite lookup_insert_ne by done); by rewrite lookup_insert_eq.
  - destruct (Z.eqb_spec (nOrderPos wtx) (-1)) as [Heq|Hne];
      destruct (negb (nTimeSmart wtx =? 0));
      repeat (rewrite lookup_insert_ne by done).
    + by rewrite (Hn Heq).
    + by rewrite (Hn Heq).
    + rewrite lookup_insert_eq. by apply Hpos.
    + rewrite lookup_insert_eq. by apply Hpos.
  - destruct (Z.eqb_spec (nTimeSmart wtx) 0) as [Heq|Hne]; cbn [negb].
    + destruct (nOrderPos wtx =? -1);
        repeat (rewrite lookup_insert_ne by done); by rewrite (Ht Heq).
    + rewrite lookup_insert_eq. by apply Hsmart.
Qed.

(** X27.  [SerializationOp] never leaves a reserved key in memory: after
    writing and after reading, [mapValue] has no entry under
    [fromaccount], [version], [spent], [n] and [timesmart], whatever it
    held before and whatever the stream holds, and under every other key
    it has the entry it had, or the entry of the stream. *)
Theorem SerializationOp_reserved_keys `{Text} (wtx : CWalletTx) (s : Serialized)
        (k : string) :
  (k ∈ reserved_keys ->
   mapValue (SerializationOp_write wtx).2 !! k = None
   /\ mapValue (SerializationOp_read wtx s) !! k = None)
  /\ (k ∉ reserved_keys ->
      mapValue (SerializationOp_write wtx).2 !! k = mapValue wtx !! k
      /\ mapValue (SerializationOp_read wtx s) !! k = ser_mapValue s !! k).
Proof.
  assert (Hw : mapValue (SerializationOp_write wtx).2 = erase_reserved (mapValue wtx)).
  { change (mapValue (SerializationOp_write wtx).2)
      with (erase_reserved (ser_mapValue (SerializationOp_write wtx).1)).
    apply erase_reserved_written. }
  rewrite Hw.
  change (mapValue (SerializationOp_read wtx s)) with (erase_reserved (ser_mapValue s)).
  rewrite !erase_reserved_lookup.
  split; intros Hk.
  - by rewrite bool_decide_eq_true_2.
  - by rewrite bool_decide_eq_false_2.
Qed.

(** X28.  An entry that [mapValue] holds under the key [n] takes the place
    of a missing position: a transaction without a position
    ([nOrderPos] is -1) whose [mapValue] has an entry under [n] is
    written with that entry, and is read back with the number that
    [atoi64] makes of it as its position. *)
Theorem SerializationOp_stale_order_position `{Text} (wtx other : CWalletTx)
        (text : string) :
  nOrderPos wtx = -1 -> mapValue wtx !! "n" = Some text ->
  ser_mapValue (SerializationOp_write wtx).1 !! "n" = Some text
  /\ nOrderPos (SerializationOp_read other (SerializationOp_write wtx).1) = atoi64 text
  /\ mapValue (SerializationOp_write wtx).2 !! "n" = None.
Proof.
  intros Hpos Hn.
  assert (Hs : ser_mapValue (SerializationOp_write wtx).1 !! "n" = Some text).
  { unfold SerializationOp_write, WriteOrderPos. cbn [fst ser_mapValue].
    rewrite Hpos. simpl (_ =? _).
    destruct (negb (nTimeSmart wtx =? 0));
      repeat (rewrite lookup_insert_ne by done); exact Hn. }
  split; [exact Hs|]. split.
  - unfold SerializationOp_read, ReadOrderPos. cbn [nOrderPos]. by rewrite Hs.
  - change (mapValue (SerializationOp_write wtx).2)
      with (erase_reserved (ser_mapValue (SerializationOp_write wtx).1)).
    rewrite erase_reserved_lookup. reflexivity.
Qed.
End WalletSerialization.

Section WarningFacts.
Import Warnings.

(** X29.  A warning in [strMiscWarning], such as the one of a disk that
    runs full, is what [GetWarnings] gives for the status bar and for
    the user interface unless one of the two fork warnings is up, which
    take its place; the answer for [rpc] never depends on it; and a
    parameter that is none of the three fails the assertion. *)
Theorem GetWarnings_misc_warning (translate : string -> string) (flags : Flags)
        (strMiscWarning : string) :
  strMiscWarning <> EmptyString ->
  (fLargeWorkForkFound flags = false -> fLargeWorkInvalidChainFound flags = false ->
   GetWarnings translate flags strMiscWarning "statusbar" = Some strMiscWarning
   /\ GetWarnings translate flags strMiscWarning "gui" = Some strMiscWarning)
  /\ (forall other,
        GetWarnings translate flags strMiscWarning "rpc"
        = GetWarnings translate flags other "rpc")
  /\ (forall strFor, strFor <> "gui" -> strFor <> "statusbar" -> strFor <> "rpc" ->
        GetWarnings translate flags strMiscWarning strFor = None).
Proof.
  intros Hmisc. unfold GetWarnings.
  rewrite (bool_decide_eq_false_2 _ Hmisc). cbn [negb].
  split; [|split].
  - intros -> ->.
    destruct (CLIENT_VERSION_IS_RELEASE flags), (testsafemode flags); by simpl.
  - intros other.
    destruct (CLIENT_VERSION_IS_RELEASE flags), (testsafemode flags),
      (fLargeWorkForkFound flags), (fLargeWorkInvalidChainFound flags),
      (bool_decide (other = EmptyString)); reflexivity.
  - intros strFor Hg Hs Hr.
    destruct (CLIENT_VERSION_IS_RELEASE flags), (testsafemode flags),
      (fLargeWorkForkFound flags), (fLargeWorkInvalidChainFound flags); cbn -[bool_decide];
      by rewrite !bool_decide_eq_false_2.
Qed.
End WarningFacts.

(* ===================================================================== *)
(** * Part V. The further properties at sample inputs                     *)
(* ===================================================================== *)

(** The transaction with a disabled lock on input 0 and a lock of 10
    blocks on input 1, over coins of the heights 3 and 4. *)
Lemma CalculateSequenceLocks_prevHeights_witness :
  @CalculateSequenceLocks Sample.consensus Sample.relative_locked 1 [3; 4] (Sample.chain 20)
  = Some ((13, -1), [0; 4])
  /\ length [3; 4] = length (vin Sample.relative_locked)
  /\ length [0; 4] = length [3; 4].
Proof.
  split; [reflexivity|].
  destruct (@CalculateSequenceLocks_prevHeights Sample.consensus Sample.relative_locked 1
              [3; 4] (Sample.chain 20) (13, -1) [0; 4] eq_refl) as (Hlen & Hsame & _).
  split; assumption.
Defined.

(** The same transaction in the block at height 20: input 1 is locked
    up to height 13. *)
Lemma SequenceLocks_respects_every_input_witness :
  @fEnforceBIP68 Sample.consensus Sample.relative_locked 1 = true
  /\ @SequenceLocks Sample.consensus Sample.relative_locked 1 [3; 4] (Sample.chain 20)
     = Some (true, [0; 4])
  /\ @contributes Sample.consensus (mkTxIn (5, 1) [] 10) = true
  /\ @height_constraint Sample.consensus (mkTxIn (5, 1) [] 10) 4 < nHeight (Sample.chain 20).
Proof.
  do 3 (split; [reflexivity|]).
  exact (@SequenceLocks_respects_every_input Sample.consensus Sample.relative_locked 1
           [3; 4] [0; 4] (Sample.chain 20) (Sample.chain 19) 1%nat (mkTxIn (5, 1) [] 10) 4
           eq_refl eq_refl eq_refl eq_refl eq_refl eq_refl).
Defined.

(** A transaction of version 1 is not held back. *)
Lemma SequenceLocks_not_enforced_witness :
  @fEnforceBIP68 Sample.consensus (Sample.spend (7, 0) 100) 1 = false
  /\ @SequenceLocks Sample.consensus (Sample.spend (7, 0) 100) 1 [5] (Sample.chain 3)
     = Some (true, [5]).
Proof.
  split; [reflexivity|].
  exact (@SequenceLocks_not_enforced Sample.consensus (Sample.spend (7, 0) 100) 1 [5]
           (Sample.chain 3) (Sample.chain 2) eq_refl eq_refl eq_refl).
Defined.

(** A spend of the coin of value 1000 at (7, 0) for an output of 900. *)
Lemma CheckTxInputs_conserves_value_witness :
  0 <= @MAX_MONEY Sample.consensus < 2 ^ 62
  /\ @CheckTxInputs Sample.consensus Sample.node (Sample.spend (7, 0) 100) state_valid
       (Sample.view_of Sample.coin) 0 = Some (true, state_valid)
  /\ exists coins,
      Forall2 (fun txin coin =>
                 AccessCoin (Sample.view_of Sample.coin) (prevout txin) = Some coin)
              (vin (Sample.spend (7, 0) 100)) coins
      /\ @GetValueOut Sample.consensus (Sample.spend (7, 0) 100) <= total_value coins.
Proof.
  assert (Hmax : 0 <= @MAX_MONEY Sample.consensus < 2 ^ 62) by (vm_compute; split; [discriminate|reflexivity]).
  split; [exact Hmax|]. split; [reflexivity|].
  destruct (@CheckTxInputs_conserves_value Sample.consensus Sample.node
              (Sample.spend (7, 0) 100) state_valid state_valid
              (Sample.view_of Sample.coin) 0 Hmax eq_refl eq_refl)
    as (_ & coins & Hcoins & _ & Hsum & _).
  exists coins. split; assumption.
Defined.

(** A spend of the outpoint (9, 0), which the view does not hold. *)
Lemma CheckInputs_missing_input_witness :
  let tx := Sample.spend (9, 0) 100 in
  let view := Sample.view_of Sample.coin in
  @IsCoinBase Sample.consensus tx = false
  /\ AccessCoin view (9, 0) = None
  /\ @GetSpendHeight Sample.node view = Some 1700001
  /\ exists st',
      @CheckInputs Sample.consensus Sample.node tx state_valid view true 7 true false
      = Some (false, st')
      /\ strDebugMessage st' = "Inputs unavailable"
      /\ nDoS st' = nDoS state_valid.
Proof.
  intros tx view. do 3 (split; [reflexivity|]).
  destruct (@CheckInputs_missing_input Sample.consensus Sample.node tx state_valid view
              (mkTxIn (9, 0) [] 4294967295) 1700001 true true false 7
              eq_refl (proj2 (elem_of_cons _ _ _) (or_introl eq_refl)) eq_refl eq_refl)
    as (st' & _ & Hrun & Hdebug & _ & Hscore).
  exists st'. repeat split; assumption.
Defined.

(** A verifier that accepts under the full standard flags only, asked
    under the mandatory flag alone. *)
Lemma CheckInputs_script_failure_score_witness :
  let tx := Sample.spend (7, 0) 100 in
  let view := Sample.view_of Sample.coin in
  exists st',
    @CheckTxInputs Sample.consensus Sample.lenient_node tx state_valid view 1700001
    = Some (true, state_valid)
    /\ @CheckInputs Sample.consensus Sample.lenient_node tx state_valid view true 1 true false
       = Some (false, st')
    /\ chRejectCode st' = REJECT_INVALID /\ nDoS st' = nDoS state_valid + 100.
Proof.
  intros tx view. eexists. split; [reflexivity|]. split; [vm_compute; reflexivity|].
  match goal with
  | |- chRejectCode ?st' = _ /\ _ =>
      destruct (@CheckInputs_script_failure_score Sample.consensus Sample.lenient_node
                  tx state_valid st' view 1700001 1 true eq_refl eq_refl eq_refl eq_refl)
        as (i & txin & coin & Hin & Hcoin & Hfail & Hscore)
  end.
  exact Hscore.
Defined.

(** A block of a coinbase and one spend. *)
Lemma CheckBlock_accepts_within_limits_witness :
  let block := Sample.block_of [Sample.coinbase; Sample.spend (7, 0) 100] 200 in
  fChecked block = false
  /\ cb_result (@CheckBlock Sample.consensus Sample.checks Sample.no_service block
                            state_valid true true) = true
  /\ Forall (fun tx => @CheckTransaction Sample.consensus tx = None) (vtx block)
  /\ @block_sigops Sample.checks (vtx block)
     <= @MAX_BLOCK_SIGOPS Sample.consensus.
Proof.
  intros block. do 2 (split; [reflexivity|]).
  destruct (@CheckBlock_accepts_within_limits Sample.consensus Sample.checks
              Sample.no_service block state_valid true true eq_refl eq_refl)
    as (_ & _ & _ & _ & _ & Htxs & Hsigops & _).
  split; assumption.
Defined.

(** A block with a second coinbase. *)
Lemma CheckBlock_rejection_marks_state_witness :
  let block := Sample.block_of [Sample.coinbase; Sample.spend (7, 0) 100; Sample.coinbase]
                               200 in
  let r := @CheckBlock Sample.consensus Sample.checks Sample.no_service block
                       state_valid true true in
  cb_result r = false /\ mode (cb_state r) <> MODE_VALID /\ cb_block r = block.
Proof.
  intros block r. split; [reflexivity|].
  exact (@CheckBlock_rejection_marks_state Sample.consensus Sample.checks
           Sample.no_service block state_valid true true eq_refl).
Defined.

(** The spend of the coin at (7, 0) enters the empty pool. *)
Lemma AcceptToMemoryPool_pool_membership_witness :
  let w := Sample.world (Some false) in
  let tx := Sample.spend (7, 0) 100 in
  exists w',
    @AcceptToMemoryPool Sample.consensus Sample.node Sample.checks Sample.policy
                        w tx true false true = Some (true, w')
    /\ pool_exists (w_pool w) (@GetHash Sample.consensus tx) = false
    /\ pool_exists (w_pool w') (@GetHash Sample.consensus tx) = true
    /\ last (w_events w')
       = Some (EvTransactionAddedToMempool (@GetHash Sample.consensus tx)).
Proof.
  intros w tx. eexists. split; [vm_compute; reflexivity|].
  match goal with
  | |- _ /\ pool_exists (w_pool ?w') _ = _ /\ _ =>
      exact (@AcceptToMemoryPool_pool_membership
               Sample.consensus Sample.node Sample.checks Sample.policy
               w w' tx true false true true eq_refl)
  end.
Defined.

(** A coinbase offered to the pool. *)
Lemma AcceptToMemoryPool_never_admits_coinbase_witness :
  let w := Sample.world (Some false) in
  @IsCoinBase Sample.consensus Sample.coinbase
  || @IsCoinStake Sample.consensus Sample.coinbase = true
  /\ exists w',
      @AcceptToMemoryPool Sample.consensus Sample.node Sample.checks Sample.policy
                          w Sample.coinbase true false true = Some (false, w')
      /\ w_pool w' = w_pool w
      /\ strRejectReason (w_state w') = "coinbase".
Proof.
  intros w. split; [reflexivity|]. eexists. split; [vm_compute; reflexivity|].
  match goal with
  | |- w_pool ?w' = _ /\ _ =>
      destruct (@AcceptToMemoryPool_never_admits_coinbase
                  Sample.consensus Sample.node Sample.checks Sample.policy
                  w w' Sample.coinbase true false true false eq_refl eq_refl)
        as (_ & Hpool & Hreason)
  end.
  split; [exact Hpool|]. exact (proj1 (Hreason eq_refl)).
Defined.

(** A second spend of the coin at (7, 0), offered to the pool that the
    first spend has entered. *)
Lemma AcceptToMemoryPool_never_admits_conflict_witness :
  exists w1 w2,
    @AcceptToMemoryPool Sample.consensus Sample.node Sample.checks Sample.policy
      (Sample.world (Some false)) (Sample.spend (7, 0) 100) true false true
    = Some (true, w1)
    /\ is_Some (mapNextTx (w_pool w1) !! (7, 0))
    /\ @AcceptToMemoryPool Sample.consensus Sample.node Sample.checks Sample.policy
         w1 (Sample.spend (7, 0) 101) true false true = Some (false, w2)
    /\ w_pool w2 = w_pool w1.
Proof.
  eexists _, _. split; [vm_compute; reflexivity|].
  match goal with
  | |- is_Some (mapNextTx (w_pool ?w1) !! _) /\ _ =>
      assert (Hspent : is_Some (mapNextTx (w_pool w1) !! (7, 0)))
        by (vm_compute; eexists; reflexivity)
  end.
  split; [exact Hspent|]. split; [vm_compute; reflexivity|].
  match goal with
  | |- w_pool ?w2 = w_pool ?w1 =>
      exact (proj2 (@AcceptToMemoryPool_never_admits_conflict
                      Sample.consensus Sample.node Sample.checks Sample.policy
                      w1 w2 (Sample.spend (7, 0) 101) (mkTxIn (7, 0) [] 4294967295)
                      true false true false
                      (proj2 (elem_of_cons _ _ _) (or_introl eq_refl)) Hspent eq_refl))
  end.
Defined.

(** A call in the mode NONE. *)
Lemma FlushStateToDisk_idle_witness :
  let E := Sample.flush_env IoOk IoOk IoOk in
  @FlushStateToDisk E Sample.globals state_valid FLUSH_STATE_NONE
  = mkFlushResult true state_valid (@init_statics E Sample.globals) [].
Proof.
  intros E.
  exact (@FlushStateToDisk_idle E Sample.globals state_valid FLUSH_STATE_NONE
           (or_introl eq_refl)).
Defined.

(** The first periodic call after the start of the node. *)
Lemma FlushStateToDisk_startup_witness :
  let E := Sample.flush_env IoOk IoOk IoOk in
  let g := mkFlushGlobals 0 0 0 {[ 1; 2 ]} {[ 0 ]} 0 1500000 in
  let r := @FlushStateToDisk E g state_valid FLUSH_STATE_PERIODIC in
  @projected_over E (@DynamicMemoryUsage E) (nCoinCacheUsage g) = false
  /\ fl_events r = []
  /\ nLastWrite (fl_globals r) = @GetTimeMicros E
  /\ setDirtyBlockIndex (fl_globals r) = setDirtyBlockIndex g.
Proof.
  intros E g r. split; [reflexivity|].
  assert (Hw : 0 <= @DATABASE_WRITE_INTERVAL E * 1000000 < 2 ^ 62)
    by (vm_compute; split; [discriminate|reflexivity]).
  assert (Hf : 0 <= @DATABASE_FLUSH_INTERVAL E * 1000000 < 2 ^ 62)
    by (vm_compute; split; [discriminate|reflexivity]).
  assert (Ht : 0 <= @GetTimeMicros E < 2 ^ 62)
    by (vm_compute; split; [discriminate|reflexivity]).
  destruct (@FlushStateToDisk_startup E g state_valid eq_refl eq_refl eq_refl eq_refl
              Hw Hf Ht) as (_ & _ & Hev & Hwrite & _ & _ & Hdirty & _).
  repeat split; assumption.
Defined.

(** The last four of the six blocks up to height 5 have version 2. *)
Lemma IsSuperMajority_counts_witness :
  0 <= 3 < 2 ^ 32
  /\ @majority_count SampleChain.short_context 2 (Some (Sample.chain 5)) = 4%nat
  /\ @IsSuperMajority SampleChain.short_context 2 (Some (Sample.chain 5)) 3 = true
  /\ @IsSuperMajority SampleChain.short_context 2 (Some (Sample.chain 5)) 5 = false.
Proof.
  assert (H3 : 0 <= 3 < 2 ^ 32) by (vm_compute; split; [discriminate|reflexivity]).
  assert (H5 : 0 <= 5 < 2 ^ 32) by (vm_compute; split; [discriminate|reflexivity]).
  split; [exact H3|]. split; [reflexivity|]. split.
  - exact (@IsSuperMajority_counts SampleChain.short_context 2 (Some (Sample.chain 5)) 3 H3).
  - reflexivity.
Defined.

(** A block that holds a transaction locked until height 2000000, on
    top of the block at height 3. *)
Lemma ContextualCheckBlock_rejects_non_final_witness :
  let block := Sample.block_of [Sample.coinbase; Sample.locked_spend (7, 0)] 200 in
  @LOCKTIME_MEDIAN_TIME_PAST Sample.consensus <> 0
  /\ @IsFinalTx Sample.consensus (Sample.locked_spend (7, 0))
       (int32 (nHeight (Sample.chain 3) + 1))
       (@GetMedianTimePast Sample.consensus (Sample.chain 3)) = false
  /\ exists st' events,
      @ContextualCheckBlock Sample.consensus SampleChain.context block state_valid
                            (Some (Sample.chain 3)) = Some (false, st', events)
      /\ strRejectReason st' = "bad-txns-nonfinal"
      /\ nDoS st' = nDoS state_valid + 10.
Proof.
  intros block.
  assert (Hflag : @LOCKTIME_MEDIAN_TIME_PAST Sample.consensus <> 0) by discriminate.
  split; [exact Hflag|]. split; [reflexivity|].
  destruct (@ContextualCheckBlock_rejects_non_final Sample.consensus SampleChain.context
              block state_valid (Sample.chain 3) (Sample.locked_spend (7, 0))
              Hflag eq_refl
              (proj2 (elem_of_cons _ _ _)
                     (or_intror (proj2 (elem_of_cons _ _ _) (or_introl eq_refl))))
              eq_refl) as (st' & events & Hrun & Hreason & _ & Hscore).
  exists st', events. repeat split; assumption.
Defined.

(** A block of version 1 with a coinbase alone, on top of the block at
    height 3. *)
Lemma ContextualCheckBlock_accepts_witness :
  let block := Sample.block_of [Sample.coinbase] 200 in
  @LOCKTIME_MEDIAN_TIME_PAST Sample.consensus <> 0
  /\ @ContextualCheckBlock Sample.consensus SampleChain.context block state_valid
                           (Some (Sample.chain 3)) = Some (true, state_valid, [])
  /\ exists prev,
      Some (Sample.chain 3) = Some prev
      /\ Forall (fun tx => @IsFinalTx Sample.consensus tx (int32 (nHeight prev + 1))
                             (@GetMedianTimePast Sample.consensus prev) = true)
                (vtx block).
Proof.
  intros block.
  assert (Hflag : @LOCKTIME_MEDIAN_TIME_PAST Sample.consensus <> 0) by discriminate.
  split; [exact Hflag|]. split; [reflexivity|].
  destruct (@ContextualCheckBlock_accepts Sample.consensus SampleChain.context
              block state_valid state_valid (Some (Sample.chain 3)) [] Hflag eq_refl)
    as (_ & _ & prev & Hprev & Hfinal & _).
  exists prev. split; assumption.
Defined.

(** The lock points computed for the spend of the coin at (7, 0) are
    replayed with the same verdict. *)
Lemma CheckSequenceLocks_replay_witness :
  let tx := Sample.spend (7, 0) 100 in
  exists verdict lp w',
    @CheckSequenceLocks Sample.consensus Sample.node Sample.policy tx 1
      (Some (mkLockPoints 0 0 None)) false (Sample.world (Some false))
    = Some (inr (verdict, lp), w')
    /\ @CheckSequenceLocks Sample.consensus Sample.node Sample.policy tx 1 lp true w'
       = Some (inr (verdict, lp), w')
    /\ @TestLockPointValidity SampleChain.context lp = Some true.
Proof.
  intros tx. eexists _, _, _. split; [vm_compute; reflexivity|].
  match goal with
  | |- CheckSequenceLocks _ _ ?lp _ ?w' = Some (inr (?verdict, _), _) /\ _ =>
      destruct (@CheckSequenceLocks_replay
                  Sample.consensus Sample.node Sample.checks Sample.policy
                  SampleChain.context tx 1 (mkLockPoints 0 0 None)
                  (Sample.world (Some false)) w' verdict lp eq_refl)
        as [(_ & _ & Hlast) | (_ & Hreplay & Hvalid)]
  end.
  - vm_compute in Hlast. discriminate Hlast.
  - split; [exact Hreplay|]. apply Hvalid. intros tip h b _ _. reflexivity.
Defined.

(** A coin age of 1000000 coin-days when the money supply is 1000 below
    its maximum: the subsidy of 684931506 is cut to 1000. *)
Lemma GetProofOfStakeReward_capped_witness :
  @Reward.stake_subsidy SampleChain.amounts 1000000 = 684931506
  /\ @Reward.GetProofOfStakeReward Sample.consensus Sample.node SampleChain.rich_context
       SampleChain.amounts 1000000 1700001 = Some 1000.
Proof.
  split; [reflexivity|].
  assert (Hmax : 0 <= @MAX_MONEY Sample.consensus < 2 ^ 62)
    by (vm_compute; split; [discriminate|reflexivity]).
  assert (Hsupply : 0 <= @nMoneySupply SampleChain.rich_context Sample.high_tip < 2 ^ 62)
    by (vm_compute; split; [discriminate|reflexivity]).
  exact (proj1 (@GetProofOfStakeReward_capped Sample.consensus Sample.node
                  SampleChain.rich_context SampleChain.amounts Sample.high_tip
                  1000000 1700001 eq_refl
                  ltac:(vm_compute; discriminate) ltac:(vm_compute; discriminate)
                  ltac:(vm_compute; discriminate) ltac:(vm_compute; reflexivity)
                  Hsupply Hmax)).
Defined.

Section BlockFileSamples.
Import BlockFile.

(** A block of 1000 bytes when file 0 holds 134217000 bytes: the block
    goes to the start of the fresh file 1. *)
Lemma FindBlockPos_new_position_witness :
  let S := SampleChain.storage 1000000000000 in
  let files := @SampleChain.files S in
  @sizes_in_range S (vinfoBlockFile files)
  /\ exists r,
      @FindBlockPos S 5 files state_valid (mkPos 0 0) 1000 10 1500000000 false = Some r
      /\ nFile (fr_pos r) = 1 /\ nPos (fr_pos r) = 0
      /\ size_of (vinfoBlockFile (fr_files r)) (nFile (fr_pos r)) = nPos (fr_pos r) + 1000
      /\ nLastBlockFile (fr_files r) = nFile (fr_pos r).
Proof.
  intros S files.
  assert (Hsizes : @sizes_in_range S (vinfoBlockFile files)).
  { constructor; [|constructor].
    vm_compute. split; [discriminate|reflexivity]. }
  split; [exact Hsizes|].
  destruct (@FindBlockPos_new_position S 5 files state_valid (mkPos 0 0) 1000 10 1500000000)
    as (r & Hrun & _ & _ & _ & _ & Hsize & _ & Hlast & _).
  - vm_compute. split; [discriminate|reflexivity].
  - vm_compute. discriminate.
  - exact Hsizes.
  - vm_compute. split; [discriminate|reflexivity].
  - vm_compute. reflexivity.
  - vm_compute. lia.
  - exists r. split; [exact Hrun|].
    assert (Hpos : fr_pos r = mkPos 1 0).
    { apply (f_equal (fun o => from_option fr_pos (mkPos 0 0) o)) in Hrun.
      vm_compute in Hrun. symmetry. exact Hrun. }
    split; [by rewrite Hpos|]. split; [by rewrite Hpos|]. split; assumption.
Defined.

(** A block of the full size of a file finds no place: the search has
    not ended after 1000 turns. *)
Lemma FindBlockPos_oversize_never_returns_witness :
  let S := SampleChain.storage 1000000000000 in
  @MAX_BLOCKFILE_SIZE S <= 134217728 < 2 ^ 32
  /\ @sizes_take S 134217728 (vinfoBlockFile (@SampleChain.files S))
  /\ @FindBlockPos S 1000 (@SampleChain.files S) state_valid (mkPos 0 0)
                   134217728 10 1500000000 false = None.
Proof.
  intros S.
  assert (Hsize : @MAX_BLOCKFILE_SIZE S <= 134217728 < 2 ^ 32)
    by (vm_compute; split; [discriminate|reflexivity]).
  assert (Hsizes : @sizes_take S 134217728 (vinfoBlockFile (@SampleChain.files S))).
  { constructor; [|constructor]. vm_compute. split; [discriminate|reflexivity]. }
  split; [exact Hsize|]. split; [exact Hsizes|].
  apply (@FindBlockPos_oversize_never_returns S (@SampleChain.files S) state_valid
           (mkPos 0 0) 134217728 10 1500000000);
    [vm_compute; discriminate | exact Hsize | exact Hsizes].
Defined.

(** Where the unsigned sum wraps the search ends: the file of 134217000
    bytes takes a block of 2^32 - 134217000 bytes at position 134217000,
    and its recorded size becomes 0. *)
Example FindBlockPos_oversize_wraps :
  let S := SampleChain.storage 1000000000000 in
  exists r,
    @FindBlockPos S 5 (@SampleChain.files S) state_valid (mkPos 0 0)
                  (2 ^ 32 - 134217000) 10 1500000000 false = Some r
    /\ fr_result r = true
    /\ fr_pos r = mkPos 0 134217000
    /\ size_of (vinfoBlockFile (fr_files r)) 0 = 0.
Proof. intros S. eexists. split; [vm_compute; reflexivity|]. repeat split. Qed.

(** A block of 1000 bytes known to lie at position 5000 of file 2, which
    the vector does not hold yet. *)
Lemma FindBlockPos_known_position_witness :
  let S := SampleChain.storage 1000000000000 in
  0 <= nFile (mkPos 2 5000) < 2 ^ 31 - 1
  /\ exists r,
      @FindBlockPos S 0 (@SampleChain.files S) state_valid (mkPos 2 5000)
                    1000 10 1500000000 true = Some r
      /\ fr_result r = true
      /\ size_of (vinfoBlockFile (fr_files r)) 2 = 6000
      /\ nLastBlockFile (fr_files r) = 2.
Proof.
  intros S.
  assert (Hfile : 0 <= nFile (mkPos 2 5000) < 2 ^ 31 - 1)
    by (vm_compute; split; [discriminate|reflexivity]).
  split; [exact Hfile|].
  destruct (@FindBlockPos_known_position S 0 (@SampleChain.files S) state_valid
              (mkPos 2 5000) 1000 10 1500000000 Hfile)
    as (r & Hrun & Hres & _ & _ & Hsize & _ & Hlast & _).
  exists r. split; [exact Hrun|]. split; [exact Hres|]. split; [exact Hsize | exact Hlast].
Defined.

(** The same block of 1000 bytes of unknown position on a disk without
    free space. *)
Lemma FindBlockPos_out_of_disk_witness :
  let S := SampleChain.storage 0 in
  exists r,
    @FindBlockPos S 5 (@SampleChain.files S) state_valid (mkPos 0 0)
                  1000 10 1500000000 false = Some r
    /\ fr_result r = false
    /\ mode (fr_state r) = MODE_ERROR
    /\ strMiscWarning (fr_files r) = "Disk space is low!"
    /\ setDirtyFileInfo (fr_files r) = ∅.
Proof.
  intros S. eexists. split; [vm_compute; reflexivity|].
  match goal with
  | |- fr_result ?r = false /\ _ =>
      destruct (@FindBlockPos_out_of_disk S 5 (@SampleChain.files S) state_valid (mkPos 0 0)
                  1000 10 1500000000 false r eq_refl eq_refl)
        as (_ & Hmode & Hwarn & _ & Hdirty)
  end.
  split; [reflexivity|]. split; [exact Hmode|]. split; [exact Hwarn | exact Hdirty].
Defined.
End BlockFileSamples.

Section WalletRoundTrips.
Import Wallet.

(** The wallet transaction of the account [savings] at position 7. *)
Lemma SerializationOp_round_trip_witness :
  let wtx := SampleChain.wallet_tx in
  let back := @SerializationOp_read SampleChain.text (Init wtx None)
                (@SerializationOp_write SampleChain.text wtx).1 in
  @atoi64 SampleChain.text (@i64tostr SampleChain.text (nOrderPos wtx)) = nOrderPos wtx
  /\ uint32 (@atoi64 SampleChain.text (@format_unsigned SampleChain.text (nTimeSmart wtx)))
     = nTimeSmart wtx
  /\ strFromAccount back = "savings"
  /\ nOrderPos back = 7
  /\ nTimeSmart back = 1500000100
  /\ mapValue back = erase_reserved (mapValue wtx).
Proof.
  intros wtx back.
  assert (Hpos : @atoi64 SampleChain.text (@i64tostr SampleChain.text (nOrderPos wtx))
                 = nOrderPos wtx) by reflexivity.
  assert (Hsmart : uint32 (@atoi64 SampleChain.text
                             (@format_unsigned SampleChain.text (nTimeSmart wtx)))
                   = nTimeSmart wtx) by reflexivity.
  split; [exact Hpos|]. split; [exact Hsmart|].
  destruct (@SerializationOp_round_trip SampleChain.text wtx (Init wtx None))
    as (_ & _ & _ & _ & _ & Hacc & Hn & Ht & Hmap & _).
  - intros Hnone. discriminate Hnone.
  - intros _. exact Hpos.
  - intros Hzero. discriminate Hzero.
  - intros _. exact Hsmart.
  - repeat split; assumption.
Defined.

(** A transaction without a position whose [mapValue] holds 12 under
    [n] comes back at position 12. *)
Lemma SerializationOp_stale_order_position_witness :
  let wtx := SampleChain.stale_tx in
  nOrderPos wtx = -1
  /\ mapValue wtx !! "n" = Some "12"
  /\ nOrderPos (@SerializationOp_read SampleChain.text (Init wtx None)
                  (@SerializationOp_write SampleChain.text wtx).1) = 12.
Proof.
  intros wtx. split; [reflexivity|].
  assert (Hn : mapValue wtx !! "n" = Some "12") by (vm_compute; reflexivity).
  split; [exact Hn|].
  exact (proj1 (proj2 (@SerializationOp_stale_order_position SampleChain.text wtx
                         (Init wtx None) "12" eq_refl Hn))).
Defined.
End WalletRoundTrips.

Section WarningSamples.
Import Warnings.

(** The warning of a full disk in a release build without fork warnings. *)
Lemma GetWarnings_misc_warning_witness :
  let flags := mkFlags true false false false in
  GetWarnings id flags "Disk space is low!" "statusbar" = Some "Disk space is low!"
  /\ GetWarnings id flags "Disk space is low!" "rpc" = Some EmptyString
  /\ GetWarnings id flags "Disk space is low!" "wallet" = None.
Proof.
  intros flags.
  destruct (GetWarnings_misc_warning id flags "Disk space is low!")
    as (Hshown & Hrpc & Hother); [discriminate|].
  split; [exact (proj1 (Hshown eq_refl eq_refl))|].
  split; [exact (Hrpc EmptyString)|].
  apply Hother; discriminate.
Defined.
End WarningSamples.

(** The accepted block of a coinbase and one spend is accepted again
    without any check, here by a call that asks for neither check and
    starts from another state. *)
Lemma CheckBlock_cached_verdict_witness :
  let block := Sample.block_of [Sample.coinbase; Sample.spend (7, 0) 100] 200 in
  let r := @CheckBlock Sample.consensus Sample.checks Sample.no_service block
                       state_valid true true in
  cb_result r = true
  /\ fChecked (cb_block r) = true
  /\ forall state',
      @CheckBlock Sample.consensus Sample.checks Sample.failing_service (cb_block r)
                  state' false false
      = mkCheckBlockResult true state' (cb_block r) [].
Proof.
  intros block r. split; [reflexivity|]. split; [reflexivity|].
  intros state'.
  exact (proj1 (@CheckBlock_cached_verdict Sample.consensus Sample.checks
                  Sample.no_service block state_valid true true)
               eq_refl eq_refl eq_refl Sample.failing_service state' false false).
Defined.

(** A full flush in the mode ALWAYS, the same call on a full disk, and
    the same call on a disk that has room for the block index alone:
    the batch is written and the dirty sets are empty, though the call
    returns false. *)
Lemma FlushStateToDisk_outcome_witness :
  let ok := @FlushStateToDisk (Sample.flush_env IoOk IoOk IoOk) Sample.globals
                              state_valid FLUSH_STATE_ALWAYS in
  let full := @FlushStateToDisk (Sample.flush_env IoFailed IoOk IoOk) Sample.globals
                                state_valid FLUSH_STATE_ALWAYS in
  let tight := @FlushStateToDisk Sample.tight_flush_env Sample.globals
                                 state_valid FLUSH_STATE_ALWAYS in
  (fl_result ok = true /\ fl_state ok = state_valid)
  /\ (fl_result full = false /\ mode (fl_state full) = MODE_ERROR /\ node_aborted full)
  /\ (fl_result tight = false
      /\ setDirtyBlockIndex (fl_globals tight) = ∅
      /\ setDirtyFileInfo (fl_globals tight) = ∅).
Proof.
  intros ok full tight. split; [|split].
  - split; [reflexivity|].
    exact (proj1 (proj1 (@FlushStateToDisk_outcome (Sample.flush_env IoOk IoOk IoOk)
                           Sample.globals state_valid FLUSH_STATE_ALWAYS) eq_refl)).
  - split; [reflexivity|].
    exact (proj1 (proj2 (@FlushStateToDisk_outcome (Sample.flush_env IoFailed IoOk IoOk)
                           Sample.globals state_valid FLUSH_STATE_ALWAYS)) eq_refl).
  - split; [reflexivity|].
    destruct (@FlushStateToDisk_outcome Sample.tight_flush_env Sample.globals state_valid
                FLUSH_STATE_ALWAYS) as (_ & _ & Hwritten & _).
    destruct Hwritten as (Hblocks & Hfiles & _); [|by split].
    eexists _, _, _. apply elem_of_cons. right. apply elem_of_cons. left. reflexivity.
Defined.

(** From the block at height 4 the nearest proof-of-stake block is the
    one at height 3. *)
Lemma GetLastBlockIndex_nearest_witness :
  @GetLastBlockIndex SampleChain.context (Some (Sample.chain 4)) true
  = Some (Sample.chain 3)
  /\ exists skipped rest,
      chain_of (Some (Sample.chain 4)) = skipped ++ Sample.chain 3 :: rest
      /\ Forall (fun x => @index_IsProofOfStake SampleChain.context x <> true) skipped.
Proof.
  split; [reflexivity|].
  destruct (@GetLastBlockIndex_nearest SampleChain.context (Some (Sample.chain 4)) true)
    as (skipped & rest & Hchain & Hskipped & _).
  exists skipped, rest. split; assumption.
Defined.

Section WalletSamples.
Import Wallet.

(** The position of the sample transaction travels under the key [n],
    which is gone from memory after the call. *)
Lemma SerializationOp_reserved_keys_witness :
  let wtx := SampleChain.wallet_tx in
  ser_mapValue (@SerializationOp_write SampleChain.text wtx).1 !! "n" = Some "7"
  /\ mapValue (@SerializationOp_write SampleChain.text wtx).2 !! "n" = None
  /\ mapValue (@SerializationOp_write SampleChain.text wtx).2 !! "comment" = Some "rent".
Proof.
  intros wtx. split; [vm_compute; reflexivity|].
  destruct (@SerializationOp_reserved_keys SampleChain.text wtx
              (@SerializationOp_write SampleChain.text wtx).1 "n") as [Hn _].
  destruct (@SerializationOp_reserved_keys SampleChain.text wtx
              (@SerializationOp_write SampleChain.text wtx).1 "comment") as [_ Hc].
  split.
  - apply Hn. unfold reserved_keys. rewrite !elem_of_cons. tauto.
  - rewrite (proj1 (Hc ltac:(unfold reserved_keys; rewrite !elem_of_cons, elem_of_nil;
                             intros [?|[?|[?|[?|[?|[]]]]]]; discriminate))).
    vm_compute. reflexivity.
Defined.
End WalletSamples.
